(** * Cryptocurrency market-data server: a shallow embedding of [mainserver.py]

    The development follows the layout of the Python module:
    - [Py]: the Python built-ins the module relies on (string methods,
      [sorted], slicing, truthiness, exceptions);
    - [CacheTools]: the [TTLCache] container the [CacheManager] is built on;
    - the data models, [CacheManager], [ExchangeManager] and
      [CryptoMCPServer] themselves, as state-passing code over a [World]
      that records the server object, the monotonic clock, and the log of
      calls made to the exchange connectivity library.

    Conventions.  Python [str] is modelled by [string] (byte strings; case
    conversion acts on ASCII letters only, where Python converts every
    cased character).  Python [int] is [Z] or [nat].
    A Python [float] the module calculates with (the prices and volumes
    of the candles, and the statistics made of them) is an IEEE 754
    binary64 number, Rocq's primitive [float]; [sum] over floats and the C
    library's [pow], whose results depend on the interpreter and on the
    platform, are taken from the environment.  Floats that are only
    carried from a reply to a result (ticker fields, order-book levels,
    times in seconds) and the quotient of the two counters are written as
    real numbers ([R]).  The clock is read in whole seconds ([Z]); the
    wall clock and the monotonic clock are one clock. *)

From Stdlib Require Import Floats Uint63.
From Stdlib Require Import Reals Lra Ascii.
From Stdlib Require String.
From stdpp Require Import base gmap strings list sorting pretty.

Set Warnings "-inexact-float".

(** ** Python built-ins *)

Module Py.

(** Exceptions that the modelled code raises or receives. *)
Inductive exn : Type :=
| ValueError (msg : string)
| ValidationError (msg : string)      (* pydantic; a subclass of ValueError *)
| TypeError (msg : string)
| KeyError (key : string)
| IndexError (msg : string)
| AttributeError (msg : string)
| ZeroDivisionError (msg : string)
| OverflowError (msg : string)
| RuntimeError (msg : string)
| NetworkError (msg : string)         (* ccxt.NetworkError *)
| ExchangeError (msg : string)        (* ccxt.ExchangeError *)
| OtherError (msg : string).          (* any other subclass of Exception *)

(** [repr(s)] of a string: in single quotes, or in double quotes when
    the string holds a single quote and no double one; the quote in use
    and the backslash are escaped, and so are the control characters. *)
Definition double_quote : ascii := ascii_of_nat 34.
Definition backslash : ascii := ascii_of_nat 92.

Fixpoint has_char (c : ascii) (s : string) : bool :=
  match s with
  | EmptyString => false
  | String a s' => Ascii.eqb a c || has_char c s'
  end.

Definition hex_digit (n : nat) : ascii :=
  ascii_of_nat (if (n <? 10)%nat then 48 + n else 87 + n).

Definition repr_char (quote c : ascii) : string :=
  let n := nat_of_ascii c in
  if Ascii.eqb c quote || Ascii.eqb c backslash
  then String backslash (String c EmptyString)
  else if (n =? 9)%nat then String backslash "t"
  else if (n =? 10)%nat then String backslash "n"
  else if (n =? 13)%nat then String backslash "r"
  else if (n <? 32)%nat || (n =? 127)%nat
       then String backslash (String "x" (String (hex_digit (n / 16))
              (String (hex_digit (n mod 16)) EmptyString)))
  else String c EmptyString.

Fixpoint repr_chars (quote : ascii) (s : string) : string :=
  match s with
  | EmptyString => EmptyString
  | String c s' => String.append (repr_char quote c) (repr_chars quote s')
  end.

Definition repr (s : string) : string :=
  let quote := if has_char "'" s && negb (has_char double_quote s)
               then double_quote else "'"%char in
  String quote (String.append (repr_chars quote s) (String quote EmptyString)).

(** [str(e)]: the message, but for a [KeyError] the [repr] of the key. *)
Definition str_exn (e : exn) : string :=
  match e with
  | KeyError key => repr key
  | ValueError m | ValidationError m | TypeError m
  | IndexError m | AttributeError m | ZeroDivisionError m | OverflowError m
  | RuntimeError m | NetworkError m | ExchangeError m | OtherError m => m
  end.

(** The outcome of evaluating an expression: a value, or a raised
    exception. *)
Inductive result (A : Type) : Type :=
| Ok (a : A)
| Raise (e : exn).
Global Arguments Ok {A} a.
Global Arguments Raise {A} e.

Definition is_ok {A} (r : result A) : bool :=
  match r with Ok _ => true | Raise _ => false end.

Definition result_bind {A B} (r : result A) (k : A → result B) : result B :=
  match r with Ok a => k a | Raise e => Raise e end.

Global Instance result_ret : MRet result := @Ok.
Global Instance result_mbind : MBind result := λ A B k r, result_bind r k.

(** [l[0]] and [l[-1]] *)
Definition first_item {A} (l : list A) : result A :=
  match l with
  | x :: _ => Ok x
  | [] => Raise (IndexError "list index out of range")
  end.

Definition last_item {A} (l : list A) : result A :=
  match last l with
  | Some x => Ok x
  | None => Raise (IndexError "list index out of range")
  end.

(** [str.upper] and [str.lower] on ASCII letters. *)
Definition upper_ascii (c : ascii) : ascii :=
  let n := nat_of_ascii c in
  if (97 <=? n)%nat && (n <=? 122)%nat then ascii_of_nat (n - 32) else c.

Definition lower_ascii (c : ascii) : ascii :=
  let n := nat_of_ascii c in
  if (65 <=? n)%nat && (n <=? 90)%nat then ascii_of_nat (n + 32) else c.

Fixpoint upper (s : string) : string :=
  match s with
  | EmptyString => EmptyString
  | String c s' => String (upper_ascii c) (upper s')
  end.

Fixpoint lower (s : string) : string :=
  match s with
  | EmptyString => EmptyString
  | String c s' => String (lower_ascii c) (lower s')
  end.

(** [needle in hay] on strings: substring test. *)
Fixpoint str_in (needle hay : string) : bool :=
  String.prefix needle hay ||
    match hay with
    | EmptyString => false
    | String _ hay' => str_in needle hay'
    end.

(** [sep.join(parts)] *)
Definition join (sep : string) (parts : list string) : string :=
  String.concat sep parts.

(** [sorted(l)]: a stable sort; only its result matters, so it is written
    as a stable insertion sort.  [leb] is the comparison [x <= y]. *)
Section Sorted.
Context {A : Type} (leb : A → A → bool).

Fixpoint insert_sorted (x : A) (l : list A) : list A :=
  match l with
  | [] => [x]
  | y :: l' => if leb x y then x :: y :: l' else y :: insert_sorted x l'
  end.

Definition sorted (l : list A) : list A := foldr insert_sorted [] l.
End Sorted.

(** [l[:n]] for an arbitrary integer [n] (a negative bound counts from
    the end). *)
Definition slice_to {A} (n : Z) (l : list A) : list A :=
  if (0 <=? n)%Z then take (Z.to_nat n) l
  else take (length l - Z.to_nat (- n)) l.

(** Truthiness. *)
Definition truthy_list {A} (l : list A) : bool :=
  match l with [] => false | _ :: _ => true end.

Definition truthy_float (x : R) : bool :=
  if Req_dec_T x 0 then false else true.

(** [x / y] on the floats written as reals. *)
Definition div (x y : R) : result R :=
  if Req_dec_T y 0 then Raise (ZeroDivisionError "float division by zero")
  else Ok (x / y)%R.

(** *** Floats

    On binary64 floats [+], [-] and [*] are the IEEE 754 operations: they
    round to nearest, ties to even, and never raise (an overflow gives an
    infinity); a comparison with a NaN is false. *)

(** [x / y]: the divisor is compared with zero (of either sign) first. *)
Definition float_truediv (x y : float) : result float :=
  if (y =? 0)%float then Raise (ZeroDivisionError "float division by zero")
  else Ok (x / y)%float.

(** [float(n)] for an int [0 <= n < 2^63]: the nearest float. *)
Definition float_of_nat (n : nat) : float :=
  of_uint63 (of_Z (Z.of_nat n)).

(** [x / n] for a float [x] and an int [n >= 0], a length: [n] is
    converted to a float, which is zero only for [n = 0]. *)
Definition float_truediv_int (x : float) (n : nat) : result float :=
  match n with
  | 0 => Raise (ZeroDivisionError "float division by zero")
  | S _ => Ok (x / float_of_nat n)%float
  end.

(** [max] and [min] over a list of floats: the first item is kept until
    one compares greater (smaller); on the empty list Python raises. *)
Definition max (l : list float) : result float :=
  match l with
  | [] => Raise (ValueError "max() arg is an empty sequence")
  | x :: l' => Ok (foldl (λ m y, if (m <? y)%float then y else m) x l')
  end.

Definition min (l : list float) : result float :=
  match l with
  | [] => Raise (ValueError "min() arg is an empty sequence")
  | x :: l' => Ok (foldl (λ m y, if (y <? m)%float then y else m) x l')
  end.

(** [x == floor(x)] and [fmod(fabs(x), 2.0) == 1.0], read off the
    mantissa and the exponent of [x]. *)
Definition is_integer (x : float) : bool :=
  match Prim2SF x with
  | S754_zero _ => true
  | S754_finite _ m e =>
      if (0 <=? e)%Z then true else (Z.pos m mod 2 ^ (- e) =? 0)%Z
  | _ => false
  end.

Definition is_odd_integer (x : float) : bool :=
  match Prim2SF x with
  | S754_finite _ m e =>
      if (0 <=? e)%Z then (e =? 0)%Z && Z.odd (Z.pos m)
      else (Z.pos m mod 2 ^ (- e) =? 0)%Z && Z.odd (Z.pos m / 2 ^ (- e))
  | _ => false
  end.

(** [copysign(x, y)] *)
Definition copysign (x y : float) : float :=
  if get_sign y then (- abs x)%float else abs x.

(** The value of a power [x ** y] of two floats: a float or, for a
    negative base and a fractional exponent, a complex number, which is
    kept as the power it is. *)
Inductive number : Type :=
| Float (x : float)
| Complex (base exponent : float).

(** The float that a power with an integral exponent is
    (lemma [float_pow_2_is_float]). *)
Definition as_float (r : number) : float :=
  match r with
  | Float x => x
  | Complex _ _ => nan
  end.

(** [int(x)] on a float: truncation towards zero. *)
Definition int (x : R) : Z :=
  if Rle_dec 0 x then Int_part x else (- Int_part (- x))%Z.

(** Values passed as keyword arguments to the key generator, and their
    rendering by an f-string. *)
Inductive value : Type :=
| VStr (s : string)
| VInt (z : Z).

Definition render (v : value) : string :=
  match v with
  | VStr s => s
  | VInt z => pretty z
  end.

Definition same_type (v w : value) : bool :=
  match v, w with
  | VStr _, VStr _ | VInt _, VInt _ => true
  | _, _ => false
  end.

End Py.
Export Py.

(** ** The [cachetools.TTLCache] container

    [CacheManager] stores everything in three [TTLCache] objects.  The
    class comes from the [cachetools] package; what is written here is its
    behaviour for the default [getsizeof] (every item has size 1).  A cache
    keeps

    - [links]: the ordered dictionary of the entries, least recently used
      first (a lookup or an assignment moves the entry to the end), each
      with its value and its expiry time;
    - [chain]: the linked list of the same entries in the order in which
      they were last assigned, which is the order in which they expire.

    Expired entries are unlinked lazily, by [expire], at the next
    assignment; when room is still missing [popitem] discards the entry at
    the head of [links]. *)

Module CacheTools.

Definition time : Type := Z.

Section Assoc.
Context {X : Type}.

Fixpoint assoc (k : string) (l : list (string * X)) : option X :=
  match l with
  | [] => None
  | (k', x) :: l' => if decide (k = k') then Some x else assoc k l'
  end.

Fixpoint remove_key (k : string) (l : list (string * X)) : list (string * X) :=
  match l with
  | [] => []
  | (k', x) :: l' =>
      if decide (k = k') then remove_key k l' else (k', x) :: remove_key k l'
  end.

Definition keys (l : list (string * X)) : list string := l.*1.
End Assoc.

Section TTLCache.
Context {V : Type}.

Record TTLCache : Type := mkTTLCache {
  maxsize : nat;
  ttl : time;
  links : list (string * (V * time));
  chain : list (string * time);
}.

(** [TTLCache(maxsize, ttl)] *)
Definition new (maxsize : nat) (ttl : time) : TTLCache :=
  mkTTLCache maxsize ttl [] [].

Definition currsize (c : TTLCache) : nat := length (links c).

(** [key in cache]: present and not expired; no reordering. *)
Definition contains (c : TTLCache) (k : string) (t : time) : bool :=
  match assoc k (links c) with
  | Some (_, e) => bool_decide (t < e)%Z
  | None => false
  end.

(** The private [__getlink]: the access moves the link to the end of
    [links]. *)
Definition move_to_end (c : TTLCache) (k : string) : TTLCache :=
  match assoc k (links c) with
  | Some x => mkTTLCache (maxsize c) (ttl c)
                (remove_key k (links c) ++ [(k, x)]) (chain c)
  | None => c
  end.

(** [cache[key]] *)
Definition getitem (c : TTLCache) (k : string) (t : time)
  : result V * TTLCache :=
  match assoc k (links c) with
  | None => (Raise (KeyError k), c)
  | Some (v, e) =>
      if bool_decide (t < e)%Z then (Ok v, move_to_end c k)
      else (Raise (KeyError k), move_to_end c k)
  end.

(** [cache.get(key)], with default [None]. *)
Definition get (c : TTLCache) (k : string) (t : time)
  : result (option V) * TTLCache :=
  if contains c k t then
    match getitem c k t with
    | (Ok v, c') => (Ok (Some v), c')
    | (Raise e, c') => (Raise e, c')
    end
  else (Ok None, c).

(** [cache.expire(time)]: walk the chain from its head and unlink
    every entry that is no longer alive. *)
Fixpoint expire_walk (t : time) (ch : list (string * time))
    (lnk : list (string * (V * time)))
  : list (string * time) * list (string * (V * time)) :=
  match ch with
  | [] => ([], lnk)
  | (k, e) :: ch' =>
      if bool_decide (t < e)%Z then (ch, lnk)
      else expire_walk t ch' (remove_key k lnk)
  end.

Definition expire (c : TTLCache) (t : time) : TTLCache :=
  let '(ch, lnk) := expire_walk t (chain c) (links c) in
  mkTTLCache (maxsize c) (ttl c) lnk ch.

(** [del cache[key]] *)
Definition delitem (c : TTLCache) (k : string) (t : time)
  : result () * TTLCache :=
  match assoc k (links c) with
  | None => (Raise (KeyError k), c)
  | Some (_, e) =>
      let c' := mkTTLCache (maxsize c) (ttl c)
                  (remove_key k (links c)) (remove_key k (chain c)) in
      if bool_decide (t < e)%Z then (Ok (), c') else (Raise (KeyError k), c')
  end.

(** [cache.pop(key)] without default. *)
Definition pop (c : TTLCache) (k : string) (t : time)
  : result V * TTLCache :=
  if contains c k t then
    match getitem c k t with
    | (Ok v, c1) =>
        match delitem c1 k t with
        | (Ok _, c2) => (Ok v, c2)
        | (Raise e, c2) => (Raise e, c2)
        end
    | (Raise e, c1) => (Raise e, c1)
    end
  else (Raise (KeyError k), c).

(** [cache.popitem()]: "remove and return the (key, value) pair least
    recently used that has not already expired". *)
Definition popitem (c : TTLCache) (t : time)
  : result (string * V) * TTLCache :=
  let c1 := expire c t in
  match links c1 with
  | [] => (Raise (KeyError "TTLCache is empty"), c1)
  | (k, _) :: _ =>
      match pop c1 k t with
      | (Ok v, c2) => (Ok (k, v), c2)
      | (Raise e, c2) => (Raise e, c2)
      end
  end.

(** The loop [while currsize + size > maxsize: popitem()] of the base
    class.  Each round removes an entry, so [S (currsize c)] rounds of
    fuel are always enough (lemmas [make_room_fuel] and
    [make_room_terminates] below). *)
Fixpoint make_room (fuel : nat) (c : TTLCache) (t : time)
  : result () * TTLCache :=
  if (maxsize c <? currsize c + 1)%nat then
    match fuel with
    | O => (Raise (RuntimeError "make_room: out of fuel"), c)
    | S fuel' =>
        match popitem c t with
        | (Ok _, c') => make_room fuel' c' t
        | (Raise e, c') => (Raise e, c')
        end
    end
  else (Ok (), c).

(** [cache[key] = value] at timer reading [t]. *)
Definition setitem (c : TTLCache) (k : string) (v : V) (t : time)
  : result () * TTLCache :=
  let c1 := expire c t in
  if (maxsize c1 <? 1)%nat then (Raise (ValueError "value too large"), c1)
  else
    let '(r, c2) :=
      if bool_decide (k ∈ keys (links c1)) then (Ok (), c1)
      else make_room (S (currsize c1)) c1 t in
    match r with
    | Raise e => (Raise e, c2)
    | Ok _ =>
        let e := (t + ttl c2)%Z in
        (Ok (), mkTTLCache (maxsize c2) (ttl c2)
                  (remove_key k (links c2) ++ [(k, (v, e))])
                  (remove_key k (chain c2) ++ [(k, e)]))
    end.

(** [len(cache)]: expired entries are dropped before counting. *)
Definition len (c : TTLCache) (t : time) : nat * TTLCache :=
  let c1 := expire c t in (currsize c1, c1).

(** [cache.clear()] *)
Definition clear (c : TTLCache) : TTLCache :=
  mkTTLCache (maxsize c) (ttl c) [] [].

(** The entries that would expire first: those whose expiry time is
    minimal among the cached ones. *)
Definition expires_soonest (c : TTLCache) (k : string) : Prop :=
  ∃ v e, assoc k (links c) = Some (v, e) ∧
         ∀ k' v' e', (k', (v', e')) ∈ links c → (e ≤ e')%Z.

End TTLCache.
Global Arguments TTLCache : clear implicits.

End CacheTools.

(** ** What the module takes from its environment

    The digest used for cache keys and the [datetime] conversions are
    library functions; the development is parametric in them.  So it is
    in the two float routines that IEEE 754 does not fix: [sum] over a
    list of floats (addition from left to right up to Python 3.11,
    compensated summation from 3.12; the package admits both) and the
    [pow] of the C library that [**] calls, together with the text of the
    range error that the platform reports for it. *)

Class Externals : Type := {
  md5_hexdigest : string → string;     (* hashlib.md5(s.encode()).hexdigest() *)
  datetime : Type;
  fromtimestamp : R → result datetime; (* datetime.fromtimestamp(seconds) *)
  timestamp : datetime → R;            (* dt.timestamp() *)
  isoformat : datetime → string;       (* dt.isoformat() *)
  float_sum : list float → float;      (* sum(l), l a non-empty list of floats *)
  libm_pow : float → float → float;    (* pow(x, y) *)
  strerror_ERANGE : string;            (* str of the error set from ERANGE *)
}.

(** [x ** y] on floats, as [float_pow] of CPython decides it: the special
    cases first, then the C library's [pow] on a positive finite base
    other than 1 and a finite non-zero exponent.  The platform reports a
    range error exactly when the result of [pow] overflows, and the
    interpreter raises [OverflowError] from it. *)
Definition float_pow `{Externals} (iv iw : float) : result number :=
  if (iw =? 0)%float then Ok (Float 1)
  else if is_nan iv then Ok (Float iv)
  else if is_nan iw then Ok (Float (if (iv =? 1)%float then 1 else iw))
  else if is_infinity iw then
    if (abs iv =? 1)%float then Ok (Float 1)
    else if Bool.eqb (0 <? iw)%float (1 <? abs iv)%float
         then Ok (Float (abs iw))
         else Ok (Float 0)
  else if is_infinity iv then
    if (0 <? iw)%float
    then Ok (Float (if is_odd_integer iw then iv else abs iv))
    else Ok (Float (if is_odd_integer iw then copysign 0 iv else 0))
  else if (iv =? 0)%float then
    if (iw <? 0)%float
    then Raise (ZeroDivisionError "0.0 cannot be raised to a negative power")
    else Ok (Float (if is_odd_integer iw then iv else 0))
  else if (iv <? 0)%float && negb (is_integer iw) then Ok (Complex iv iw)
  else
    let negate_result := (iv <? 0)%float && is_odd_integer iw in
    let iv := if (iv <? 0)%float then (- iv)%float else iv in
    if (iv =? 1)%float then Ok (Float (if negate_result then (-1) else 1))
    else
      let ix := libm_pow iv iw in
      if is_infinity ix then Raise (OverflowError strerror_ERANGE)
      else Ok (Float (if negate_result then (- ix) else ix)%float).

(** [x ** 2]: the exponent is an int, converted to the float 2.0. *)
Definition float_pow_2 `{Externals} (x : float) : result float :=
  result_bind (float_pow x 2) (λ r, Ok (as_float r)).

(** ** Data models *)

Inductive TimeFrame : Type := M1 | M5 | M15 | M30 | H1 | H4 | D1 | W1 | MO1.

Definition TimeFrame_value (t : TimeFrame) : string :=
  match t with
  | M1 => "1m" | M5 => "5m" | M15 => "15m" | M30 => "30m"
  | H1 => "1h" | H4 => "4h" | D1 => "1d" | W1 => "1w" | MO1 => "1M"
  end.

Definition all_TimeFrame : list TimeFrame :=
  [M1; M5; M15; M30; H1; H4; D1; W1; MO1].

Inductive Exchange : Type := BINANCE | COINBASE | KRAKEN | BITFINEX | HUOBI.

Definition Exchange_value (e : Exchange) : string :=
  match e with
  | BINANCE => "binance" | COINBASE => "coinbase" | KRAKEN => "kraken"
  | BITFINEX => "bitfinex" | HUOBI => "huobi"
  end.

(** [list(Exchange)] *)
Definition all_Exchange : list Exchange :=
  [BINANCE; COINBASE; KRAKEN; BITFINEX; HUOBI].

Record MarketDataRequest : Type := mkMarketDataRequest {
  symbol : string;
  exchange : Exchange;
}.

(** The field validator of [MarketDataRequest.symbol]. *)
Definition validate_symbol (v : string) : result string :=
  if negb (str_in "/" v)
  then Raise (ValueError "Symbol must be in format BASE/QUOTE (e.g., BTC/USDT)")
  else Ok (upper v).

(** [MarketDataRequest(symbol=..., exchange=...)]: pydantic runs the
    validator and reports its [ValueError] as a [ValidationError]. *)
Definition MarketDataRequest_init (symbol : string) (exchange : Exchange)
  : result MarketDataRequest :=
  match validate_symbol symbol with
  | Ok s => Ok (mkMarketDataRequest s exchange)
  | Raise e => Raise (ValidationError (str_exn e))
  end.

Section WithExternals.
Context `{Externals}.

Record HistoricalDataRequest : Type := mkHistoricalDataRequest {
  base : MarketDataRequest;
  timeframe : TimeFrame;
  limit : Z;
  since : option datetime;
}.

(** [HistoricalDataRequest(...)]: [limit] carries [ge=1, le=1000]. *)
Definition HistoricalDataRequest_init (symbol : string) (exchange : Exchange)
    (timeframe : TimeFrame) (limit : Z) (since : option datetime)
  : result HistoricalDataRequest :=
  match MarketDataRequest_init symbol exchange with
  | Raise e => Raise e
  | Ok b =>
      if bool_decide (1 ≤ limit)%Z && bool_decide (limit ≤ 1000)%Z
      then Ok (mkHistoricalDataRequest b timeframe limit since)
      else Raise (ValidationError "limit")
  end.

Record TickerData : Type := mkTickerData {
  tk_symbol : string;
  tk_exchange : string;
  tk_timestamp : datetime;
  last : R;
  bid : R;
  ask : R;
  high : R;
  low : R;
  volume : R;
  change_24h : option R;
}.

Record OHLCVData : Type := mkOHLCVData {
  cd_timestamp : datetime;
  open : float;
  cd_high : float;
  cd_low : float;
  close : float;
  cd_volume : float;
}.

Record OrderBookData : Type := mkOrderBookData {
  ob_symbol : string;
  ob_exchange : string;
  ob_timestamp : datetime;
  bids : list (list R);
  asks : list (list R);
}.

(** ** Cache manager *)

Import CacheTools.

Record CacheManager : Type := mkCacheManager {
  ticker_cache : TTLCache TickerData;
  ohlcv_cache : TTLCache (list OHLCVData);
  orderbook_cache : TTLCache OrderBookData;
}.

Definition CacheManager_init : CacheManager :=
  mkCacheManager (new 1000 10%Z) (new 500 60%Z) (new 500 5%Z).

(** [sorted(kwargs.items())]: the names of keyword arguments are
    distinct, so the comparison of two items is decided by the names. *)
Definition item_leb (p q : string * value) : bool := String.leb p.1 q.1.

(** The string that is digested:
    [f"{prefix}:" + ":".join(f"{k}={v}" for k, v in sorted(kwargs.items()))] *)
Definition key_str (prefix : string) (kwargs : list (string * value)) : string :=
  (prefix +:+ ":") +:+
  join ":" ((λ kv, kv.1 +:+ "=" +:+ render kv.2) <$> sorted item_leb kwargs).

Definition _generate_key (prefix : string) (kwargs : list (string * value))
  : string :=
  md5_hexdigest (key_str prefix kwargs).

Definition ticker_key (exchange symbol : string) : string :=
  _generate_key "ticker" [("exchange", VStr exchange); ("symbol", VStr symbol)].

Definition ohlcv_key (exchange symbol timeframe : string) (limit : Z) : string :=
  _generate_key "ohlcv" [("exchange", VStr exchange); ("symbol", VStr symbol);
                         ("timeframe", VStr timeframe); ("limit", VInt limit)].

Definition CacheManager_get_ticker (cm : CacheManager)
    (exchange symbol : string) (t : time)
  : result (option TickerData) * CacheManager :=
  let key := ticker_key exchange symbol in
  let '(r, c) := get (ticker_cache cm) key t in
  (r, mkCacheManager c (ohlcv_cache cm) (orderbook_cache cm)).

Definition CacheManager_set_ticker (cm : CacheManager)
    (exchange symbol : string) (data : TickerData) (t : time)
  : result () * CacheManager :=
  let key := ticker_key exchange symbol in
  let '(r, c) := setitem (ticker_cache cm) key data t in
  (r, mkCacheManager c (ohlcv_cache cm) (orderbook_cache cm)).

Definition CacheManager_get_ohlcv (cm : CacheManager)
    (exchange symbol timeframe : string) (limit : Z) (t : time)
  : result (option (list OHLCVData)) * CacheManager :=
  let key := ohlcv_key exchange symbol timeframe limit in
  let '(r, c) := get (ohlcv_cache cm) key t in
  (r, mkCacheManager (ticker_cache cm) c (orderbook_cache cm)).

Definition CacheManager_set_ohlcv (cm : CacheManager)
    (exchange symbol timeframe : string) (limit : Z)
    (data : list OHLCVData) (t : time)
  : result () * CacheManager :=
  let key := ohlcv_key exchange symbol timeframe limit in
  let '(r, c) := setitem (ohlcv_cache cm) key data t in
  (r, mkCacheManager (ticker_cache cm) c (orderbook_cache cm)).

Definition CacheManager_clear_all (cm : CacheManager) : CacheManager :=
  mkCacheManager (clear (ticker_cache cm)) (clear (ohlcv_cache cm))
                 (clear (orderbook_cache cm)).

(** ** The exchange connectivity library, seen from the server

    Each registered exchange is an object with a few attributes and a
    lazily loaded [markets] catalogue.  Its network operations are
    answered by an [Upstream]: a reply for every call, which may depend
    on everything that was called before, and the time the call takes. *)

Record RawTicker : Type := mkRawTicker {
  raw_timestamp : option Z;       (* epoch milliseconds *)
  raw_last : option R;
  raw_bid : option R;
  raw_ask : option R;
  raw_high : option R;
  raw_low : option R;
  raw_baseVolume : option R;
  raw_percentage : option R;
}.

Record RawOrderBook : Type := mkRawOrderBook {
  rob_timestamp : option Z;
  rob_bids : list (list R);
  rob_asks : list (list R);
}.

(** One row [[timestamp, open, high, low, close, volume]]. *)
Record RawCandle : Type := mkRawCandle {
  rc_timestamp : Z;
  rc_open : float;
  rc_high : float;
  rc_low : float;
  rc_close : float;
  rc_volume : float;
}.

Record Market : Type := mkMarket { market_id : string }.

Definition Catalog : Type := list (string * Market).

Record Handle : Type := mkHandle {
  h_id : string;
  h_name : string;
  h_countries : list string;
  h_has : list (string * bool);
  h_timeframes : option (list string);
  h_rateLimit : Z;
  markets : option Catalog;
}.

Inductive Call : Type :=
| LoadMarkets (exchange_id : string)
| FetchTicker (exchange_id symbol : string)
| FetchOrderBook (exchange_id symbol : string) (limit : Z)
| FetchOHLCV (exchange_id symbol timeframe : string)
             (since : option Z) (limit : Z).

Record Upstream : Type := mkUpstream {
  load_markets_reply : list Call → string → result Catalog;
  fetch_ticker_reply : list Call → string → string → result RawTicker;
  fetch_order_book_reply :
    list Call → string → string → Z → result RawOrderBook;
  fetch_ohlcv_reply :
    list Call → string → string → string → option Z → Z
    → result (list RawCandle);
  latency : list Call → Call → nat;
}.

Record ExchangeManager : Type := mkExchangeManager {
  exchanges : gmap string Handle;
}.

(** [_initialize_exchanges]: an exchange whose constructor raises is
    skipped. *)
Definition _initialize_exchanges (construct : Exchange → result Handle)
  : gmap string Handle :=
  foldl (λ reg e, match construct e with
                  | Ok h => <[Exchange_value e := h]> reg
                  | Raise _ => reg
                  end) ∅ all_Exchange.

Definition ExchangeManager_init (construct : Exchange → result Handle)
  : ExchangeManager :=
  mkExchangeManager (_initialize_exchanges construct).

(** ** Server state and the state-and-exception monad *)

Record CryptoMCPServer : Type := mkCryptoMCPServer {
  cache : CacheManager;
  exchange_manager : ExchangeManager;
  request_count : nat;
  error_count : nat;
  start_time : time;
}.

Record World : Type := mkWorld {
  server : CryptoMCPServer;
  now : time;              (* the clock *)
  calls : list Call;       (* every upstream call made so far, oldest first *)
  upstream : Upstream;
}.

Definition CryptoMCPServer_init (construct : Exchange → result Handle)
    (t : time) : CryptoMCPServer :=
  mkCryptoMCPServer CacheManager_init (ExchangeManager_init construct) 0 0 t.

Definition M (A : Type) : Type := World → result A * World.

Definition ret {A} (a : A) : M A := λ w, (Ok a, w).
Definition raise {A} (e : exn) : M A := λ w, (Raise e, w).
Definition lift {A} (r : result A) : M A := λ w, (r, w).
Definition bind {A B} (m : M A) (k : A → M B) : M B :=
  λ w, match m w with
       | (Ok a, w') => k a w'
       | (Raise e, w') => (Raise e, w')
       end.
(** [try: m  except Exception as e: h e] *)
Definition try_except {A} (m : M A) (h : exn → M A) : M A :=
  λ w, match m w with
       | (Ok a, w') => (Ok a, w')
       | (Raise e, w') => h e w'
       end.

Global Instance M_ret : MRet M := @ret.
Global Instance M_bind : MBind M := λ A B k m, bind m k.

Definition with_server (f : CryptoMCPServer → CryptoMCPServer) : M () :=
  λ w, (Ok (), mkWorld (f (server w)) (now w) (calls w) (upstream w)).

Definition with_cache {A}
    (f : CacheManager → time → result A * CacheManager) : M A :=
  λ w, let s := server w in
       let '(r, cm) := f (cache s) (now w) in
       (r, mkWorld (mkCryptoMCPServer cm (exchange_manager s)
                      (request_count s) (error_count s) (start_time s))
                   (now w) (calls w) (upstream w)).

(** [await maybe_await(exchange.method(args))]: the call is logged, the
    clock advances by the time it took, and the reply is returned or
    raised. *)
Definition upstream_call {A} (c : Call)
    (reply : Upstream → list Call → result A) : M A :=
  λ w, (reply (upstream w) (calls w),
        mkWorld (server w)
                (now w + Z.of_nat (latency (upstream w) (calls w) c))%Z
                (calls w ++ [c]) (upstream w)).

Definition incr_request_count : M () :=
  with_server (λ s, mkCryptoMCPServer (cache s) (exchange_manager s)
                      (request_count s + 1) (error_count s) (start_time s)).

Definition incr_error_count : M () :=
  with_server (λ s, mkCryptoMCPServer (cache s) (exchange_manager s)
                      (request_count s) (error_count s + 1) (start_time s)).

(** [for x in l: f x], collecting the results. *)
Fixpoint for_each {A B} (f : A → M B) (l : list A) : M (list B) :=
  match l with
  | [] => ret []
  | x :: l' => y ← f x; ys ← for_each f l'; ret (y :: ys)
  end.

(** ** Exchange manager *)

(** [get_exchange]: the handle registered under the lower-cased name.
    Handles are shared objects; the value returned is the reference to
    the handle, that is, the key under which the registry holds it. *)
Definition get_exchange (exchange_name : string) : M string :=
  λ w, match exchanges (exchange_manager (server w)) !! lower exchange_name with
       | Some _ => (Ok (lower exchange_name), w)
       | None => (Raise (ValueError ("Exchange " +:+ exchange_name +:+
                                     " not supported or not initialized")), w)
       end.

(** [not exchange.markets]: no catalogue yet, or an empty one. *)
Definition markets_missing (h : Handle) : bool :=
  match markets h with
  | None | Some [] => true
  | Some (_ :: _) => false
  end.

Definition store_markets (ref : string) (catalog : Catalog) : M () :=
  with_server (λ s,
    mkCryptoMCPServer (cache s)
      (mkExchangeManager
         (alter (λ h, mkHandle (h_id h) (h_name h) (h_countries h) (h_has h)
                        (h_timeframes h) (h_rateLimit h) (Some catalog))
                ref (exchanges (exchange_manager s))))
      (request_count s) (error_count s) (start_time s)).

Definition handle_of (ref : string) : M Handle :=
  λ w, match exchanges (exchange_manager (server w)) !! ref with
       | Some h => (Ok h, w)
       | None => (Raise (KeyError ref), w)
       end.

(** [ExchangeManager.load_markets]: the catalogue is fetched only when
    the handle has none; the library keeps what it fetched in
    [exchange.markets]. *)
Definition load_markets (exchange_name : string) : M () :=
  ref ← get_exchange exchange_name;
  h ← handle_of ref;
  if markets_missing h then
    catalog ← upstream_call (LoadMarkets ref)
                (λ u hist, load_markets_reply u hist ref);
    store_markets ref catalog
  else ret ().

(** ** Conversions of upstream replies to the data models *)

(** [datetime.fromtimestamp(ms / 1000)]; [None / 1000] is a [TypeError]. *)
Definition datetime_of_ms (ms : option Z) : result datetime :=
  match ms with
  | None => Raise (TypeError "unsupported operand type(s) for /: 'NoneType' and 'int'")
  | Some z => fromtimestamp (IZR z / 1000)%R
  end.

(** A required [float] field: [None] is rejected by the model class. *)
Definition required (x : option R) : result R :=
  match x with
  | Some v => Ok v
  | None => Raise (ValidationError "Input should be a valid number")
  end.

(** [x or y] on optional floats. *)
Definition or_else (x y : option R) : option R :=
  match x with
  | Some v => if truthy_float v then x else y
  | None => y
  end.

Definition TickerData_of (request : MarketDataRequest) (ticker : RawTicker)
  : result TickerData :=
  result_bind (datetime_of_ms (raw_timestamp ticker)) (λ ts,
  result_bind (required (raw_last ticker)) (λ last,
  result_bind (required (or_else (raw_bid ticker) (raw_last ticker))) (λ bid,
  result_bind (required (or_else (raw_ask ticker) (raw_last ticker))) (λ ask,
  result_bind (required (raw_high ticker)) (λ high,
  result_bind (required (raw_low ticker)) (λ low,
  result_bind (required (raw_baseVolume ticker)) (λ volume,
  Ok (mkTickerData (symbol request) (Exchange_value (exchange request)) ts
        last bid ask high low volume (raw_percentage ticker))))))))).

Definition OHLCVData_of (candle : RawCandle) : result OHLCVData :=
  result_bind (fromtimestamp (IZR (rc_timestamp candle) / 1000)%R) (λ ts,
  Ok (mkOHLCVData ts (rc_open candle) (rc_high candle) (rc_low candle)
        (rc_close candle) (rc_volume candle))).

(** The list comprehension over the candles; the first failing
    conversion aborts it. *)
Fixpoint OHLCVData_of_all (ohlcv : list RawCandle) : result (list OHLCVData) :=
  match ohlcv with
  | [] => Ok []
  | candle :: rest =>
      result_bind (OHLCVData_of candle) (λ d,
      result_bind (OHLCVData_of_all rest) (λ ds, Ok (d :: ds)))
  end.

(** ** The server: real-time endpoints *)

Definition ticker_error (e : exn) : exn :=
  match e with
  | NetworkError m => RuntimeError ("Network error: " +:+ m)
  | ExchangeError m => RuntimeError ("Exchange error: " +:+ m)
  | _ => RuntimeError ("Unexpected error: " +:+ str_exn e)
  end.

(** The [try] block of [get_ticker], run on a cache miss. *)
Definition get_ticker_fetch (request : MarketDataRequest) : M TickerData :=
  ref ← get_exchange (Exchange_value (exchange request));
  load_markets (Exchange_value (exchange request));;
  ticker ← upstream_call (FetchTicker ref (symbol request))
             (λ u hist, fetch_ticker_reply u hist ref (symbol request));
  ticker_data ← lift (TickerData_of request ticker);
  with_cache (λ cm t,
    CacheManager_set_ticker cm (Exchange_value (exchange request))
      (symbol request) ticker_data t);;
  ret ticker_data.

Definition get_ticker (request : MarketDataRequest) : M TickerData :=
  incr_request_count;;
  cached ← with_cache (λ cm t,
              CacheManager_get_ticker cm (Exchange_value (exchange request))
                (symbol request) t);
  match cached with
  | Some data => ret data             (* [if cached:] a model object is truthy *)
  | None =>
      try_except (get_ticker_fetch request)
        (λ e, incr_error_count;; raise (ticker_error e))
  end.

Definition get_orderbook (request : MarketDataRequest) (limit : Z)
  : M OrderBookData :=
  incr_request_count;;
  try_except
    (ref ← get_exchange (Exchange_value (exchange request));
     load_markets (Exchange_value (exchange request));;
     orderbook ← upstream_call (FetchOrderBook ref (symbol request) limit)
                   (λ u hist,
                      fetch_order_book_reply u hist ref (symbol request) limit);
     ts ← lift (datetime_of_ms (rob_timestamp orderbook));
     ret (mkOrderBookData (symbol request) (Exchange_value (exchange request))
            ts (slice_to limit (rob_bids orderbook))
            (slice_to limit (rob_asks orderbook))))
    (λ e, incr_error_count;;
          raise (RuntimeError ("Failed to fetch orderbook: " +:+ str_exn e))).

(** ** The server: historical endpoint *)

(** The [try] block of [get_ohlcv]. *)
Definition get_ohlcv_fetch (request : HistoricalDataRequest)
  : M (list OHLCVData) :=
  let exchange_value := Exchange_value (exchange (base request)) in
  let symbol := symbol (base request) in
  let timeframe_value := TimeFrame_value (timeframe request) in
  ref ← get_exchange exchange_value;
  load_markets exchange_value;;
  let since_ms :=
    match since request with
    | Some dt => Some (int (timestamp dt * 1000)%R)
    | None => None
    end in
  ohlcv ← upstream_call
            (FetchOHLCV ref symbol timeframe_value since_ms (limit request))
            (λ u hist, fetch_ohlcv_reply u hist ref symbol timeframe_value
                         since_ms (limit request));
  ohlcv_data ← lift (OHLCVData_of_all ohlcv);
  with_cache (λ cm t,
    CacheManager_set_ohlcv cm exchange_value symbol timeframe_value
      (limit request) ohlcv_data t);;
  ret ohlcv_data.

Definition get_ohlcv (request : HistoricalDataRequest) : M (list OHLCVData) :=
  incr_request_count;;
  cached ← with_cache (λ cm t,
              CacheManager_get_ohlcv cm
                (Exchange_value (exchange (base request)))
                (symbol (base request))
                (TimeFrame_value (timeframe request)) (limit request) t);
  let miss :=
    try_except (get_ohlcv_fetch request)
      (λ e, incr_error_count;;
            raise (RuntimeError ("Failed to fetch OHLCV data: " +:+ str_exn e))) in
  match cached with
  | Some data => if truthy_list data then ret data else miss   (* [if cached:] *)
  | None => miss
  end.

(** ** The server: multi-exchange queries *)

Definition _safe_get_ticker (request : MarketDataRequest)
  : M (option TickerData) :=
  try_except (data ← get_ticker request; ret (Some data)) (λ _, ret None).

(** [{exchange.value: result for exchange, result in zip(...)
      if result is not None}] *)
Definition collect_results (pairs : list (Exchange * option TickerData))
  : gmap string TickerData :=
  foldl (λ d p, match p.2 with
                | Some data => <[Exchange_value p.1 := data]> d
                | None => d
                end) ∅ pairs.

(** The requests are built first, outside any handler; the tasks are
    then run by [asyncio.gather], which returns their results in the
    order of the tasks.  The exchange library used here is the
    synchronous one, so each task runs to completion before the next
    starts. *)
Definition get_multi_exchange_ticker (symbol : string)
    (exchanges : option (list Exchange)) : M (gmap string TickerData) :=
  let exchanges := default all_Exchange exchanges in
  tasks ← for_each (λ exchange, lift (MarketDataRequest_init symbol exchange))
            exchanges;
  results ← for_each _safe_get_ticker tasks;
  ret (collect_results (zip exchanges results)).

(** ** The server: price analytics *)

Record PriceStatistics : Type := mkPriceStatistics {
  ps_symbol : string;
  ps_exchange : string;
  ps_timeframe : string;
  period : nat;
  current_price : float;
  highest_price : float;
  lowest_price : float;
  average_price : float;
  price_change : float;
  price_change_percent : float;
  total_volume : float;
  average_volume : float;
  volatility : number;
  ps_start_time : string;
  ps_end_time : string;
}.

(** The generator [(p - mean) ** 2 for p in prices], as [sum] consumes
    it: the first power that raises ends it. *)
Fixpoint squares (mean : float) (prices : list float) : result (list float) :=
  match prices with
  | [] => Ok []
  | p :: rest =>
      result_bind (float_pow_2 (p - mean)) (λ s,
      result_bind (squares mean rest) (λ ss, Ok (s :: ss)))
  end.

Definition _calculate_volatility (prices : list float) : result number :=
  if (length prices <? 2)%nat then Ok (Float 0)
  else
    mean ← float_truediv_int (float_sum prices) (length prices);
    deviations ← squares mean prices;
    variance ← float_truediv_int (float_sum deviations) (length prices);
    float_pow variance 0.5.

(** What [get_price_statistics] does with the candles it obtained.  The
    entries of the returned dictionary are evaluated in the order in
    which they are written. *)
Definition statistics_of (request : HistoricalDataRequest)
    (ohlcv_data : list OHLCVData) : result PriceStatistics :=
  if negb (truthy_list ohlcv_data)
  then Raise (ValueError "No data available for statistics")
  else
    let prices := close <$> ohlcv_data in
    let volumes := cd_volume <$> ohlcv_data in
    current ← last_item prices;
    highest ← max prices;
    lowest ← min prices;
    average ← float_truediv_int (float_sum prices) (length prices);
    first ← first_item prices;
    ratio ← float_truediv (current - first) first;
    average_vol ← float_truediv_int (float_sum volumes) (length volumes);
    vol ← _calculate_volatility prices;
    first_candle ← first_item ohlcv_data;
    last_candle ← last_item ohlcv_data;
    Ok (mkPriceStatistics
          (symbol (base request))
          (Exchange_value (exchange (base request)))
          (TimeFrame_value (timeframe request))
          (length ohlcv_data)
          current highest lowest average
          (current - first)%float
          (ratio * 100)%float
          (float_sum volumes) average_vol vol
          (isoformat (cd_timestamp first_candle))
          (isoformat (cd_timestamp last_candle))).

Definition get_price_statistics (request : HistoricalDataRequest)
  : M PriceStatistics :=
  ohlcv_data ← get_ohlcv request;
  lift (statistics_of request ohlcv_data).

(** ** The server: utility methods *)

Record ServerStatus : Type := mkServerStatus {
  status : string;
  uptime_seconds : Z;
  total_requests : nat;
  total_errors : nat;
  error_rate : R;
  ticker_size : nat;
  ohlcv_size : nat;
  orderbook_size : nat;
  supported_exchanges : list string;
  supported_timeframes : list string;
}.

Definition get_server_status : M ServerStatus :=
  λ w,
    let s := server w in
    let uptime := (now w - start_time s)%Z in
    match div (INR (error_count s)) (INR (Nat.max (request_count s) 1)) with
    | Raise e => (Raise e, w)
    | Ok rate =>
        let '(n1, c1) := len (ticker_cache (cache s)) (now w) in
        let '(n2, c2) := len (ohlcv_cache (cache s)) (now w) in
        let '(n3, c3) := len (orderbook_cache (cache s)) (now w) in
        (Ok (mkServerStatus "running" uptime (request_count s) (error_count s)
               rate n1 n2 n3 (Exchange_value <$> all_Exchange)
               (TimeFrame_value <$> all_TimeFrame)),
         mkWorld (mkCryptoMCPServer (mkCacheManager c1 c2 c3)
                    (exchange_manager s) (request_count s) (error_count s)
                    (start_time s))
                 (now w) (calls w) (upstream w))
    end.

Record ExchangeInfo : Type := mkExchangeInfo {
  info_id : string;
  info_name : string;
  info_countries : list string;
  has_ticker : bool;
  has_ohlcv : bool;
  has_orderbook : bool;
  has_trades : bool;
  info_timeframes : list string;
  markets_count : nat;
  rate_limit : Z;
}.

Definition get_exchange_info (exchange_name : string) : M ExchangeInfo :=
  try_except
    (ref ← get_exchange exchange_name;
     load_markets exchange_name;;
     h ← handle_of ref;
     let has k := default false (assoc k (h_has h)) in
     ret (mkExchangeInfo (h_id h) (h_name h) (h_countries h)
            (has "fetchTicker") (has "fetchOHLCV") (has "fetchOrderBook")
            (has "fetchTrades")
            (default [] (h_timeframes h))
            (if markets_missing h then 0 else length (default [] (markets h)))
            (h_rateLimit h)))
    (λ e, raise (RuntimeError ("Failed to get exchange info: " +:+ str_exn e))).

Definition search_symbols (query exchange_name : string) : M (list string) :=
  try_except
    (ref ← get_exchange exchange_name;
     load_markets exchange_name;;
     h ← handle_of ref;
     let query_upper := upper query in
     catalog ← match markets h with
               | Some c => ret c
               | None => raise (AttributeError
                           "'NoneType' object has no attribute 'keys'")
               end;
     let matching_symbols :=
       List.filter (λ symbol, str_in query_upper symbol) (keys catalog) in
     ret (take 50 (sorted String.leb matching_symbols)))
    (λ e, raise (RuntimeError ("Failed to search symbols: " +:+ str_exn e))).

Definition clear_cache : M () :=
  with_server (λ s, mkCryptoMCPServer (CacheManager_clear_all (cache s))
                      (exchange_manager s) (request_count s) (error_count s)
                      (start_time s)).

(** ** Runs of the engine *)

Inductive Op : Type :=
| OpGetTicker (request : MarketDataRequest)
| OpGetOrderbook (request : MarketDataRequest) (limit : Z)
| OpGetOHLCV (request : HistoricalDataRequest)
| OpGetMultiExchangeTicker (symbol : string) (exchanges : option (list Exchange))
| OpGetPriceStatistics (request : HistoricalDataRequest)
| OpGetServerStatus
| OpGetExchangeInfo (exchange_name : string)
| OpSearchSymbols (query exchange_name : string)
| OpClearCache
| OpSleep (seconds : nat).          (* time passing between two calls *)

Definition sleep (seconds : nat) (w : World) : World :=
  mkWorld (server w) (now w + Z.of_nat seconds)%Z (calls w) (upstream w).

Definition run_op (op : Op) (w : World) : World :=
  match op with
  | OpGetTicker r => (get_ticker r w).2
  | OpGetOrderbook r l => (get_orderbook r l w).2
  | OpGetOHLCV r => (get_ohlcv r w).2
  | OpGetMultiExchangeTicker s es => (get_multi_exchange_ticker s es w).2
  | OpGetPriceStatistics r => (get_price_statistics r w).2
  | OpGetServerStatus => (get_server_status w).2
  | OpGetExchangeInfo n => (get_exchange_info n w).2
  | OpSearchSymbols q n => (search_symbols q n w).2
  | OpClearCache => (clear_cache w).2
  | OpSleep n => sleep n w
  end.

Definition run_ops (ops : list Op) (w : World) : World :=
  foldl (λ w op, run_op op w) w ops.

(** The world right after [CryptoMCPServer()] was built at time [t]. *)
Definition initial_world (construct : Exchange → result Handle)
    (t : time) (up : Upstream) : World :=
  mkWorld (CryptoMCPServer_init construct t) t [] up.

End WithExternals.

(** ** Vocabulary of the specification

    The notions in which the properties of the server are stated. *)

Import CacheTools.

(** Number of occurrences of a character: the separators of a symbol. *)
Fixpoint count_char (c : ascii) (s : string) : nat :=
  match s with
  | EmptyString => 0
  | String a s' => (if decide (a = c) then 1 else 0) + count_char c s'
  end.

(** A parameter map in which the value of one parameter was changed. *)
Definition set_value (k : string) (v : value) (kwargs : list (string * value))
  : list (string * value) :=
  (λ kv, if decide (kv.1 = k) then (k, v) else kv) <$> kwargs.

Definition item_le : relation (string * value) := λ p q, item_leb p q.

(** What [join] puts before and after one of the joined parts. *)
Fixpoint before (sep : string) (l : list string) : string :=
  match l with
  | [] => ""
  | x :: l' => x +:+ sep +:+ before sep l'
  end.

Fixpoint after (sep : string) (l : list string) : string :=
  match l with
  | [] => ""
  | x :: l' => sep +:+ x +:+ after sep l'
  end.

(** Decidable form of [expires_soonest]. *)
Definition expires_soonestb {V} (c : TTLCache V) (k : string) : bool :=
  match assoc k (links c) with
  | Some (_, e) => forallb (λ x, (e <=? x.2.2)%Z) (links c)
  | None => false
  end.

(** The order of use is the order of assignment: no entry was read after
    a later one was written. *)
Definition in_order_of_expiry {V} (c : TTLCache V) : Prop :=
  StronglySorted (λ x y, x.2.2 ≤ y.2.2)%Z (links c).

(** A computation leaves a component of the world untouched. *)
Definition preserves `{Externals} {A X} (π : World → X) (m : M A) : Prop :=
  ∀ w, π (m w).2 = π w.

Definition counters `{Externals} (w : World) : nat * nat :=
  (request_count (server w), error_count (server w)).

Definition caches `{Externals} (w : World) : CacheManager := cache (server w).

Definition orderbook_of `{Externals} (w : World) : TTLCache OrderBookData :=
  orderbook_cache (cache (server w)).

Definition orderbook_empty `{Externals} (w : World) : Prop :=
  orderbook_of w = new 500 5%Z.

(** A call that counts itself once, and its failure once. *)
Definition counted `{Externals} {A} (m : M A) : Prop :=
  ∀ w, request_count (server (m w).2) = request_count (server w) + 1
       ∧ error_count (server (m w).2)
         = error_count (server w) + (if is_ok (m w).1 then 0 else 1).

(** Single-exchange read operations, and runs of them with pauses. *)
Inductive ReadOp `{Externals} : Type :=
| ReadTicker (request : MarketDataRequest)
| ReadOrderbook (request : MarketDataRequest) (limit : Z)
| ReadOHLCV (request : HistoricalDataRequest).

Definition run_read `{Externals} (op : ReadOp) (w : World) : bool * World :=
  match op with
  | ReadTicker r => let '(o, w') := get_ticker r w in (is_ok o, w')
  | ReadOrderbook r l => let '(o, w') := get_orderbook r l w in (is_ok o, w')
  | ReadOHLCV r => let '(o, w') := get_ohlcv r w in (is_ok o, w')
  end.

(** Runs the operations in turn, each after a pause; returns the number
    of failed calls and the final world. *)
Fixpoint run_reads `{Externals} (ops : list (nat * ReadOp)) (w : World)
  : nat * World :=
  match ops with
  | [] => (0, w)
  | (pause, op) :: ops' =>
      let '(ok, w1) := run_read op (sleep pause w) in
      let '(failures, w2) := run_reads ops' w1 in
      ((if ok then 0 else 1) + failures, w2)
  end.

(** The sub-queries of a fan-out and their outcomes: one [get_ticker]
    per request, in the order of the requests. *)
Fixpoint sub_query_outcomes `{Externals} (requests : list MarketDataRequest)
    (w : World) : list (result TickerData) * World :=
  match requests with
  | [] => ([], w)
  | r :: rs =>
      let '(o, w1) := get_ticker r w in
      let '(os, w2) := sub_query_outcomes rs w1 in
      (o :: os, w2)
  end.

Definition to_option {A} (r : result A) : option A :=
  match r with Ok a => Some a | Raise _ => None end.

(** The calls that the read paths send upstream. *)
Definition ticker_call (request : MarketDataRequest) : Call :=
  FetchTicker (Exchange_value (exchange request)) (symbol request).

Definition orderbook_call (request : MarketDataRequest) (limit : Z) : Call :=
  FetchOrderBook (Exchange_value (exchange request)) (symbol request) limit.

Definition ohlcv_call `{Externals} (request : HistoricalDataRequest) : Call :=
  FetchOHLCV (Exchange_value (exchange (base request)))
    (symbol (base request)) (TimeFrame_value (timeframe request))
    (match since request with
     | Some dt => Some (int (timestamp dt * 1000)%R)
     | None => None
     end)
    (limit request).

(** The catalogue symbols that match a query. *)
Definition matching (query : string) (catalog : list (string * Market))
  : list string :=
  List.filter (λ symbol, str_in (upper query) symbol) (keys catalog).

(** The statistics, in the words of the specification, every operation
    being the one on floats: the mean is the sum divided by the number
    of items; the population standard deviation is the root of the mean
    of the squared deviations from the mean, the sample standard
    deviation divides by one less; a maximum is an item that no item
    exceeds, a minimum an item that no item goes below (among items that
    are numbers, the greatest and the least). *)
Definition mean `{Externals} (l : list float) : float :=
  (float_sum l / float_of_nat (length l))%float.

Definition squared_deviations `{Externals} (l : list float)
  : result (list float) :=
  squares (mean l) l.

Definition population_std `{Externals} (l : list float) : result number :=
  result_bind (squared_deviations l) (λ sq, float_pow (mean sq) 0.5).

Definition sample_std `{Externals} (l : list float) : result number :=
  result_bind (squared_deviations l) (λ sq,
    float_pow (float_sum sq / float_of_nat (length l - 1)) 0.5).

Definition is_max (m : float) (l : list float) : Prop :=
  m ∈ l ∧ ∀ x, x ∈ l → (m <? x)%float = false.

Definition is_min (m : float) (l : list float) : Prop :=
  m ∈ l ∧ ∀ x, x ∈ l → (x <? m)%float = false.

(** The state of a cache container that assignments and lookups made at
    non-decreasing readings of the clock maintain: [links] and [chain]
    hold the same entries with the same expiry times, each key once; the
    chain is in the order of expiry; no entry outlives the time to live
    counted from [t]; and the container is within its ceiling. *)
Definition well_formed {V} (c : TTLCache V) (t : time) : Prop :=
  NoDup (keys (links c))
  ∧ NoDup (keys (chain c))
  ∧ (∀ k e, (k, e) ∈ chain c ↔ ∃ v, (k, (v, e)) ∈ links c)
  ∧ StronglySorted (λ x y, x.2 ≤ y.2)%Z (chain c)
  ∧ Forall (λ x, x.2 ≤ t + ttl c)%Z (chain c)
  ∧ currsize c ≤ maxsize c.

(** No entry of the container has expired at time [t]. *)
Definition all_alive {V} (c : TTLCache V) (t : time) : Prop :=
  Forall (λ x, t < x.2)%Z (chain c).

(** A computation maintains an invariant of the world. *)
Definition keeps `{Externals} {A} (P : World → Prop) (m : M A) : Prop :=
  ∀ w, P w → P (m w).2.

(** The upstream calls a computation makes are, in this order, some of
    the calls of [allowed]. *)
Definition emits `{Externals} {A} (allowed : list Call) (m : M A) : Prop :=
  ∀ w, ∃ extra, calls (m w).2 = calls w ++ extra ∧ sublist extra allowed.

(** The invariant of the two caches in use: they are well formed and
    configured as [CacheManager.__init__] left them, and the clock has not
    gone back behind the start of the server. *)
Definition caches_sound `{Externals} (w : World) : Prop :=
  (start_time (server w) ≤ now w)%Z
  ∧ well_formed (ticker_cache (caches w)) (now w)
  ∧ maxsize (ticker_cache (caches w)) = 1000
  ∧ ttl (ticker_cache (caches w)) = 10%Z
  ∧ well_formed (ohlcv_cache (caches w)) (now w)
  ∧ maxsize (ohlcv_cache (caches w)) = 500
  ∧ ttl (ohlcv_cache (caches w)) = 60%Z.

(** Errors are counted among the requests. *)
Definition errors_within_requests `{Externals} (w : World) : Prop :=
  error_count (server w) ≤ request_count (server w).

(** The worlds a server can be in: those reached from its construction
    by a run of engine operations and pauses. *)
Definition reachable `{Externals} (w : World) : Prop :=
  ∃ construct t up ops, w = run_ops ops (initial_world construct t up).

(** The world after an upstream call [c] that took its time. *)
Definition called `{Externals} (c : Call) (w : World) : World :=
  mkWorld (server w) (now w + Z.of_nat (latency (upstream w) (calls w) c))%Z
          (calls w ++ [c]) (upstream w).

(** The world after the request counter, or the error counter, was
    incremented. *)
Definition requested `{Externals} (w : World) : World :=
  (incr_request_count w).2.

Definition errored `{Externals} (w : World) : World :=
  (incr_error_count w).2.

(** What the invariant of the caches reads. *)
Definition cache_view `{Externals} (w : World)
  : TTLCache TickerData * TTLCache (list OHLCVData) * time * time :=
  (ticker_cache (caches w), ohlcv_cache (caches w), now w,
   start_time (server w)).

(** The exchange of a request is registered and its catalogue loaded. *)
Definition ready `{Externals} (exchange_id : string) (w : World) : Prop :=
  ∃ h, exchanges (exchange_manager (server w)) !! exchange_id = Some h
       ∧ markets_missing h = false.

(** ** Worked scenarios

    An instance to run the code on: cache keys are kept undigested and a
    [datetime] is its number of seconds; [sum] adds from left to right,
    and the C library's [pow] is correctly rounded at the two exponents
    the module uses, 2 and 0.5 (it is not asked for another one). *)

Definition plain_externals : Externals :=
  {| md5_hexdigest := λ s, s;
     datetime := R;
     fromtimestamp := Ok;
     timestamp := λ x, x;
     isoformat := λ _, "";
     float_sum := foldl PrimFloat.add 0%float;
     libm_pow := λ x y,
       if (y =? 2)%float then (x * x)%float
       else if (y =? 0.5)%float then PrimFloat.sqrt x
       else nan;
     strerror_ERANGE := "(34, 'Numerical result out of range')" |}.

Section Scenarios.
Local Existing Instance plain_externals.

(** The OHLCV category filled to its ceiling: ["k0"] is written at time 0
    and the other 499 keys at time 1; then ["k0"] is read at time 2; then
    a new key is written at time 3. *)
Definition mk_key (i : nat) : string := "k" +:+ pretty i.

Definition filled : TTLCache (list OHLCVData) :=
  foldl (λ c i, (setitem c (mk_key i) []
                   (if decide (i = 0) then 0%Z else 1%Z)).2)
        (ohlcv_cache CacheManager_init) (seq 0 500).

Definition filled_then_read : TTLCache (list OHLCVData) :=
  (get filled (mk_key 0) 2%Z).2.

Definition after_insert : TTLCache (list OHLCVData) :=
  (setitem filled_then_read "new" [] 3%Z).2.

(** A server with all five exchanges, their catalogues loaded.  Kraken is
    unreachable; order books are not available; the candles of ETH/USDT
    start with a close of zero, those of SOL/USDT rise, and no candles
    exist for anything else. *)
Definition demo_handle (e : Exchange) : Handle :=
  mkHandle (Exchange_value e) (Exchange_value e) [] [("fetchTicker", true)]
    (Some ["1h"; "1d"]) 1000%Z
    (Some [("BTC/USDT", mkMarket "BTCUSDT"); ("ETH/USDT", mkMarket "ETHUSDT")]).

Definition demo_ticker : RawTicker :=
  mkRawTicker (Some 0%Z) (Some 50000%R) None None (Some 51000%R)
    (Some 49000%R) (Some 1000%R) None.

Definition zero_first : list RawCandle :=
  [mkRawCandle 0 0 0 0 0 1; mkRawCandle 3600000 1 1 1 1 1].

Definition rising : list RawCandle :=
  [mkRawCandle 0 1 1 1 1 1; mkRawCandle 3600000 2 2 2 2 3].

Definition demo_upstream : Upstream :=
  mkUpstream
    (λ _ _, Ok [("BTC/USDT", mkMarket "BTCUSDT")])
    (λ _ ex _, if String.eqb ex "kraken"
               then Raise (NetworkError "Connection failed")
               else Ok demo_ticker)
    (λ _ _ _ _, Raise (ExchangeError "not available"))
    (λ _ _ sym _ _ _, if String.eqb sym "ETH/USDT" then Ok zero_first
                      else if String.eqb sym "SOL/USDT" then Ok rising
                      else Ok [])
    (λ _ _, 1).

Definition demo_world : World :=
  initial_world (λ e, Ok (demo_handle e)) 0%Z demo_upstream.

Definition btc_binance : MarketDataRequest :=
  mkMarketDataRequest "BTC/USDT" BINANCE.

Definition kraken_btc : MarketDataRequest :=
  mkMarketDataRequest "BTC/USDT" KRAKEN.

Definition btc_1h : HistoricalDataRequest :=
  mkHistoricalDataRequest btc_binance H1 100 None.

Definition eth_1h : HistoricalDataRequest :=
  mkHistoricalDataRequest (mkMarketDataRequest "ETH/USDT" BINANCE) H1 100 None.

Definition sol_1h : HistoricalDataRequest :=
  mkHistoricalDataRequest (mkMarketDataRequest "SOL/USDT" BINANCE) H1 100 None.

Definition zero_first_candles : list OHLCVData :=
  [mkOHLCVData (0 / 1000)%R 0 0 0 0 1;
   mkOHLCVData (3600000 / 1000)%R 1 1 1 1 1].

Definition rising_first : OHLCVData := mkOHLCVData (0 / 1000)%R 1 1 1 1 1.

Definition rising_second : OHLCVData :=
  mkOHLCVData (3600000 / 1000)%R 2 2 2 2 3.

Definition rising_candles : list OHLCVData := [rising_first; rising_second].

(** Candles with given closes: those of the worked example of the
    specification; three equal closes that are not representable
    exactly; and two closes whose squared deviations are out of range. *)
Definition candle_at (price : float) : OHLCVData :=
  mkOHLCVData 0%R price price price price 1.

Definition example_candles : list OHLCVData :=
  candle_at <$> [100; 105; 103; 107; 104]%float.

Definition flat_candles : list OHLCVData :=
  candle_at <$> [0.1; 0.1; 0.1]%float.

Definition huge_candles : list OHLCVData :=
  candle_at <$> [1e200; 3e200]%float.

(** The world after a first request for the candles of BTC/USDT. *)
Definition after_first_request : World := (get_ohlcv btc_1h demo_world).2.

(** The world after a first request for the ticker of BTC/USDT. *)
Definition after_first_ticker : World := (get_ticker btc_binance demo_world).2.

(** The ticker of BTC/USDT on Binance, as converted from [demo_ticker]:
    the reply has neither bid nor ask. *)
Definition demo_ticker_data : TickerData :=
  mkTickerData "BTC/USDT" "binance" (0 / 1000)%R 50000 50000 50000
    51000 49000 1000 None.

(** The candles of SOL/USDT asked again, from a later start. *)
Definition sol_1h_since : HistoricalDataRequest :=
  mkHistoricalDataRequest (mkMarketDataRequest "SOL/USDT" BINANCE) H1 100
    (Some 3600%R).

(** The ticker of BTC/USDT on another exchange. *)
Definition btc_huobi : MarketDataRequest :=
  mkMarketDataRequest "BTC/USDT" HUOBI.

(** A server whose exchanges have no catalogue yet. *)
Definition fresh_handle (e : Exchange) : Handle :=
  mkHandle (Exchange_value e) (Exchange_value e) [] [("fetchTicker", true)]
    (Some ["1h"; "1d"]) 1000%Z None.

Definition fresh_world : World :=
  initial_world (λ e, Ok (fresh_handle e)) 0%Z demo_upstream.

(** A server on which the constructor of Kraken failed. *)
Definition construct_without_kraken (e : Exchange) : result Handle :=
  match e with
  | KRAKEN => Raise (OtherError "kraken is not available")
  | _ => Ok (demo_handle e)
  end.

Definition world_without_kraken : World :=
  initial_world construct_without_kraken 0%Z demo_upstream.

(** An upstream with an order book of three levels a side. *)
Definition demo_book : RawOrderBook :=
  mkRawOrderBook (Some 0%Z)
    [[50000; 1]; [49999; 2]; [49998; 3]]%R
    [[50001; 1]; [50002; 2]; [50003; 3]]%R.

Definition book_upstream : Upstream :=
  mkUpstream
    (λ _ _, Ok [("BTC/USDT", mkMarket "BTCUSDT")])
    (λ _ _ _, Ok demo_ticker)
    (λ _ _ _ _, Ok demo_book)
    (λ _ _ _ _ _ _, Ok [])
    (λ _ _, 1).

Definition book_world : World :=
  initial_world (λ e, Ok (demo_handle e)) 0%Z book_upstream.

(** An upstream whose replies carry no timestamp. *)
Definition undated_ticker : RawTicker :=
  mkRawTicker None (Some 50000%R) None None (Some 51000%R)
    (Some 49000%R) (Some 1000%R) None.

Definition undated_book : RawOrderBook := mkRawOrderBook None [] [].

Definition undated_upstream : Upstream :=
  mkUpstream
    (λ _ _, Ok [("BTC/USDT", mkMarket "BTCUSDT")])
    (λ _ _ _, Ok undated_ticker)
    (λ _ _ _ _, Ok undated_book)
    (λ _ _ _ _ _ _, Ok [])
    (λ _ _, 1).

Definition undated_world : World :=
  initial_world (λ e, Ok (demo_handle e)) 0%Z undated_upstream.

(** An exchange that has no candles when it is first asked, and cannot
    be reached afterwards; and the world after a first request for the
    candles of BTC/USDT: the empty list is in the cache. *)
Definition flaky_upstream : Upstream :=
  mkUpstream
    (λ _ _, Ok [("BTC/USDT", mkMarket "BTCUSDT")])
    (λ _ _ _, Ok demo_ticker)
    (λ _ _ _ _, Raise (ExchangeError "not available"))
    (λ hist _ _ _ _ _, match hist with
                       | [] => Ok []
                       | _ :: _ => Raise (NetworkError "Connection failed")
                       end)
    (λ _ _, 1).

Definition flaky_world : World :=
  initial_world (λ e, Ok (demo_handle e)) 0%Z flaky_upstream.

Definition after_empty_reply : World := (get_ohlcv btc_1h flaky_world).2.

(** The parameters of an OHLCV key. *)
Definition ohlcv_parameters : list (string * value) :=
  [("exchange", VStr "binance"); ("symbol", VStr "BTC/USDT");
   ("timeframe", VStr "1h"); ("limit", VInt 100)].

End Scenarios.

(** * Properties *)

(** ** Sorting *)

Section SortedFacts.
Context {A : Type} (leb : A → A → bool).
Let ord : relation A := λ x y, leb x y.

Lemma insert_sorted_Permutation x l : insert_sorted leb x l ≡ₚ x :: l.
Proof.
  induction l as [|y l IH]; simpl; [done|].
  destruct (leb x y); [done|]. rewrite IH. apply Permutation_swap.
Qed.

Lemma sorted_Permutation l : sorted leb l ≡ₚ l.
Proof.
  induction l as [|x l IH]; simpl; [done|].
  rewrite insert_sorted_Permutation. by f_equiv.
Qed.

Context `{!Transitive ord, !Total ord}.

Lemma insert_sorted_StronglySorted x l :
  StronglySorted ord l → StronglySorted ord (insert_sorted leb x l).
Proof.
  induction 1 as [|y l Hl IH Hy]; simpl.
  { repeat constructor. }
  destruct (leb x y) eqn:Hxy.
  - constructor; [by constructor|].
    constructor; [by unfold ord; rewrite Hxy|].
    eapply Forall_impl; [exact Hy|]. intros z Hz. trans y; [|done].
    by unfold ord; rewrite Hxy.
  - constructor; [done|].
    rewrite insert_sorted_Permutation. constructor; [|done].
    destruct (total ord x y) as [Hc|Hc]; [|done].
    unfold ord in Hc. by rewrite Hxy in Hc.
Qed.

Lemma sorted_StronglySorted l : StronglySorted ord (sorted leb l).
Proof.
  induction l as [|x l IH]; simpl; [constructor|].
  by apply insert_sorted_StronglySorted.
Qed.
End SortedFacts.

(** ** Strings *)

Lemma string_app_cons a s t : String a s +:+ t = String a (s +:+ t).
Proof. reflexivity. Qed.

Lemma string_app_nil_l s : "" +:+ s = s.
Proof. reflexivity. Qed.

Lemma string_app_nil_r s : s +:+ "" = s.
Proof. induction s as [|a s IH]; [done|]. by rewrite string_app_cons, IH. Qed.

Lemma string_app_assoc s1 s2 s3 : (s1 +:+ s2) +:+ s3 = s1 +:+ (s2 +:+ s3).
Proof.
  induction s1 as [|a s1 IH]; [done|]. by rewrite !string_app_cons, IH.
Qed.

Lemma string_length_app s1 s2 :
  String.length (s1 +:+ s2) = String.length s1 + String.length s2.
Proof.
  induction s1 as [|a s1 IH]; [done|].
  rewrite string_app_cons. simpl. by rewrite IH.
Qed.

Lemma string_app_inv_tail s1 s2 s : s1 +:+ s = s2 +:+ s → s1 = s2.
Proof.
  revert s2. induction s1 as [|a s1 IH]; intros [|b s2] Heq; [done|..].
  - apply (f_equal String.length) in Heq.
    rewrite string_app_nil_l, string_length_app in Heq. simpl in Heq. lia.
  - apply (f_equal String.length) in Heq.
    rewrite string_app_nil_l, string_length_app in Heq. simpl in Heq. lia.
  - rewrite !string_app_cons in Heq. injection Heq as -> Heq.
    f_equal. by apply IH.
Qed.

Lemma prefix_spec n h : String.prefix n h = true ↔ ∃ post, h = n +:+ post.
Proof.
  revert h. induction n as [|a n IH]; intros h.
  - destruct h; cbn; split; eauto.
  - destruct h as [|b h]; cbn.
    + split; [done|]. by intros [post ?].
    + destruct (ascii_dec a b) as [->|Hne].
      * rewrite IH. split; intros [post Hp]; exists post; [by rewrite Hp|].
        by injection Hp.
      * split; [done|]. intros [post Hp]. by injection Hp as -> _.
Qed.

(** [str_in] is the substring test. *)
Lemma str_in_spec n h :
  str_in n h = true ↔ ∃ pre post, h = pre +:+ n +:+ post.
Proof.
  induction h as [|b h IH]; cbn [str_in].
  - rewrite orb_false_r, prefix_spec. split.
    + intros [post ->]. by exists "", post.
    + intros [[|??] [post Hp]]; [by exists post|done].
  - rewrite orb_true_iff, prefix_spec, IH. split.
    + intros [[post ->]|(pre & post & ->)]; [by exists "", post|].
      by exists (String b pre), post.
    + intros [[|a pre] [post Hp]]; [left; by exists post|right].
      cbn in Hp. injection Hp as -> ->. by exists pre, post.
Qed.

Lemma str_in_char c s : str_in (String c "") s = true ↔ 1 ≤ count_char c s.
Proof.
  induction s as [|a s IH]; cbn [str_in count_char].
  - cbn. split; [done|lia].
  - rewrite orb_true_iff, IH. cbn. destruct (ascii_dec c a) as [->|Hne].
    + rewrite decide_True by done.
      destruct s; split; intros; try lia; by left.
    + rewrite decide_False by done.
      split; [intros [?|?]; [done|lia]|]. intros; right; lia.
Qed.

(** ** Request validation *)

(** C8 (as amended).  Constructing a [MarketDataRequest] from a string [s]
    succeeds exactly when [s] contains at least one ['/'], and the stored
    symbol is then [s] in upper case. *)
Theorem symbol_validation (s : string) (e : Exchange) (r : MarketDataRequest) :
  MarketDataRequest_init s e = Ok r
  ↔ 1 ≤ count_char "/" s ∧ r = mkMarketDataRequest (upper s) e.
Proof.
  unfold MarketDataRequest_init, validate_symbol.
  rewrite <- str_in_char.
  destruct (str_in "/" s); simpl; split.
  - intros [= <-]. done.
  - intros [_ ->]. done.
  - done.
  - by intros [? _].
Qed.

Example symbol_normalized :
  MarketDataRequest_init "btc/usdt" BINANCE
  = Ok (mkMarketDataRequest "BTC/USDT" BINANCE).
Proof. reflexivity. Qed.

Example symbol_without_separator :
  MarketDataRequest_init "BTCUSDT" BINANCE
  = Raise (ValidationError
             "Symbol must be in format BASE/QUOTE (e.g., BTC/USDT)").
Proof. reflexivity. Qed.

(** C8, as stated, fails: a string with two separators is accepted. *)
Lemma two_separators_accepted :
  ¬ (is_ok (MarketDataRequest_init "A/B/C" BINANCE) = true
     ↔ count_char "/" "A/B/C" = 1).
Proof. vm_compute. intros [Hacc _]. by specialize (Hacc eq_refl). Qed.

Lemma MarketDataRequest_init_valid symbol e :
  str_in "/" symbol = true →
  MarketDataRequest_init symbol e = Ok (mkMarketDataRequest (upper symbol) e).
Proof.
  intros Hs. unfold MarketDataRequest_init, validate_symbol. by rewrite Hs.
Qed.

Lemma MarketDataRequest_init_invalid symbol e :
  str_in "/" symbol = false →
  MarketDataRequest_init symbol e
  = Raise (ValidationError
             "Symbol must be in format BASE/QUOTE (e.g., BTC/USDT)").
Proof.
  intros Hs. unfold MarketDataRequest_init, validate_symbol. by rewrite Hs.
Qed.

(** ** Cache keys *)

Section CacheKeys.
Context `{Externals}.

Global Instance item_le_trans : Transitive item_le.
Proof.
  intros p q r. unfold item_le, item_leb. apply (transitivity (R:=String.le)).
Qed.

Global Instance item_le_total : Total item_le.
Proof. intros p q. unfold item_le, item_leb. apply (total String.le). Qed.

Lemma NoDup_fst_inj {A} (l : list (string * A)) p q :
  NoDup l.*1 → p ∈ l → q ∈ l → p.1 = q.1 → p = q.
Proof.
  induction l as [|x l IH]; simpl; intros Hnd Hp Hq Heq.
  { by apply elem_of_nil in Hp. }
  apply NoDup_cons in Hnd as [Hx Hnd].
  apply elem_of_cons in Hp as [->|Hp]; apply elem_of_cons in Hq as [->|Hq];
    [done|..|by apply IH].
  - destruct Hx. rewrite Heq. by apply list_elem_of_fmap_2.
  - destruct Hx. rewrite <- Heq. by apply list_elem_of_fmap_2.
Qed.

(** The order in which the parameters were passed is forgotten by
    [sorted]. *)
Lemma sorted_items_Permutation (kw1 kw2 : list (string * value)) :
  NoDup kw1.*1 → kw1 ≡ₚ kw2 →
  sorted item_leb kw1 = sorted item_leb kw2.
Proof.
  intros Hnd Hperm.
  apply (StronglySorted_unique_strong item_le).
  - intros p q Hp Hq Hpq Hqp.
    rewrite sorted_Permutation in Hp.
    rewrite sorted_Permutation, <- Hperm in Hq.
    apply (NoDup_fst_inj kw1); [done..|].
    apply (anti_symm String.le); [exact Hpq|exact Hqp].
  - apply (sorted_StronglySorted item_leb).
  - apply (sorted_StronglySorted item_leb).
  - by rewrite !sorted_Permutation.
Qed.

Lemma insert_sorted_set_value k v x l :
  insert_sorted item_leb
    (if decide (x.1 = k) then (k, v) else x) (set_value k v l)
  = set_value k v (insert_sorted item_leb x l).
Proof.
  induction l as [|y l IH]; simpl; [done|].
  assert (∀ z : string * value,
            (if decide (z.1 = k) then (k, v) else z).1 = z.1) as Hfst.
  { intros z. destruct (decide (z.1 = k)) as [Heq|]; [by rewrite <- Heq|done]. }
  unfold item_leb at 1 3. rewrite !Hfst.
  destruct (String.leb x.1 y.1); simpl; [done|].
  f_equal. apply IH.
Qed.

Lemma sorted_set_value k v l :
  sorted item_leb (set_value k v l) = set_value k v (sorted item_leb l).
Proof.
  induction l as [|x l IH]; simpl; [done|].
  rewrite IH. apply insert_sorted_set_value.
Qed.

Lemma join_cons sep x l : join sep (x :: l) = x +:+ after sep l.
Proof.
  revert x. induction l as [|y l IH]; intros x; simpl.
  - by rewrite string_app_nil_r.
  - unfold join in *. simpl in *. by rewrite IH.
Qed.

Lemma join_cons_cons sep x y l :
  join sep (x :: y :: l) = x +:+ sep +:+ join sep (y :: l).
Proof. reflexivity. Qed.

Lemma join_middle sep l1 x l2 :
  join sep (l1 ++ x :: l2) = before sep l1 +:+ x +:+ after sep l2.
Proof.
  induction l1 as [|y l1 IH].
  { change ([] ++ x :: l2) with (x :: l2). by rewrite join_cons. }
  change ((y :: l1) ++ x :: l2) with (y :: (l1 ++ x :: l2)).
  destruct (l1 ++ x :: l2) as [|z l'] eqn:E.
  { by destruct l1. }
  rewrite join_cons_cons, IH. simpl. by rewrite !string_app_assoc.
Qed.

(** Two values of one type that are rendered alike are equal. *)
Lemma render_inj (v w : value) :
  same_type v w → render v = render w → v = w.
Proof.
  destruct v, w; simpl; try done; intros _ Heq; [by f_equal|].
  f_equal. by apply (inj pretty).
Qed.

Lemma set_value_absent k v (l : list (string * value)) :
  k ∉ l.*1 → set_value k v l = l.
Proof.
  induction l as [|[k' x] l IH]; simpl; [done|].
  intros Hnot. apply not_elem_of_cons in Hnot as [? ?].
  rewrite decide_False by done. f_equal. by apply IH.
Qed.

Lemma assoc_elem_of {X} k (x : X) (l : list (string * X)) :
  assoc k l = Some x → (k, x) ∈ l.
Proof.
  induction l as [|[k' y] l IH]; simpl; [done|].
  destruct (decide (k = k')) as [->|]; [intros [= ->]; left|right; auto].
Qed.

Lemma key_str_set_value prefix kw k v v' :
  NoDup kw.*1 → assoc k kw = Some v → render v ≠ render v' →
  key_str prefix (set_value k v' kw) ≠ key_str prefix kw.
Proof.
  intros Hnd Hk Hne Heq. apply Hne.
  unfold key_str in Heq. rewrite sorted_set_value in Heq.
  assert ((k, v) ∈ sorted item_leb kw) as Hin.
  { rewrite sorted_Permutation. by apply assoc_elem_of. }
  assert (NoDup (sorted item_leb kw).*1) as Hnd'.
  { by rewrite sorted_Permutation. }
  apply list_elem_of_split in Hin as (l1 & l2 & Hl). rewrite Hl in *.
  rewrite fmap_app, fmap_cons in Hnd'. simpl in Hnd'.
  apply NoDup_app in Hnd' as (_ & Hl1 & Hnd2).
  apply NoDup_cons in Hnd2 as [Hl2 _].
  unfold set_value in Heq. rewrite fmap_app, fmap_cons in Heq.
  fold (set_value k v' l1) in Heq. fold (set_value k v' l2) in Heq.
  rewrite !set_value_absent in Heq.
  2:{ done. }
  2:{ intros Hk1. apply (Hl1 k); [done|left]. }
  simpl in Heq. rewrite decide_True in Heq by done.
  rewrite !fmap_app, !fmap_cons, !join_middle in Heq. simpl in Heq.
  apply (inj (String.app _)) in Heq.
  apply (inj (String.app _)) in Heq.
  rewrite !string_app_assoc in Heq.
  apply (inj (String.app _)) in Heq.
  apply (inj (String.app _)) in Heq.
  apply string_app_inv_tail in Heq. done.
Qed.

(** C3 (as amended).  The cache key is the digest of the category name
    followed by the name=value pairs in the order of their names,
    whatever the order in which the parameters were passed: two
    parameter maps with the same pairs in any order of insertion give the
    same key.  Changing the value of a parameter to one that is written
    differently (as any other value of the same type is) changes the
    digested string, so that the keys can only be equal by a collision of
    the digest. *)
Theorem cache_key_deterministic :
  (∀ prefix kw,
     ∃ items, items ≡ₚ kw ∧ StronglySorted item_le items
              ∧ _generate_key prefix kw
                = md5_hexdigest
                    ((prefix +:+ ":") +:+
                     join ":" ((λ kv, kv.1 +:+ "=" +:+ render kv.2) <$> items)))
  ∧ (∀ prefix kw1 kw2,
       NoDup kw1.*1 → kw1 ≡ₚ kw2 →
       _generate_key prefix kw1 = _generate_key prefix kw2)
  ∧ (∀ prefix kw k v v',
       NoDup kw.*1 → assoc k kw = Some v → render v ≠ render v' →
       key_str prefix (set_value k v' kw) ≠ key_str prefix kw
       ∧ (_generate_key prefix (set_value k v' kw) = _generate_key prefix kw →
          ∃ x y, x ≠ y ∧ md5_hexdigest x = md5_hexdigest y))
  ∧ (∀ v v', same_type v v' → v ≠ v' → render v ≠ render v').
Proof.
  split.
  { intros prefix kw. exists (sorted item_leb kw).
    split; [apply sorted_Permutation|].
    split; [apply (sorted_StronglySorted item_leb)|done]. }
  split.
  { intros prefix kw1 kw2 Hnd Hperm. unfold _generate_key, key_str.
    by rewrite (sorted_items_Permutation kw1 kw2). }
  split.
  - intros prefix kw k v v' Hnd Hk Hne.
    pose proof (key_str_set_value prefix kw k v v' Hnd Hk Hne) as Hstr.
    split; [done|]. intros Hkey. eauto.
  - intros v v' Hty Hne Heq. apply Hne. by apply render_inj.
Qed.

End CacheKeys.

(** ** Running monadic code *)

Section MonadFacts.
Context `{Externals}.

Lemma mbind_unfold {A B} (m : M A) (k : A → M B) w :
  (m ≫= k) w = match m w with
               | (Ok a, w') => k a w'
               | (Raise e, w') => (Raise e, w')
               end.
Proof. reflexivity. Qed.

Lemma mbind_ok {A B} (m : M A) (k : A → M B) w a w' :
  m w = (Ok a, w') → (m ≫= k) w = k a w'.
Proof. intros Hm. by rewrite mbind_unfold, Hm. Qed.

Lemma try_except_ok {A} (m : M A) (h : exn → M A) w a w' :
  m w = (Ok a, w') → try_except m h w = (Ok a, w').
Proof. intros Hm. unfold try_except. by rewrite Hm. Qed.

Lemma for_each_cons {A B} (f : A → M B) x l :
  for_each f (x :: l) = (y ← f x; ys ← for_each f l; ret (y :: ys)).
Proof. reflexivity. Qed.

Lemma result_bind_ok {A B} (a : A) (k : A → result B) : (Ok a ≫= k) = k a.
Proof. reflexivity. Qed.

Lemma lower_Exchange_value e : lower (Exchange_value e) = Exchange_value e.
Proof. by destruct e. Qed.

Lemma get_exchange_registered name w h :
  exchanges (exchange_manager (server w)) !! lower name = Some h →
  get_exchange name w = (Ok (lower name), w).
Proof. intros Hreg. unfold get_exchange. by rewrite Hreg. Qed.

Lemma handle_of_registered ref w h :
  exchanges (exchange_manager (server w)) !! ref = Some h →
  handle_of ref w = (Ok h, w).
Proof. intros Hreg. unfold handle_of. by rewrite Hreg. Qed.

(** A loaded catalogue is not fetched again. *)
Lemma load_markets_loaded name w h :
  exchanges (exchange_manager (server w)) !! lower name = Some h →
  markets_missing h = false →
  load_markets name w = (Ok (), w).
Proof.
  intros Hreg Hm. unfold load_markets.
  erewrite mbind_ok by (by eapply get_exchange_registered).
  erewrite mbind_ok by (by eapply handle_of_registered).
  by rewrite Hm.
Qed.
End MonadFacts.

(** ** Symbol search *)

Section SymbolSearch.
Context `{Externals}.

Lemma search_symbols_loaded query exchange_name w h catalog :
  exchanges (exchange_manager (server w)) !! lower exchange_name = Some h →
  markets h = Some catalog → catalog ≠ [] →
  search_symbols query exchange_name w
  = (Ok (take 50 (sorted String.leb (matching query catalog))), w).
Proof.
  intros Hreg Hm Hne.
  assert (markets_missing h = false) as Hmm.
  { unfold markets_missing. rewrite Hm. by destruct catalog. }
  unfold search_symbols. apply try_except_ok.
  erewrite mbind_ok by (by eapply get_exchange_registered).
  erewrite mbind_ok by (by eapply load_markets_loaded).
  erewrite mbind_ok by (by eapply handle_of_registered).
  rewrite Hm. reflexivity.
Qed.

(** C10.  On an exchange whose catalogue is loaded (there is a non-empty
    [markets] dictionary), [search_symbols] returns, without touching the
    world, at most 50 symbols in ascending order; each of them is a
    catalogue symbol containing the upper-cased query, and they are the
    first ones in sorted order: the matching symbols left out are all
    greater or equal, and some are left out only when 50 were returned. *)
Theorem search_symbols_sorted_prefix query exchange_name w h catalog :
  exchanges (exchange_manager (server w)) !! lower exchange_name = Some h →
  markets h = Some catalog → catalog ≠ [] →
  ∃ result,
    search_symbols query exchange_name w = (Ok result, w)
    ∧ length result ≤ 50
    ∧ StronglySorted String.le result
    ∧ (∀ s, s ∈ result → s ∈ keys catalog ∧ str_in (upper query) s)
    ∧ ∃ rest,
        result ++ rest ≡ₚ matching query catalog
        ∧ (∀ x y, x ∈ result → y ∈ rest → String.le x y)
        ∧ (rest ≠ [] → length result = 50).
Proof.
  intros Hreg Hm Hne.
  eexists. split; [by eapply search_symbols_loaded|].
  set (l := sorted String.leb (matching query catalog)).
  assert (StronglySorted String.le l) as Hsorted.
  { apply (sorted_StronglySorted String.leb). }
  assert (l ≡ₚ matching query catalog) as Hperm by apply sorted_Permutation.
  rewrite <- (take_drop 50 l) in Hsorted.
  split; [rewrite length_take; lia|].
  split; [by eapply StronglySorted_app_1_l|].
  split.
  { intros s Hs. apply elem_of_take in Hs as (i & Hs & _).
    apply list_elem_of_lookup_2 in Hs. rewrite Hperm in Hs.
    unfold matching in Hs. apply list_elem_of_In, filter_In in Hs as [Hs1 Hs2].
    split; [by apply list_elem_of_In|]. by rewrite Hs2. }
  exists (drop 50 l). split; [by rewrite take_drop|]. split.
  - intros x y Hx Hy. by eapply StronglySorted_app_1_elem_of.
  - intros Hrest. rewrite length_take.
    destruct (decide (length l ≤ 50)) as [Hle|]; [|lia].
    by rewrite (drop_ge l 50) in Hrest.
Qed.
End SymbolSearch.

(** ** The cache container *)

Section TTLCacheFacts.
Context {V : Type}.
Implicit Types (c : TTLCache V) (k : string) (t : time).

Lemma assoc_None {X} k (l : list (string * X)) :
  assoc k l = None ↔ k ∉ keys l.
Proof.
  induction l as [|[k' x] l IH]; simpl.
  - split; [intros _; apply not_elem_of_nil|done].
  - destruct (decide (k = k')) as [->|Hne].
    + split; [done|]. intros Hn. destruct Hn. left.
    + rewrite IH. unfold keys. simpl. rewrite not_elem_of_cons. tauto.
Qed.

Lemma remove_key_absent {X} k (l : list (string * X)) :
  k ∉ keys l → remove_key k l = l.
Proof.
  induction l as [|[k' x] l IH]; simpl; [done|].
  unfold keys. simpl. rewrite not_elem_of_cons. intros [Hne Hl].
  rewrite decide_False by done. f_equal. by apply IH.
Qed.

Lemma remove_key_snoc {X} k (x : X) (l : list (string * X)) :
  remove_key k (l ++ [(k, x)]) = remove_key k l.
Proof.
  induction l as [|[k' y] l IH]; simpl.
  - by rewrite decide_True.
  - destruct (decide (k = k')); [done|]. by rewrite IH.
Qed.

Lemma remove_key_removes {X} k (l : list (string * X)) :
  k ∉ keys (remove_key k l).
Proof.
  induction l as [|[k' y] l IH]; simpl; [apply not_elem_of_nil|].
  destruct (decide (k = k')); [done|].
  unfold keys. simpl. rewrite not_elem_of_cons. by split.
Qed.

Lemma assoc_snoc {X} k (x : X) (l : list (string * X)) :
  k ∉ keys l → assoc k (l ++ [(k, x)]) = Some x.
Proof.
  induction l as [|[k' y] l IH]; simpl.
  - by rewrite decide_True.
  - unfold keys. simpl. rewrite not_elem_of_cons. intros [Hne Hl].
    rewrite decide_False by done. by apply IH.
Qed.

Lemma length_remove_key {X} k (l : list (string * X)) :
  length (remove_key k l) ≤ length l.
Proof.
  induction l as [|[k' y] l IH]; simpl; [done|].
  destruct (decide (k = k')); simpl; lia.
Qed.

(** A live entry is returned, and becomes the most recently used. *)
Lemma get_hit c k t v e :
  assoc k (links c) = Some (v, e) → (t < e)%Z →
  get c k t = (Ok (Some v), move_to_end c k).
Proof.
  intros Hk Ht. unfold get, contains, getitem. rewrite Hk.
  by rewrite bool_decide_true.
Qed.

Lemma get_miss c k t :
  contains c k t = false → get c k t = (Ok None, c).
Proof. intros Hc. unfold get. by rewrite Hc. Qed.

(** [get] never raises: the membership test and the lookup read the
    clock at the same instant. *)
Lemma get_total c k t : ∃ o, (get c k t).1 = Ok o.
Proof.
  destruct (contains c k t) eqn:Hc.
  - unfold contains in Hc.
    destruct (assoc k (links c)) as [[v e]|] eqn:Hk; [|done].
    apply bool_decide_eq_true in Hc. erewrite get_hit by done. eauto.
  - rewrite get_miss by done. eauto.
Qed.

Lemma expire_walk_alive t ch (lnk : list (string * (V * time))) :
  Forall (λ x, t < x.2)%Z ch → expire_walk t ch lnk = (ch, lnk).
Proof.
  destruct 1 as [|[k e] ch Hk Hch]; simpl; [done|].
  by rewrite bool_decide_true.
Qed.

Lemma expire_alive c t :
  Forall (λ x, t < x.2)%Z (chain c) → expire c t = c.
Proof.
  intros Hch. unfold expire. rewrite expire_walk_alive by done. by destruct c.
Qed.

Lemma popitem_alive c t k0 v0 e0 rest :
  links c = (k0, (v0, e0)) :: rest → k0 ∉ keys rest → (t < e0)%Z →
  Forall (λ x, t < x.2)%Z (chain c) →
  popitem c t = (Ok (k0, v0),
                 mkTTLCache (maxsize c) (ttl c) rest (remove_key k0 (chain c))).
Proof.
  intros Hl Hk0 He Hch. unfold popitem. rewrite expire_alive by done.
  rewrite Hl. unfold pop, contains, getitem, move_to_end, delitem.
  rewrite Hl. simpl. rewrite !decide_True by done.
  rewrite !bool_decide_true by done. simpl.
  rewrite (remove_key_absent k0 rest) by done.
  rewrite assoc_snoc by done. rewrite bool_decide_true by done.
  by rewrite remove_key_snoc, remove_key_absent.
Qed.

Lemma currsize_expire c t : currsize (expire c t) ≤ currsize c.
Proof.
  unfold expire, currsize. destruct c as [m tl lnk ch]. simpl.
  revert lnk. induction ch as [|[k e] ch IH]; intros lnk; simpl; [done|].
  case_bool_decide; simpl; [done|].
  etrans; [apply IH|]. apply length_remove_key.
Qed.

Lemma maxsize_expire c t : maxsize (expire c t) = maxsize c.
Proof. unfold expire. by destruct (expire_walk _ _ _). Qed.

Lemma popitem_shrinks c t x c' :
  popitem c t = (Ok x, c') →
  currsize c' < currsize c ∧ maxsize c' = maxsize c.
Proof.
  unfold popitem. pose proof (currsize_expire c t) as Hle.
  pose proof (maxsize_expire c t) as Hmax.
  set (c1 := expire c t) in *. clearbody c1.
  destruct (links c1) as [|[k [v e]] rest] eqn:Hl; [done|].
  unfold pop, contains, getitem, move_to_end, delitem. rewrite Hl. simpl.
  rewrite !decide_True by done.
  case_bool_decide; [|done]. simpl.
  pose proof (remove_key_snoc k (v, e) (remove_key k rest)) as Hrw.
  destruct (assoc k (remove_key k rest ++ [(k, (v, e))])) as [[v' e']|];
    [|done].
  case_bool_decide; [|done]. intros [= <- <-]. simpl.
  unfold currsize in *. simpl. rewrite Hl in Hle. simpl in Hle.
  rewrite Hrw.
  pose proof (length_remove_key k (remove_key k rest)).
  pose proof (length_remove_key k rest). split; [lia|done].
Qed.

Lemma popitem_raises c t e c' :
  popitem c t = (Raise e, c') → ∃ k, e = KeyError k.
Proof.
  unfold popitem, pop, getitem, delitem, contains.
  destruct (links (expire c t)) as [|[k [v e0]] rest];
    [intros [= <- _]; eauto|].
  simpl. rewrite !decide_True by done.
  case_bool_decide; simpl; [|intros [= <- _]; eauto].
  destruct (assoc k _) as [[v' e']|]; [|intros [= <- _]; eauto].
  case_bool_decide; [done|intros [= <- _]; eauto].
Qed.

(** The fuel of [make_room] does not matter once it exceeds the size of
    the cache, and with that much fuel the loop ends the way the Python
    loop does: it has made room, or [popitem] raised [KeyError]. *)
Lemma make_room_fuel fuel1 fuel2 c t :
  currsize c < fuel1 → currsize c < fuel2 →
  make_room fuel1 c t = make_room fuel2 c t.
Proof.
  revert fuel2 c. induction fuel1 as [|fuel1 IH]; intros fuel2 c H1 H2; [lia|].
  destruct fuel2 as [|fuel2]; [lia|].
  simpl. destruct (maxsize c <? currsize c + 1)%nat; [|done].
  destruct (popitem c t) as [[x|e] c'] eqn:Hp; [|done].
  apply popitem_shrinks in Hp as [Hs _]. apply IH; lia.
Qed.

Lemma make_room_terminates fuel c t :
  currsize c < fuel →
  match make_room fuel c t with
  | (Ok _, c') => currsize c' + 1 ≤ maxsize c'
  | (Raise e, _) => ∃ k, e = KeyError k
  end.
Proof.
  revert c. induction fuel as [|fuel IH]; intros c Hlt; [lia|].
  simpl. destruct (maxsize c <? currsize c + 1)%nat eqn:Hfull.
  - destruct (popitem c t) as [[x|e] c'] eqn:Hp.
    + apply popitem_shrinks in Hp as [Hs _]. apply IH. lia.
    + by apply popitem_raises in Hp.
  - apply Nat.ltb_ge in Hfull. lia.
Qed.

(** A full cache, nothing expired, a new key: the assignment discards
    the head of [links], the least recently used entry. *)
Lemma setitem_full c k v t k0 v0 e0 rest :
  links c = (k0, (v0, e0)) :: rest →
  NoDup (keys (links c)) →
  currsize c = maxsize c →
  k ∉ keys (links c) →
  Forall (λ x, t < x.2.2)%Z (links c) →
  Forall (λ x, t < x.2)%Z (chain c) →
  setitem c k v t
  = (Ok (), mkTTLCache (maxsize c) (ttl c)
              (rest ++ [(k, (v, t + ttl c)%Z)])
              (remove_key k (remove_key k0 (chain c)) ++ [(k, (t + ttl c)%Z)])).
Proof.
  intros Hl Hnd Hfull Hk Hlinks Hchain.
  unfold setitem. rewrite expire_alive by done.
  assert (currsize c = S (length rest)) as Hsz.
  { unfold currsize. by rewrite Hl. }
  assert ((maxsize c <? 1)%nat = false) as -> by (apply Nat.ltb_ge; lia).
  rewrite bool_decide_false by done.
  rewrite Hl in Hnd, Hk, Hlinks. unfold keys in Hnd, Hk. simpl in Hnd, Hk.
  apply NoDup_cons in Hnd as [Hk0 _]. apply not_elem_of_cons in Hk as [_ Hk].
  apply Forall_cons in Hlinks as [He0 _]. simpl in He0.
  simpl. assert ((maxsize c <? currsize c + 1)%nat = true) as ->
    by (apply Nat.ltb_lt; lia).
  erewrite popitem_alive by done.
  rewrite Hsz. simpl. unfold currsize at 1. simpl.
  assert ((maxsize c <? length rest + 1)%nat = false) as ->
    by (apply Nat.ltb_ge; lia).
  simpl. by rewrite (remove_key_absent k rest).
Qed.

Lemma expires_soonestb_spec c k :
  expires_soonestb c k = true ↔ expires_soonest c k.
Proof.
  unfold expires_soonestb, expires_soonest.
  destruct (assoc k (links c)) as [[v e]|]; [|by split; [|intros (?&?&?&?)]].
  rewrite forallb_forall. split.
  - intros Hall. exists v, e. split; [done|]. intros k' v' e' Hin.
    apply list_elem_of_In, Hall in Hin. simpl in Hin. lia.
  - intros (v1 & e1 & [= <- <-] & Hall) [k' [v' e']] Hin. simpl.
    apply list_elem_of_In, Hall in Hin. lia.
Qed.

(** C7 (as amended).  When a category is at its ceiling and none of its
    entries has expired, assigning a new key discards exactly one entry,
    the least recently used one (the head of [links]), and the category
    stays at its ceiling; that entry is the one expiring soonest when the
    order of use is the order of expiry, that is, when no entry was read
    after a later one was written. *)
Theorem full_cache_evicts_least_recently_used c k v t k0 v0 e0 rest :
  links c = (k0, (v0, e0)) :: rest →
  NoDup (keys (links c)) →
  currsize c = maxsize c →
  k ∉ keys (links c) →
  Forall (λ x, t < x.2.2)%Z (links c) →
  Forall (λ x, t < x.2)%Z (chain c) →
  ∃ c', setitem c k v t = (Ok (), c')
    ∧ links c' = rest ++ [(k, (v, t + ttl c)%Z)]
    ∧ currsize c' = maxsize c'
    ∧ (in_order_of_expiry c → expires_soonest c k0).
Proof.
  intros Hl Hnd Hfull Hk Hlinks Hchain.
  eexists. split; [by eapply setitem_full|]. simpl.
  split; [done|]. split.
  { rewrite <- Hfull. unfold currsize. rewrite Hl. simpl.
    rewrite length_app. simpl. lia. }
  unfold in_order_of_expiry, expires_soonest. rewrite Hl. simpl.
  intros Hsorted. exists v0, e0. rewrite decide_True by done.
  split; [done|]. intros k' v' e' Hin.
  apply StronglySorted_inv in Hsorted as [_ Hall].
  apply elem_of_cons in Hin as [[= -> -> ->]|Hin]; [done|].
  rewrite Forall_forall in Hall. by apply Hall in Hin.
Qed.
End TTLCacheFacts.

(** ** Frame conditions of the server's steps *)

Section Frames.
Context `{Externals}.
Context {X : Type} (π : World → X).

Lemma preserves_ret {A} (a : A) : preserves π (ret a).
Proof. by intros w. Qed.

Lemma preserves_mret {A} (a : A) : preserves π (mret a).
Proof. by intros w. Qed.

Lemma preserves_raise {A} e : preserves π (raise (A:=A) e).
Proof. by intros w. Qed.

Lemma preserves_lift {A} (r : result A) : preserves π (lift r).
Proof. by intros w. Qed.

Lemma preserves_mbind {A B} (m : M A) (k : A → M B) :
  preserves π m → (∀ a, preserves π (k a)) → preserves π (m ≫= k).
Proof.
  intros Hm Hk w. rewrite mbind_unfold. specialize (Hm w).
  destruct (m w) as [[a|e] w']; simpl in *; [|done].
  by rewrite Hk.
Qed.

Lemma preserves_try_except {A} (m : M A) (h : exn → M A) :
  preserves π m → (∀ e, preserves π (h e)) → preserves π (try_except m h).
Proof.
  intros Hm Hh w. unfold try_except. specialize (Hm w).
  destruct (m w) as [[a|e] w']; simpl in *; [done|].
  by rewrite Hh.
Qed.

Lemma preserves_for_each {A B} (f : A → M B) (l : list A) :
  (∀ a, preserves π (f a)) → preserves π (for_each f l).
Proof.
  intros Hf. induction l as [|x l IH]; simpl.
  - apply preserves_ret.
  - apply preserves_mbind; [done|]. intros y.
    apply preserves_mbind; [done|]. intros ys. apply preserves_ret.
Qed.

Lemma preserves_get_exchange name : preserves π (get_exchange name).
Proof. intros w. unfold get_exchange. by case_match. Qed.

Lemma preserves_handle_of ref : preserves π (handle_of ref).
Proof. intros w. unfold handle_of. by case_match. Qed.
End Frames.

Ltac frame_step :=
  lazymatch goal with
  | |- preserves _ (_ ≫= _) => apply preserves_mbind; [|intros ?]
  | |- preserves _ (try_except _ _) => apply preserves_try_except; [|intros ?]
  | |- preserves _ (for_each _ _) => apply preserves_for_each; intros ?
  | |- preserves _ (ret _) => apply preserves_ret
  | |- preserves _ (mret _) => apply preserves_mret
  | |- preserves _ (raise _) => apply preserves_raise
  | |- preserves _ (lift _) => apply preserves_lift
  | |- preserves _ (get_exchange _) => apply preserves_get_exchange
  | |- preserves _ (handle_of _) => apply preserves_handle_of
  | |- preserves _ (if ?b then _ else _) => destruct b
  | |- preserves _ (match ?x with _ => _ end) => destruct x
  end.

(** The primitive steps are settled by running them. *)
Ltac frame_run :=
  let w := fresh "w" in
  intros w;
  unfold store_markets, upstream_call, with_cache, with_server,
    incr_request_count, incr_error_count, clear_cache,
    CacheManager_get_ticker, CacheManager_set_ticker,
    CacheManager_get_ohlcv, CacheManager_set_ohlcv, CacheManager_clear_all;
  simpl; repeat case_match; simplify_eq/=; reflexivity.

Ltac frame := repeat frame_step; try assumption; try frame_run.

Section ServerFrames.
Context `{Externals}.

Lemma load_markets_counters name : preserves counters (load_markets name).
Proof. unfold load_markets. frame. Qed.

Lemma load_markets_caches name : preserves caches (load_markets name).
Proof. unfold load_markets. frame. Qed.

Lemma load_markets_orderbook name : preserves orderbook_of (load_markets name).
Proof. unfold load_markets. frame. Qed.

Lemma get_ticker_fetch_counters request :
  preserves counters (get_ticker_fetch request).
Proof. unfold get_ticker_fetch. frame; apply load_markets_counters. Qed.

Lemma get_ohlcv_fetch_counters request :
  preserves counters (get_ohlcv_fetch request).
Proof. unfold get_ohlcv_fetch. frame; apply load_markets_counters. Qed.

Lemma get_ticker_orderbook request : preserves orderbook_of (get_ticker request).
Proof.
  unfold get_ticker, get_ticker_fetch. frame; apply load_markets_orderbook.
Qed.

Lemma get_ohlcv_orderbook request : preserves orderbook_of (get_ohlcv request).
Proof.
  unfold get_ohlcv, get_ohlcv_fetch. frame; apply load_markets_orderbook.
Qed.

Lemma get_orderbook_caches request limit :
  preserves caches (get_orderbook request limit).
Proof. unfold get_orderbook. frame; apply load_markets_caches. Qed.

Lemma get_multi_exchange_ticker_orderbook symbol exchanges :
  preserves orderbook_of (get_multi_exchange_ticker symbol exchanges).
Proof.
  unfold get_multi_exchange_ticker, _safe_get_ticker.
  frame; apply get_ticker_orderbook.
Qed.

Lemma get_price_statistics_orderbook request :
  preserves orderbook_of (get_price_statistics request).
Proof. unfold get_price_statistics. frame; apply get_ohlcv_orderbook. Qed.

Lemma get_exchange_info_orderbook name :
  preserves orderbook_of (get_exchange_info name).
Proof. unfold get_exchange_info. frame; apply load_markets_orderbook. Qed.

Lemma search_symbols_orderbook query name :
  preserves orderbook_of (search_symbols query name).
Proof. unfold search_symbols. frame; apply load_markets_orderbook. Qed.
End ServerFrames.

(** ** The read paths *)

Section ReadPaths.
Context `{Externals}.

(** The lookup that opens [get_ticker]: it cannot raise, and touches
    nothing but the ticker category. *)
Lemma cache_lookup_ticker exchange symbol w :
  ∃ o w', with_cache (λ cm t, CacheManager_get_ticker cm exchange symbol t) w
          = (Ok o, w')
          ∧ counters w' = counters w ∧ calls w' = calls w ∧ now w' = now w
          ∧ upstream w' = upstream w
          ∧ exchange_manager (server w') = exchange_manager (server w)
          ∧ orderbook_of w' = orderbook_of w
          ∧ (get (ticker_cache (caches w)) (ticker_key exchange symbol)
               (now w)).1 = Ok o.
Proof.
  unfold with_cache, CacheManager_get_ticker, caches.
  destruct (get_total (ticker_cache (cache (server w)))
              (ticker_key exchange symbol) (now w)) as [o Ho].
  destruct (get _ _ _) as [r c]. simpl in Ho. subst r.
  eexists _, _. split; [done|]. by simpl.
Qed.

Lemma cache_lookup_ohlcv exchange symbol timeframe limit w :
  ∃ o w', with_cache (λ cm t, CacheManager_get_ohlcv cm exchange symbol
                                timeframe limit t) w
          = (Ok o, w')
          ∧ counters w' = counters w ∧ calls w' = calls w ∧ now w' = now w
          ∧ upstream w' = upstream w
          ∧ exchange_manager (server w') = exchange_manager (server w)
          ∧ orderbook_of w' = orderbook_of w
          ∧ (get (ohlcv_cache (caches w))
               (ohlcv_key exchange symbol timeframe limit) (now w)).1 = Ok o.
Proof.
  unfold with_cache, CacheManager_get_ohlcv, caches.
  destruct (get_total (ohlcv_cache (cache (server w)))
              (ohlcv_key exchange symbol timeframe limit) (now w)) as [o Ho].
  destruct (get _ _ _) as [r c]. simpl in Ho. subst r.
  eexists _, _. split; [done|]. by simpl.
Qed.

(** The shape shared by the three endpoints: a guarded block whose
    handler counts the error and raises again. *)
Lemma guarded_counts {A} (m : M A) (f : exn → exn) w :
  preserves counters m →
  let r := try_except m (λ e, incr_error_count;; raise (f e)) w in
  request_count (server r.2) = request_count (server w)
  ∧ error_count (server r.2)
    = error_count (server w) + (if is_ok r.1 then 0 else 1).
Proof.
  intros Hm. unfold try_except. specialize (Hm w). unfold counters in Hm.
  destruct (m w) as [[a|e] w']; simpl in *.
  - injection Hm as -> ->. lia.
  - injection Hm as -> ->. lia.
Qed.

Lemma get_ticker_counted request : counted (get_ticker request).
Proof.
  intros w. unfold get_ticker.
  rewrite mbind_unfold. simpl.
  set (w1 := mkWorld _ _ _ _).
  destruct (cache_lookup_ticker (Exchange_value (exchange request))
              (symbol request) w1) as (o & w2 & Hget & Hc & _).
  rewrite mbind_unfold, Hget. unfold counters in Hc. injection Hc as Hrc Hec.
  destruct o as [data|].
  - simpl. rewrite Hrc, Hec. simpl. lia.
  - pose proof (guarded_counts (get_ticker_fetch request) ticker_error w2
                  (get_ticker_fetch_counters request)) as [Hr He].
    simpl in Hr, He. rewrite Hr, He, Hrc, Hec. simpl. lia.
Qed.

Lemma get_orderbook_counted request limit :
  counted (get_orderbook request limit).
Proof.
  intros w. unfold get_orderbook.
  rewrite mbind_unfold. simpl.
  set (w1 := mkWorld _ _ _ _).
  match goal with
  | |- context [try_except ?m (λ e, incr_error_count;; raise (@?f e)) w1] =>
      pose proof (guarded_counts m f w1) as Hg
  end.
  destruct Hg as [Hr He].
  { frame; apply load_markets_counters. }
  simpl in Hr, He. rewrite Hr, He. simpl. lia.
Qed.

Lemma get_ohlcv_counted request : counted (get_ohlcv request).
Proof.
  intros w. unfold get_ohlcv.
  rewrite mbind_unfold. simpl.
  set (w1 := mkWorld _ _ _ _).
  destruct (cache_lookup_ohlcv (Exchange_value (exchange (base request)))
              (symbol (base request)) (TimeFrame_value (timeframe request))
              (limit request) w1) as (o & w2 & Hget & Hc & _).
  rewrite mbind_unfold, Hget. unfold counters in Hc. injection Hc as Hrc Hec.
  match goal with
  | |- context [try_except ?m (λ e, incr_error_count;; raise (@?f e))] =>
      pose proof (guarded_counts m f w2
                    (get_ohlcv_fetch_counters request)) as [Hr He]
  end.
  simpl in Hr, He.
  destruct o as [[|d data]|]; simpl.
  - rewrite Hr, He, Hrc, Hec. simpl. lia.
  - rewrite Hrc, Hec. simpl. lia.
  - rewrite Hr, He, Hrc, Hec. simpl. lia.
Qed.

Lemma run_read_counted op w :
  request_count (server (run_read op w).2) = request_count (server w) + 1
  ∧ error_count (server (run_read op w).2)
    = error_count (server w) + (if (run_read op w).1 then 0 else 1).
Proof.
  destruct op as [r|r l|r]; simpl.
  - pose proof (get_ticker_counted r w). by destruct (get_ticker r w).
  - pose proof (get_orderbook_counted r l w). by destruct (get_orderbook r l w).
  - pose proof (get_ohlcv_counted r w). by destruct (get_ohlcv r w).
Qed.

(** A live ticker entry is served from the cache: no upstream call, one
    more request counted, no error counted. *)
Lemma get_ticker_cache_hit request w data e :
  assoc (ticker_key (Exchange_value (exchange request)) (symbol request))
        (links (ticker_cache (caches w))) = Some (data, e) →
  (now w < e)%Z →
  ∃ w', get_ticker request w = (Ok data, w')
        ∧ calls w' = calls w
        ∧ request_count (server w') = request_count (server w) + 1
        ∧ error_count (server w') = error_count (server w).
Proof.
  intros Hk Ht. unfold get_ticker. rewrite mbind_unfold. simpl.
  set (w1 := mkWorld _ _ _ _).
  destruct (cache_lookup_ticker (Exchange_value (exchange request))
              (symbol request) w1)
    as (o & w2 & Hget & Hc & Hcalls & _ & _ & _ & _ & Ho).
  rewrite mbind_unfold, Hget.
  rewrite (get_hit _ _ _ data e) in Ho by done. injection Ho as <-.
  eexists. split; [done|]. unfold counters in Hc. injection Hc as -> ->.
  by rewrite Hcalls.
Qed.

(** So is a live entry of candles, as long as the list is not empty. *)
Lemma get_ohlcv_cache_hit request w d data e :
  assoc (ohlcv_key (Exchange_value (exchange (base request)))
           (symbol (base request)) (TimeFrame_value (timeframe request))
           (limit request))
        (links (ohlcv_cache (caches w))) = Some (d :: data, e) →
  (now w < e)%Z →
  ∃ w', get_ohlcv request w = (Ok (d :: data), w')
        ∧ calls w' = calls w
        ∧ request_count (server w') = request_count (server w) + 1
        ∧ error_count (server w') = error_count (server w).
Proof.
  intros Hk Ht. unfold get_ohlcv. rewrite mbind_unfold. simpl.
  set (w1 := mkWorld _ _ _ _).
  destruct (cache_lookup_ohlcv (Exchange_value (exchange (base request)))
              (symbol (base request)) (TimeFrame_value (timeframe request))
              (limit request) w1)
    as (o & w2 & Hget & Hc & Hcalls & _ & _ & _ & _ & Ho).
  rewrite mbind_unfold, Hget.
  rewrite (get_hit _ _ _ (d :: data) e) in Ho by done. injection Ho as <-.
  eexists. split; [done|]. unfold counters in Hc. injection Hc as -> ->.
  by rewrite Hcalls.
Qed.

(** The counters of the single-exchange read operations.  Each call adds
    exactly one to the request counter, hit or miss, and adds one to the
    error counter exactly when it fails; over a run of such calls the
    error counter grows by the number of failed calls; a call served from
    the cache adds nothing to it. *)
Theorem request_and_error_counters :
  (∀ request, counted (get_ticker request))
  ∧ (∀ request limit, counted (get_orderbook request limit))
  ∧ (∀ request, counted (get_ohlcv request))
  ∧ (∀ ops w,
       request_count (server (run_reads ops w).2)
       = request_count (server w) + length ops
       ∧ error_count (server (run_reads ops w).2)
         = error_count (server w) + (run_reads ops w).1)
  ∧ (∀ request w data e,
       assoc (ticker_key (Exchange_value (exchange request)) (symbol request))
             (links (ticker_cache (caches w))) = Some (data, e) →
       (now w < e)%Z →
       error_count (server (get_ticker request w).2) = error_count (server w))
  ∧ (∀ request w d data e,
       assoc (ohlcv_key (Exchange_value (exchange (base request)))
                (symbol (base request)) (TimeFrame_value (timeframe request))
                (limit request))
             (links (ohlcv_cache (caches w))) = Some (d :: data, e) →
       (now w < e)%Z →
       error_count (server (get_ohlcv request w).2) = error_count (server w)).
Proof.
  split; [exact get_ticker_counted|].
  split; [exact get_orderbook_counted|].
  split; [exact get_ohlcv_counted|].
  split.
  { induction ops as [|[pause op] ops IH]; intros w; simpl; [lia|].
    pose proof (run_read_counted op (sleep pause w)) as [Hr He].
    destruct (run_read op (sleep pause w)) as [ok w1]. simpl in Hr, He.
    specialize (IH w1). destruct (run_reads ops w1) as [failures w2].
    simpl in *. destruct IH as [-> ->]. rewrite Hr, He. lia. }
  split.
  - intros request w data e Hk Ht.
    destruct (get_ticker_cache_hit request w data e Hk Ht)
      as (w' & -> & _ & _ & Herr). exact Herr.
  - intros request w d data e Hk Ht.
    destruct (get_ohlcv_cache_hit request w d data e Hk Ht)
      as (w' & -> & _ & _ & Herr). exact Herr.
Qed.

(** What follows an upstream call in the two guarded fetch blocks makes
    no further call. *)
Lemma guarded_fetch_calls {A B} (c : Call) (reply : Upstream → list Call → result A)
    (k : A → M B) (h : exn → M B) w :
  (∀ a, preserves calls (k a)) → (∀ e, preserves calls (h e)) →
  calls (try_except (upstream_call c reply ≫= k) h w).2 = calls w ++ [c].
Proof.
  intros Hk Hh. unfold try_except. rewrite mbind_unfold.
  unfold upstream_call at 1.
  destruct (reply (upstream w) (calls w)) as [a|e].
  - set (w1 := mkWorld _ _ _ _). specialize (Hk a w1).
    destruct (k a w1) as [[b|e] w2]; simpl in *; [done|].
    by rewrite Hh.
  - by rewrite Hh.
Qed.

Lemma get_ohlcv_fetch_calls request w h :
  exchanges (exchange_manager (server w))
    !! Exchange_value (exchange (base request)) = Some h →
  markets_missing h = false →
  calls (try_except (get_ohlcv_fetch request)
           (λ e, incr_error_count;;
                 raise (RuntimeError
                          ("Failed to fetch OHLCV data: " +:+ str_exn e))) w).2
  = calls w ++ [ohlcv_call request].
Proof.
  intros Hreg Hm.
  rewrite <- lower_Exchange_value in Hreg.
  pose proof (get_exchange_registered _ _ _ Hreg) as Hge.
  pose proof (load_markets_loaded _ _ _ Hreg Hm) as Hlm.
  unfold get_ohlcv_fetch, try_except.
  rewrite (mbind_ok _ _ _ _ _ Hge), (mbind_ok _ _ _ _ _ Hlm).
  rewrite lower_Exchange_value.
  match goal with
  | |- context [(upstream_call ?c ?reply ≫= ?k) w] =>
      pose proof (guarded_fetch_calls c reply k
                    (λ e, incr_error_count;;
                          raise (RuntimeError
                                   ("Failed to fetch OHLCV data: "
                                    +:+ str_exn e))) w) as Hg
  end.
  unfold try_except in Hg. apply Hg; intros; frame.
Qed.

(** C2 fails on the OHLCV path.  When the cached entry of a request is
    present and unexpired but holds the empty list of candles, [get_ohlcv]
    does not return it: it sends the fetch upstream again. *)
Theorem get_ohlcv_refetches_cached_empty_list request w e h :
  assoc (ohlcv_key (Exchange_value (exchange (base request)))
           (symbol (base request)) (TimeFrame_value (timeframe request))
           (limit request))
        (links (ohlcv_cache (caches w))) = Some ([], e) →
  (now w < e)%Z →
  exchanges (exchange_manager (server w))
    !! Exchange_value (exchange (base request)) = Some h →
  markets_missing h = false →
  calls (get_ohlcv request w).2 = calls w ++ [ohlcv_call request].
Proof.
  intros Hk Ht Hreg Hm. unfold get_ohlcv. rewrite mbind_unfold. simpl.
  set (w1 := mkWorld _ _ _ _).
  destruct (cache_lookup_ohlcv (Exchange_value (exchange (base request)))
              (symbol (base request)) (TimeFrame_value (timeframe request))
              (limit request) w1)
    as (o & w2 & Hget & Hc & Hcalls & _ & _ & Hem & _ & Ho).
  rewrite mbind_unfold, Hget.
  rewrite (get_hit _ _ _ [] e) in Ho by done. injection Ho as <-.
  simpl. rewrite (get_ohlcv_fetch_calls request w2 h).
  - by rewrite Hcalls.
  - by rewrite Hem.
  - done.
Qed.

(** Every order-book request that reaches a registered exchange with a
    loaded catalogue is sent upstream, whatever the caches hold. *)
Lemma get_orderbook_fetches request limit w h :
  exchanges (exchange_manager (server w))
    !! Exchange_value (exchange request) = Some h →
  markets_missing h = false →
  calls (get_orderbook request limit w).2
  = calls w ++ [orderbook_call request limit].
Proof.
  intros Hreg Hm. unfold get_orderbook. rewrite mbind_unfold.
  cbn [incr_request_count with_server].
  set (w1 := mkWorld _ _ _ _).
  assert (calls w1 = calls w) as <- by done.
  assert (exchanges (exchange_manager (server w1))
            !! lower (Exchange_value (exchange request)) = Some h) as Hreg1.
  { by rewrite lower_Exchange_value. }
  clearbody w1.
  pose proof (get_exchange_registered _ _ _ Hreg1) as Hge.
  pose proof (load_markets_loaded _ _ _ Hreg1 Hm) as Hlm.
  unfold try_except.
  rewrite (mbind_ok _ _ _ _ _ Hge), (mbind_ok _ _ _ _ _ Hlm).
  rewrite lower_Exchange_value. fold (orderbook_call request limit).
  match goal with
  | |- context [(upstream_call ?c ?reply ≫= ?k) w1] =>
      pose proof (guarded_fetch_calls c reply k
                    (λ e, incr_error_count;;
                          raise (RuntimeError
                                   ("Failed to fetch orderbook: "
                                    +:+ str_exn e))) w1) as Hg
  end.
  unfold try_except in Hg. apply Hg; intros; frame.
Qed.
End ReadPaths.

(** ** The order-book category *)

Section OrderBook.
Context `{Externals}.

Lemma run_op_orderbook_empty op w :
  orderbook_empty w → orderbook_empty (run_op op w).
Proof.
  unfold orderbook_empty. intros Hw.
  destruct op as [r|r l|r|s es|r| |n|q n| |n]; simpl; try (rewrite <- Hw).
  - apply get_ticker_orderbook.
  - pose proof (get_orderbook_caches r l w) as Hc.
    unfold caches in Hc. unfold orderbook_of. by rewrite Hc.
  - apply get_ohlcv_orderbook.
  - apply get_multi_exchange_ticker_orderbook.
  - apply get_price_statistics_orderbook.
  - unfold get_server_status. case_match; [|done].
    unfold len. simpl. unfold orderbook_of in *. rewrite Hw at 1. done.
  - apply get_exchange_info_orderbook.
  - apply search_symbols_orderbook.
  - unfold orderbook_of in *. simpl. by rewrite Hw.
  - done.
Qed.

Lemma run_ops_orderbook_empty ops w :
  orderbook_empty w → orderbook_empty (run_ops ops w).
Proof.
  revert w. induction ops as [|op ops IH]; intros w Hw; simpl; [done|].
  apply IH. by apply run_op_orderbook_empty.
Qed.

(** C9.  [get_orderbook] leaves the three cache categories exactly as
    they were, for every request and every world: it neither reads nor
    writes them, and a request that reaches a registered exchange is sent
    upstream whatever the caches hold.  Consequently the order-book
    category is still the empty cache it was created as after any run of
    engine operations from the initial state. *)
Theorem orderbook_never_cached :
  (∀ request limit w,
     cache (server (get_orderbook request limit w).2) = cache (server w))
  ∧ (∀ request limit w h,
       exchanges (exchange_manager (server w))
         !! Exchange_value (exchange request) = Some h →
       markets_missing h = false →
       calls (get_orderbook request limit w).2
       = calls w ++ [orderbook_call request limit])
  ∧ (∀ construct t up ops,
       orderbook_cache
         (cache (server (run_ops ops (initial_world construct t up))))
       = new 500 5%Z).
Proof.
  split; [intros; apply get_orderbook_caches|].
  split; [intros; by eapply get_orderbook_fetches|].
  intros construct t up ops.
  by apply (run_ops_orderbook_empty ops (initial_world construct t up)).
Qed.
End OrderBook.

(** ** Multi-exchange queries *)

Section FanOut.
Context `{Externals}.

Lemma build_requests symbol es w :
  str_in "/" symbol = true →
  for_each (λ e, lift (MarketDataRequest_init symbol e)) es w
  = (Ok (mkMarketDataRequest (upper symbol) <$> es), w).
Proof.
  intros Hs. induction es as [|e es IH]; [done|].
  rewrite for_each_cons, mbind_unfold. unfold lift at 1.
  rewrite MarketDataRequest_init_valid by done.
  rewrite mbind_unfold, IH. done.
Qed.

(** Every failure of a sub-query is absorbed. *)
Lemma safe_get_ticker_absorbs request w :
  _safe_get_ticker request w
  = (Ok (to_option (get_ticker request w).1), (get_ticker request w).2).
Proof.
  unfold _safe_get_ticker, try_except. rewrite mbind_unfold.
  by destruct (get_ticker request w) as [[data|e] w'].
Qed.

Lemma gather_outcomes requests w :
  for_each _safe_get_ticker requests w
  = (Ok (to_option <$> (sub_query_outcomes requests w).1),
     (sub_query_outcomes requests w).2).
Proof.
  revert w. induction requests as [|r rs IH]; intros w; [done|].
  rewrite for_each_cons, mbind_unfold, safe_get_ticker_absorbs.
  cbn [sub_query_outcomes].
  destruct (get_ticker r w) as [o w1]. cbn [fst snd].
  rewrite mbind_unfold, IH.
  by destruct (sub_query_outcomes rs w1) as [os w2].
Qed.

Lemma length_sub_query_outcomes requests w :
  length (sub_query_outcomes requests w).1 = length requests.
Proof.
  revert w. induction requests as [|r rs IH]; intros w; simpl; [done|].
  destruct (get_ticker r w) as [o w1]. specialize (IH w1).
  destruct (sub_query_outcomes rs w1) as [os w2]. simpl in *. by rewrite IH.
Qed.

Lemma dom_collect_results (pairs : list (Exchange * option TickerData))
    (d : gmap string TickerData) (id : string) :
  id ∈ dom (foldl (λ d p, match p.2 with
                         | Some data => <[Exchange_value p.1 := data]> d
                         | None => d
                         end) d pairs)
  ↔ id ∈ dom d
    ∨ ∃ i e data, pairs !! i = Some (e, Some data) ∧ Exchange_value e = id.
Proof.
  revert d. induction pairs as [|[e o] pairs IH]; intros d; simpl.
  - split; [auto|]. intros [?|(i & ? & ? & Hi & _)]; [done|].
    by rewrite lookup_nil in Hi.
  - rewrite IH. split.
    + intros [Hd|(i & e' & data & Hi & He)].
      * destruct o as [data|]; [|by left].
        rewrite dom_insert in Hd.
        apply elem_of_union in Hd as [Hd|Hd]; [|by left].
        apply elem_of_singleton in Hd. right. by exists 0, e, data.
      * right. by exists (S i), e', data.
    + intros [Hd|([|i] & e' & data & Hi & He)].
      * left. destruct o; [|done]. rewrite dom_insert.
        apply elem_of_union. by right.
      * simpl in Hi. injection Hi as -> ->. left. rewrite dom_insert.
        apply elem_of_union. left. by apply elem_of_singleton.
      * right. by exists i, e', data.
Qed.

(** C1 (as amended).  For a symbol that passes request validation and any
    list of exchanges (all five by default), [get_multi_exchange_ticker]
    runs every sub-query, whatever the outcome of the others, and returns
    a mapping whose keys are exactly the ids of the exchanges of a
    sub-query that succeeded. *)
Theorem multi_exchange_ticker_partial_failure symbol exchanges w :
  str_in "/" symbol = true →
  let es := default all_Exchange exchanges in
  let requests := mkMarketDataRequest (upper symbol) <$> es in
  let outcomes := (sub_query_outcomes requests w).1 in
  ∃ m, get_multi_exchange_ticker symbol exchanges w
       = (Ok m, (sub_query_outcomes requests w).2)
       ∧ ∀ id, id ∈ dom m
               ↔ ∃ i e data, es !! i = Some e
                             ∧ outcomes !! i = Some (Ok data)
                             ∧ Exchange_value e = id.
Proof.
  intros Hs es requests outcomes. unfold get_multi_exchange_ticker.
  fold es. rewrite mbind_unfold, build_requests by done. fold requests.
  rewrite mbind_unfold, gather_outcomes. fold outcomes.
  eexists. split; [done|]. intros id.
  unfold collect_results. rewrite dom_collect_results, dom_empty.
  assert (length outcomes = length es) as Hlen.
  { unfold outcomes. rewrite length_sub_query_outcomes.
    unfold requests. by rewrite length_fmap. }
  split.
  - intros [Hd|(i & e & data & Hi & He)]; [by apply elem_of_empty in Hd|].
    apply lookup_zip_with_Some in Hi as (e' & o & [= <- Ho] & Hes & Hos).
    rewrite list_lookup_fmap in Hos.
    destruct (outcomes !! i) as [[d|?]|] eqn:Hoi; simplify_eq/=.
    by exists i, e, data.
  - intros (i & e & data & Hes & Hos & He). right. exists i, e, data.
    split; [|done]. apply lookup_zip_with_Some. exists e, (Some data).
    split; [done|]. split; [done|]. by rewrite list_lookup_fmap, Hos.
Qed.
End FanOut.

(** ** Price statistics *)

Section Statistics.
Context `{Externals}.

Lemma div_nonzero x y : y ≠ 0%R → div x y = Ok (x / y)%R.
Proof. intros Hy. unfold div. by destruct (Req_dec_T y 0). Qed.

Lemma div_zero x :
  div x 0 = Raise (ZeroDivisionError "float division by zero").
Proof. unfold div. by destruct (Req_dec_T 0 0). Qed.

(** The order of floats: [<] is irreflexive and transitive, NaNs
    included. *)
Lemma SFltb_irrefl x : SFltb x x = false.
Proof.
  unfold SFltb, SFcompare. destruct x as [[]|[]| |[] m e]; try done.
  - change (Pos.compare_cont Eq) with Pos.compare.
    by rewrite Z.compare_refl, Pos.compare_refl.
  - change (Pos.compare_cont Eq) with Pos.compare.
    by rewrite Z.compare_refl, Pos.compare_refl.
Qed.

Lemma SFltb_trans x y z :
  SFltb x y = true → SFltb y z = true → SFltb x z = true.
Proof.
  unfold SFltb, SFcompare.
  destruct x as [[]|[]| |[] mx ex], y as [[]|[]| |[] my ey],
    z as [[]|[]| |[] mz ez]; try done;
    change (Pos.compare_cont Eq) with Pos.compare;
    destruct (Z.compare_spec ex ey), (Z.compare_spec ey ez),
      (Z.compare_spec ex ez); try done; try lia; subst;
    destruct (Pos.compare_spec mx my), (Pos.compare_spec my mz),
      (Pos.compare_spec mx mz); simpl; try done; try lia.
Qed.

Lemma float_ltb_irrefl x : (x <? x)%float = false.
Proof. rewrite FloatAxioms.ltb_spec. apply SFltb_irrefl. Qed.

Lemma float_ltb_trans x y z :
  (x <? y)%float = true → (y <? z)%float = true → (x <? z)%float = true.
Proof. rewrite !FloatAxioms.ltb_spec. apply SFltb_trans. Qed.

Lemma max_fold_spec x l :
  is_max (foldl (λ m y, if (m <? y)%float then y else m) x l) (x :: l).
Proof.
  unfold is_max. induction l as [|y l IH] using rev_ind.
  - split; [left|]. intros z Hz%list_elem_of_singleton. subst.
    apply float_ltb_irrefl.
  - rewrite foldl_snoc, app_comm_cons.
    set (m := foldl _ x l) in *. destruct IH as [Hin Hall].
    destruct (m <? y)%float eqn:Hlt.
    + split; [apply elem_of_app; right; left|].
      intros z [Hz|Hz%list_elem_of_singleton]%elem_of_app.
      * destruct (y <? z)%float eqn:Hyz; [|done].
        by rewrite <- (Hall z Hz), (float_ltb_trans m y z).
      * subst. apply float_ltb_irrefl.
    + split; [apply elem_of_app; by left|].
      intros z [Hz|Hz%list_elem_of_singleton]%elem_of_app; [by apply Hall|].
      by subst.
Qed.

Lemma min_fold_spec x l :
  is_min (foldl (λ m y, if (y <? m)%float then y else m) x l) (x :: l).
Proof.
  unfold is_min. induction l as [|y l IH] using rev_ind.
  - split; [left|]. intros z Hz%list_elem_of_singleton. subst.
    apply float_ltb_irrefl.
  - rewrite foldl_snoc, app_comm_cons.
    set (m := foldl _ x l) in *. destruct IH as [Hin Hall].
    destruct (y <? m)%float eqn:Hlt.
    + split; [apply elem_of_app; right; left|].
      intros z [Hz|Hz%list_elem_of_singleton]%elem_of_app.
      * destruct (z <? y)%float eqn:Hzy; [|done].
        by rewrite <- (Hall z Hz), (float_ltb_trans z y m).
      * subst. apply float_ltb_irrefl.
    + split; [apply elem_of_app; by left|].
      intros z [Hz|Hz%list_elem_of_singleton]%elem_of_app; [by apply Hall|].
      by subst.
Qed.

Lemma last_item_cons {A} (x : A) l d :
  last_item (x :: l) = Ok (List.last (x :: l) d).
Proof.
  unfold last_item. revert x. induction l as [|y l IH]; intros x; [done|].
  specialize (IH y). rewrite last_cons_cons.
  destruct (list.last (y :: l)) eqn:E; [|done].
  injection IH as ->. done.
Qed.

(** Powers.  A power raises only on a range error of the C library or,
    for a negative exponent, on a zero base; it is complex only for a
    fractional exponent. *)
Lemma float_pow_raises x y e :
  float_pow x y = Raise e →
  e = OverflowError strerror_ERANGE
  ∨ ((y <? 0)%float = true
     ∧ e = ZeroDivisionError "0.0 cannot be raised to a negative power").
Proof.
  unfold float_pow. intros Hpow.
  repeat (case_match; try done); simplify_eq; auto.
Qed.

Lemma float_pow_complex x y b e :
  float_pow x y = Ok (Complex b e) →
  is_integer y = false ∧ (x <? 0)%float = true ∧ b = x ∧ e = y.
Proof.
  unfold float_pow. intros Hpow.
  repeat (case_match; try done); simplify_eq.
  match goal with
  | Hc : _ && _ = true |- _ => apply andb_true_iff in Hc as [Hneg Hint]
  end.
  by apply negb_true_iff in Hint.
Qed.

Lemma float_pow_2_is_float x r :
  float_pow x 2 = Ok r → ∃ y, r = Float y.
Proof.
  destruct r as [y|b e]; [by exists y|].
  by intros [? _]%float_pow_complex.
Qed.

Lemma float_pow_2_raises x e :
  float_pow_2 x = Raise e → e = OverflowError strerror_ERANGE.
Proof.
  unfold float_pow_2. destruct (float_pow x 2) as [r|e'] eqn:Hpow; [done|].
  intros [= <-]. by apply float_pow_raises in Hpow as [?|[? _]].
Qed.

Lemma float_pow_half_raises x e :
  float_pow x 0.5 = Raise e → e = OverflowError strerror_ERANGE.
Proof. by intros [?|[? _]]%float_pow_raises. Qed.

Lemma squares_length m l sq : squares m l = Ok sq → length sq = length l.
Proof.
  revert sq. induction l as [|p l IH]; intros sq; simpl; [by intros [= <-]|].
  destruct (float_pow_2 (p - m)) as [s|e]; [|done]. simpl.
  destruct (squares m l) as [ss|e]; [|done]. simpl.
  intros [= <-]. simpl. by rewrite (IH ss).
Qed.

Lemma squares_raises m l e :
  squares m l = Raise e → e = OverflowError strerror_ERANGE.
Proof.
  induction l as [|p l IH]; simpl; [done|].
  destruct (float_pow_2 (p - m)) as [s|e'] eqn:Hp; simpl.
  - destruct (squares m l) as [ss|e']; [done|]. simpl.
    intros [= <-]. by apply IH.
  - intros [= <-]. by apply float_pow_2_raises in Hp.
Qed.

Lemma float_truediv_int_nonempty {A} x (l : list A) :
  l ≠ [] →
  float_truediv_int x (length l) = Ok (x / float_of_nat (length l))%float.
Proof. by destruct l. Qed.

(** With two prices or more [_calculate_volatility] evaluates the
    population standard deviation; with fewer it returns 0.0 without
    any arithmetic. *)
Lemma calculate_volatility_population prices :
  2 ≤ length prices → _calculate_volatility prices = population_std prices.
Proof.
  intros Hlen. unfold _calculate_volatility, population_std.
  assert ((length prices <? 2) = false) as -> by (apply Nat.ltb_ge; lia).
  assert (prices ≠ []) as Hne by (destruct prices; [simpl in Hlen; lia|done]).
  rewrite (float_truediv_int_nonempty _ _ Hne), result_bind_ok.
  unfold squared_deviations. fold (mean prices).
  destruct (squares (mean prices) prices) as [sq|e] eqn:Hsq; [|done].
  rewrite !result_bind_ok. rewrite <- (squares_length _ _ _ Hsq).
  assert (sq ≠ []) as Hsqne.
  { apply squares_length in Hsq. destruct sq; [|done].
    destruct prices; simpl in *; [done|lia]. }
  by rewrite (float_truediv_int_nonempty _ _ Hsqne), result_bind_ok.
Qed.

Lemma calculate_volatility_single prices :
  length prices < 2 → _calculate_volatility prices = Ok (Float 0).
Proof.
  intros Hlen. unfold _calculate_volatility.
  by assert ((length prices <? 2) = true) as -> by (apply Nat.ltb_lt; lia).
Qed.

Lemma calculate_volatility_raises prices e :
  _calculate_volatility prices = Raise e → e = OverflowError strerror_ERANGE.
Proof.
  destruct (decide (length prices < 2)) as [Hlen|Hlen].
  - by rewrite calculate_volatility_single.
  - rewrite calculate_volatility_population by lia.
    unfold population_std, squared_deviations.
    destruct (squares _ _) as [sq|e'] eqn:Hsq; simpl.
    + apply float_pow_half_raises.
    + intros [= <-]. by apply squares_raises in Hsq.
Qed.

(** What [statistics_of] does with the candles, up to the volatility. *)
Lemma statistics_of_run request d data :
  let closes := close <$> (d :: data) in
  let volumes := cd_volume <$> (d :: data) in
  statistics_of request (d :: data)
  = if (close d =? 0)%float
    then Raise (ZeroDivisionError "float division by zero")
    else
      match _calculate_volatility closes with
      | Raise e => Raise e
      | Ok vol =>
          Ok (mkPriceStatistics
                (symbol (base request))
                (Exchange_value (exchange (base request)))
                (TimeFrame_value (timeframe request))
                (length (d :: data))
                (List.last closes 0%float)
                (foldl (λ m y, if (m <? y)%float then y else m) (close d)
                   (close <$> data))
                (foldl (λ m y, if (y <? m)%float then y else m) (close d)
                   (close <$> data))
                (mean closes)
                (List.last closes 0 - close d)%float
                ((List.last closes 0 - close d) / close d * 100)%float
                (float_sum volumes) (mean volumes) vol
                (isoformat (cd_timestamp d))
                (isoformat (cd_timestamp (List.last (d :: data) d))))
      end.
Proof.
  intros closes volumes. unfold closes, volumes.
  unfold statistics_of. cbn [truthy_list negb].
  rewrite !fmap_cons.
  set (c := close d). set (cs := close <$> data).
  set (v := cd_volume d). set (vs := cd_volume <$> data).
  rewrite (last_item_cons c cs 0%float), result_bind_ok.
  unfold max, min. rewrite !result_bind_ok.
  rewrite (float_truediv_int_nonempty _ (c :: cs)) by done.
  rewrite result_bind_ok. cbn [first_item]. rewrite result_bind_ok.
  unfold float_truediv at 1. destruct (c =? 0)%float; [done|].
  rewrite result_bind_ok.
  rewrite (float_truediv_int_nonempty _ (v :: vs)) by done.
  rewrite result_bind_ok.
  destruct (_calculate_volatility (c :: cs)) as [vol|e]; [|done].
  rewrite result_bind_ok.
  rewrite (last_item_cons _ _ d). by rewrite !result_bind_ok.
Qed.

Lemma statistics_of_nonempty request d data :
  let closes := close <$> (d :: data) in
  let volumes := cd_volume <$> (d :: data) in
  (close d =? 0)%float = false →
  (data ≠ [] → is_ok (population_std closes) = true) →
  ∃ st, statistics_of request (d :: data) = Ok st
    ∧ period st = length (d :: data)
    ∧ current_price st = List.last closes 0%float
    ∧ is_max (highest_price st) closes
    ∧ is_min (lowest_price st) closes
    ∧ average_price st = mean closes
    ∧ price_change st = (List.last closes 0 - close d)%float
    ∧ price_change_percent st
      = ((List.last closes 0 - close d) / close d * 100)%float
    ∧ total_volume st = float_sum volumes
    ∧ average_volume st = mean volumes
    ∧ (data ≠ [] → Ok (volatility st) = population_std closes)
    ∧ (data = [] → volatility st = Float 0).
Proof.
  intros closes volumes Hfirst Hstd.
  rewrite statistics_of_run, Hfirst. fold closes volumes.
  assert (∃ vol, _calculate_volatility closes = Ok vol
                 ∧ (data ≠ [] → Ok vol = population_std closes)
                 ∧ (data = [] → vol = Float 0)) as (vol & -> & Hvol & Hone).
  { destruct data as [|d' data].
    - exists (Float 0). by rewrite calculate_volatility_single by (simpl; lia).
    - specialize (Hstd ltac:(done)).
      rewrite calculate_volatility_population by (simpl; lia).
      destruct (population_std closes) as [vol|e]; [|done].
      by exists vol. }
  eexists. split; [reflexivity|].
  cbn [period current_price highest_price lowest_price average_price
       price_change price_change_percent total_volume average_volume
       volatility].
  split; [done|]. split; [done|].
  split; [apply max_fold_spec|]. split; [apply min_fold_spec|].
  done.
Qed.

(** A first close of zero makes the percentage a division by zero. *)
Lemma statistics_of_zero_first request d data :
  (close d =? 0)%float = true →
  statistics_of request (d :: data)
  = Raise (ZeroDivisionError "float division by zero").
Proof. intros Hfirst. by rewrite statistics_of_run, Hfirst. Qed.

Lemma get_price_statistics_unfold request w :
  get_price_statistics request w
  = match get_ohlcv request w with
    | (Ok data, w') => (statistics_of request data, w')
    | (Raise e, w') => (Raise e, w')
    end.
Proof. reflexivity. Qed.

(** C4 (as amended).  For every non-empty sequence of candles whose first
    close is not zero and whose squared deviations and their root are in
    the range of the floats (no condition for a single candle),
    [get_price_statistics] returns, every figure computed in float
    arithmetic: the last close as current price, a greatest and a least
    close, the mean of the closes, last minus first close as price
    change and (last - first) / first * 100 as its percentage, the sum
    and the mean of the volumes, and as volatility the population
    standard deviation of the closes, 0.0 for a single candle. *)
Theorem price_statistics_correct request w d data w' :
  get_ohlcv request w = (Ok (d :: data), w') →
  (close d =? 0)%float = false →
  let closes := close <$> (d :: data) in
  let volumes := cd_volume <$> (d :: data) in
  (data ≠ [] → is_ok (population_std closes) = true) →
  ∃ st, get_price_statistics request w = (Ok st, w')
    ∧ period st = length (d :: data)
    ∧ current_price st = List.last closes 0%float
    ∧ is_max (highest_price st) closes
    ∧ is_min (lowest_price st) closes
    ∧ average_price st = mean closes
    ∧ price_change st = (List.last closes 0 - close d)%float
    ∧ price_change_percent st
      = ((List.last closes 0 - close d) / close d * 100)%float
    ∧ total_volume st = float_sum volumes
    ∧ average_volume st = mean volumes
    ∧ (data ≠ [] → Ok (volatility st) = population_std closes)
    ∧ (data = [] → volatility st = Float 0).
Proof.
  intros Hget Hfirst closes volumes Hstd.
  destruct (statistics_of_nonempty request d data Hfirst Hstd)
    as (st & Hst & Hrest).
  exists st. split; [|exact Hrest].
  by rewrite get_price_statistics_unfold, Hget, Hst.
Qed.

(** C5.  When the sequence of candles obtained for a statistics request
    is empty, [get_price_statistics] fails with the no-data error, raised
    by the guard that precedes all arithmetic: the failure is not a
    division by zero, and nothing else happens to the world than what
    obtaining the candles did. *)
Theorem empty_series_is_no_data request w :
  (get_ohlcv request w).1 = Ok [] →
  (get_price_statistics request w).1
  = Raise (ValueError "No data available for statistics")
  ∧ (∀ msg, (get_price_statistics request w).1 ≠ Raise (ZeroDivisionError msg))
  ∧ (get_price_statistics request w).2 = (get_ohlcv request w).2.
Proof.
  intros Hget. rewrite get_price_statistics_unfold.
  destruct (get_ohlcv request w) as [r w']. simpl in Hget. by subst r.
Qed.
End Statistics.

(** ** The scenarios, run *)

Section ScenarioFacts.
Local Existing Instance plain_externals.

(** *** Eviction *)

Lemma scenario_full :
  bool_decide (currsize filled_then_read = maxsize filled_then_read) = true.
Proof. vm_compute. reflexivity. Qed.

Lemma scenario_new_key :
  bool_decide ("new" ∉ keys (links filled_then_read)) = true.
Proof. vm_compute. reflexivity. Qed.

Lemma scenario_links_alive :
  forallb (λ x, Z.ltb 3 x.2.2) (links filled_then_read) = true.
Proof. vm_compute. reflexivity. Qed.

Lemma scenario_chain_alive :
  forallb (λ x, Z.ltb 3 x.2) (chain filled_then_read) = true.
Proof. vm_compute. reflexivity. Qed.

Lemma scenario_k0_soonest : expires_soonestb filled_then_read "k0" = true.
Proof. vm_compute. reflexivity. Qed.

Lemma scenario_k1_later : expires_soonestb filled_then_read "k1" = false.
Proof. vm_compute. reflexivity. Qed.

Lemma scenario_k0_kept :
  bool_decide ("k0" ∈ keys (links after_insert)) = true.
Proof. vm_compute. reflexivity. Qed.

Lemma scenario_k1_evicted :
  bool_decide ("k1" ∉ keys (links after_insert)) = true.
Proof. vm_compute. reflexivity. Qed.

Lemma scenario_one_evicted :
  bool_decide (currsize after_insert = currsize filled_then_read) = true.
Proof. vm_compute. reflexivity. Qed.

(** C7, as stated, fails.  The OHLCV category is at its ceiling, nothing
    has expired, and ["k0"] is the entry that expires soonest; because it
    was read last, writing a new key discards ["k1"], which does not
    expire soonest, and keeps ["k0"]. *)
Lemma soonest_expiry_survives_eviction :
  currsize filled_then_read = maxsize filled_then_read
  ∧ ("new" ∉ keys (links filled_then_read))
  ∧ Forall (λ x, 3 < x.2.2)%Z (links filled_then_read)
  ∧ Forall (λ x, 3 < x.2)%Z (chain filled_then_read)
  ∧ expires_soonest filled_then_read "k0"
  ∧ ¬ expires_soonest filled_then_read "k1"
  ∧ "k0" ∈ keys (links after_insert)
  ∧ ("k1" ∉ keys (links after_insert))
  ∧ currsize after_insert = currsize filled_then_read.
Proof.
  split; [exact (bool_decide_eq_true_1 _ scenario_full)|].
  split; [exact (bool_decide_eq_true_1 _ scenario_new_key)|].
  split.
  { apply Forall_forall. intros x Hx%list_elem_of_In.
    pose proof scenario_links_alive as Hall.
    rewrite forallb_forall in Hall. apply Hall in Hx. clear -Hx. lia. }
  split.
  { apply Forall_forall. intros x Hx%list_elem_of_In.
    pose proof scenario_chain_alive as Hall.
    rewrite forallb_forall in Hall. apply Hall in Hx. clear -Hx. lia. }
  split; [apply expires_soonestb_spec; exact scenario_k0_soonest|].
  split.
  { intros Hk%expires_soonestb_spec.
    pose proof scenario_k1_later as Hl. rewrite Hk in Hl. discriminate Hl. }
  split; [exact (bool_decide_eq_true_1 _ scenario_k0_kept)|].
  split; [exact (bool_decide_eq_true_1 _ scenario_k1_evicted)|].
  exact (bool_decide_eq_true_1 _ scenario_one_evicted).
Qed.

(** Without the read, the entry discarded is the head of the full
    category. *)
Lemma full_cache_evicts_least_recently_used_witness :
  ∃ c', setitem filled "new" [] 3%Z = (Ok (), c')
    ∧ links c' = tail (links filled) ++ [("new", ([], (3 + ttl filled)%Z))]
    ∧ currsize c' = maxsize c'
    ∧ (in_order_of_expiry filled → expires_soonest filled "k0").
Proof.
  apply (full_cache_evicts_least_recently_used filled "new" [] 3%Z "k0" [] 60%Z).
  - vm_compute. reflexivity.
  - apply (bool_decide_unpack _). vm_compute. reflexivity.
  - vm_compute. reflexivity.
  - apply (bool_decide_unpack _). vm_compute. reflexivity.
  - apply (bool_decide_unpack _). vm_compute. reflexivity.
  - apply (bool_decide_unpack _). vm_compute. reflexivity.
Defined.

(** *** Cache keys *)

Lemma cache_key_deterministic_witness :
  _generate_key "ticker"
    [("exchange", VStr "binance"); ("symbol", VStr "BTC/USDT")]
  = _generate_key "ticker"
      [("symbol", VStr "BTC/USDT"); ("exchange", VStr "binance")]
  ∧ key_str "ticker"
      (set_value "exchange" (VStr "kraken")
         [("exchange", VStr "binance"); ("symbol", VStr "BTC/USDT")])
    ≠ key_str "ticker"
        [("exchange", VStr "binance"); ("symbol", VStr "BTC/USDT")]
  ∧ render (VInt 100) ≠ render (VInt 101).
Proof.
  split; [|split].
  - apply (proj1 (proj2 cache_key_deterministic)).
    + apply (bool_decide_unpack _). vm_compute. reflexivity.
    + apply Permutation_swap.
  - apply (proj1 (proj2 (proj2 cache_key_deterministic)) "ticker" _ "exchange"
             (VStr "binance")).
    + apply (bool_decide_unpack _). vm_compute. reflexivity.
    + reflexivity.
    + discriminate.
  - apply (proj2 (proj2 (proj2 cache_key_deterministic))).
    + reflexivity.
    + discriminate.
Defined.

(** An integer and a string with the same text are written alike. *)
Example render_int_like_str : render (VInt 100) = render (VStr "100").
Proof. reflexivity. Qed.

(** The text of a [KeyError] is the key as [repr] writes it. *)
Example key_error_text :
  str_exn (KeyError "last") = "'last'"
  ∧ str_exn (KeyError "it's")
    = String double_quote ("it's" +:+ String double_quote EmptyString).
Proof. by split_and!. Qed.

Example ticker_key_string :
  key_str "ticker" [("symbol", VStr "BTC/USDT"); ("exchange", VStr "binance")]
  = "ticker:exchange=binance:symbol=BTC/USDT".
Proof. reflexivity. Qed.

Example ohlcv_key_string :
  key_str "ohlcv" [("exchange", VStr "binance"); ("symbol", VStr "BTC/USDT");
                   ("timeframe", VStr "1h"); ("limit", VInt 100)]
  = "ohlcv:exchange=binance:limit=100:symbol=BTC/USDT:timeframe=1h".
Proof. reflexivity. Qed.

(** *** Symbol search *)

Lemma search_symbols_sorted_prefix_witness :
  ∃ result,
    search_symbols "usdt" "Binance" demo_world = (Ok result, demo_world)
    ∧ length result ≤ 50
    ∧ StronglySorted String.le result
    ∧ (∀ s, s ∈ result
            → s ∈ keys [("BTC/USDT", mkMarket "BTCUSDT");
                        ("ETH/USDT", mkMarket "ETHUSDT")]
              ∧ str_in (upper "usdt") s)
    ∧ ∃ rest,
        result ++ rest
        ≡ₚ matching "usdt" [("BTC/USDT", mkMarket "BTCUSDT");
                            ("ETH/USDT", mkMarket "ETHUSDT")]
        ∧ (∀ x y, x ∈ result → y ∈ rest → String.le x y)
        ∧ (rest ≠ [] → length result = 50).
Proof.
  apply (search_symbols_sorted_prefix "usdt" "Binance" demo_world
           (demo_handle BINANCE)).
  - vm_compute. reflexivity.
  - reflexivity.
  - discriminate.
Defined.

Example search_symbols_demo :
  (search_symbols "usdt" "Binance" demo_world).1 = Ok ["BTC/USDT"; "ETH/USDT"].
Proof. vm_compute. reflexivity. Qed.

(** *** Fan-out *)

(** Binance and Huobi answer, Kraken does not. *)
Example fan_out_partial_failure :
  match (get_multi_exchange_ticker "btc/usdt" (Some [BINANCE; KRAKEN; HUOBI])
           demo_world).1 with
  | Ok m => dom m = {["binance"; "huobi"]}
  | Raise _ => False
  end.
Proof. vm_compute. reflexivity. Qed.

Example fan_out_all_fail :
  match (get_multi_exchange_ticker "btc/usdt" (Some [KRAKEN; KRAKEN])
           demo_world).1 with
  | Ok m => m = ∅
  | Raise _ => False
  end.
Proof. vm_compute. reflexivity. Qed.

Lemma multi_exchange_ticker_partial_failure_witness :
  str_in "/" "btc/usdt" = true
  ∧ ∃ m, get_multi_exchange_ticker "btc/usdt" (Some [BINANCE; KRAKEN; HUOBI])
           demo_world
         = (Ok m, (sub_query_outcomes
                     (mkMarketDataRequest "BTC/USDT"
                        <$> [BINANCE; KRAKEN; HUOBI]) demo_world).2)
         ∧ ∀ id, id ∈ dom m
                 ↔ ∃ i e data,
                     [BINANCE; KRAKEN; HUOBI] !! i = Some e
                     ∧ (sub_query_outcomes
                          (mkMarketDataRequest "BTC/USDT"
                             <$> [BINANCE; KRAKEN; HUOBI]) demo_world).1 !! i
                       = Some (Ok data)
                     ∧ Exchange_value e = id.
Proof.
  split; [reflexivity|].
  exact (multi_exchange_ticker_partial_failure "btc/usdt"
           (Some [BINANCE; KRAKEN; HUOBI]) demo_world eq_refl).
Defined.

(** C1, as stated, fails for a symbol without separator: the requests are
    built before any sub-query is guarded, and the whole operation raises
    the validation error instead of returning a mapping. *)
Lemma invalid_symbol_aborts_fan_out :
  get_multi_exchange_ticker "BTCUSDT" (Some [BINANCE; KRAKEN]) demo_world
  = (Raise (ValidationError
              "Symbol must be in format BASE/QUOTE (e.g., BTC/USDT)"),
     demo_world).
Proof. reflexivity. Qed.

(** *** Cache hits *)

(** Two identical ticker requests: one upstream fetch. *)
Example ticker_two_requests_one_fetch :
  calls (get_ticker btc_binance after_first_ticker).2
  = [ticker_call btc_binance].
Proof. vm_compute. reflexivity. Qed.

(** Two identical requests for candles, the upstream has none: two
    upstream fetches, although the second request comes before the entry
    written by the first has expired. *)
Lemma get_ohlcv_refetches_cached_empty_list_witness :
  calls after_first_request = [ohlcv_call btc_1h]
  ∧ assoc (ohlcv_key "binance" "BTC/USDT" "1h" 100)
          (links (ohlcv_cache (caches after_first_request)))
    = Some ([], 61%Z)
  ∧ (now after_first_request < 61)%Z
  ∧ calls (get_ohlcv btc_1h after_first_request).2
    = [ohlcv_call btc_1h; ohlcv_call btc_1h].
Proof.
  assert (assoc (ohlcv_key "binance" "BTC/USDT" "1h" 100)
            (links (ohlcv_cache (caches after_first_request)))
          = Some ([], 61%Z)) as Hk by (vm_compute; reflexivity).
  assert (now after_first_request < 61)%Z as Ht by (vm_compute; reflexivity).
  assert (calls after_first_request = [ohlcv_call btc_1h]) as Hc
    by (vm_compute; reflexivity).
  split; [exact Hc|]. split; [exact Hk|]. split; [exact Ht|].
  rewrite (get_ohlcv_refetches_cached_empty_list btc_1h after_first_request
             61%Z (demo_handle BINANCE) Hk Ht).
  - by rewrite Hc.
  - vm_compute. reflexivity.
  - reflexivity.
Defined.

(** *** Counters *)

Lemma request_and_error_counters_witness :
  let ops := [(0, ReadTicker kraken_btc); (1, ReadOrderbook btc_binance 20%Z);
              (1, ReadTicker btc_binance); (1, ReadTicker btc_binance)] in
  (run_reads ops demo_world).1 = 2
  ∧ request_count (server (run_reads ops demo_world).2) = 0 + 4
  ∧ error_count (server (run_reads ops demo_world).2)
    = 0 + (run_reads ops demo_world).1.
Proof.
  intros ops. split; [vm_compute; reflexivity|].
  exact (proj1 (proj2 (proj2 (proj2 request_and_error_counters)))
           ops demo_world).
Defined.

(** *** Statistics *)

Lemma empty_series_is_no_data_witness :
  (get_ohlcv btc_1h demo_world).1 = Ok []
  ∧ (get_price_statistics btc_1h demo_world).1
    = Raise (ValueError "No data available for statistics").
Proof.
  assert ((get_ohlcv btc_1h demo_world).1 = Ok []) as Hget
    by (vm_compute; reflexivity).
  split; [exact Hget|].
  exact (proj1 (empty_series_is_no_data btc_1h demo_world Hget)).
Defined.

(** C4, as stated, fails for a non-empty sequence whose first close is
    zero: no statistics are returned, the percentage divides by zero. *)
Lemma zero_first_close_divides_by_zero :
  (get_ohlcv eth_1h demo_world).1 = Ok zero_first_candles
  ∧ (get_price_statistics eth_1h demo_world).1
    = Raise (ZeroDivisionError "float division by zero").
Proof.
  split; [reflexivity|].
  rewrite get_price_statistics_unfold.
  assert (get_ohlcv eth_1h demo_world
          = (Ok zero_first_candles, (get_ohlcv eth_1h demo_world).2)) as ->
    by reflexivity.
  cbn [fst]. by apply statistics_of_zero_first.
Qed.

Lemma price_statistics_correct_witness :
  (get_ohlcv sol_1h demo_world).1 = Ok rising_candles
  ∧ ∃ st, (get_price_statistics sol_1h demo_world).1 = Ok st
          ∧ current_price st = 2%float
          ∧ average_price st = 1.5%float
          ∧ price_change_percent st = 100%float
          ∧ total_volume st = 4%float
          ∧ volatility st = Float 0.5.
Proof.
  split; [reflexivity|].
  destruct (price_statistics_correct sol_1h demo_world
              rising_first [rising_second]
              (get_ohlcv sol_1h demo_world).2)
    as (st & Hst & _ & Hcur & _ & _ & Havg & _ & Hpct & Hvol & _ & Hstd & _).
  - reflexivity.
  - reflexivity.
  - intros _. reflexivity.
  - exists st. rewrite Hst. split; [reflexivity|].
    split; [exact Hcur|]. split; [exact Havg|]. split; [exact Hpct|].
    split; [exact Hvol|].
    assert (Ok (volatility st) = Ok (Float 0.5)) as Heq by (by apply Hstd).
    by injection Heq.
Defined.

(** The figures of the worked example: closes 100, 105, 103, 107, 104.
    The mean and the percentage are the floats nearest to 103.8 and 4;
    the volatility is the population figure, the root of 5.36 up to
    rounding, not the sample figure, the root of 6.7. *)
Lemma worked_example :
  let closes := [100; 105; 103; 107; 104]%float in
  mean closes = 103.8%float
  ∧ ((List.last closes 0 - 100) / 100 * 100 = 4)%float
  ∧ population_std closes = Ok (Float 2.3151673805580453)
  ∧ sample_std closes = Ok (Float 2.5884358211089569).
Proof. vm_compute. by split_and!. Qed.

Lemma worked_example_statistics :
  ∃ st, statistics_of sol_1h example_candles = Ok st
        ∧ average_price st = 103.8%float
        ∧ price_change_percent st = 4%float
        ∧ volatility st = Float 2.3151673805580453.
Proof. eexists. split; [vm_compute; reflexivity|]. by split_and!. Qed.

(** Every figure is rounded: for three closes of 0.1 the average is not
    0.1 (it exceeds the highest price) and the volatility is not 0. *)
Lemma statistics_are_rounded :
  ∃ st, statistics_of sol_1h flat_candles = Ok st
        ∧ highest_price st = 0.1%float
        ∧ average_price st = 0.10000000000000002%float
        ∧ (highest_price st <? average_price st)%float = true
        ∧ volatility st = Float 1.3877787807814457e-17.
Proof. eexists. split; [vm_compute; reflexivity|]. by split_and!. Qed.

(** A squared deviation out of the range of the floats makes the
    volatility, and with it the statistics, fail. *)
Lemma statistics_overflow :
  statistics_of sol_1h huge_candles
  = Raise (OverflowError "(34, 'Numerical result out of range')").
Proof. vm_compute. reflexivity. Qed.

(** *** The order-book category *)

Lemma orderbook_never_cached_witness :
  cache (server (get_orderbook btc_binance 20%Z after_first_ticker).2)
  = cache (server after_first_ticker)
  ∧ calls (get_orderbook btc_binance 20%Z after_first_ticker).2
    = calls after_first_ticker ++ [orderbook_call btc_binance 20%Z].
Proof.
  split.
  - apply (proj1 orderbook_never_cached).
  - apply (proj1 (proj2 orderbook_never_cached) btc_binance 20%Z
             after_first_ticker (demo_handle BINANCE)).
    + vm_compute. reflexivity.
    + reflexivity.
Defined.

Example orderbook_request_goes_upstream :
  calls (get_orderbook btc_binance 20%Z after_first_ticker).2
  = [ticker_call btc_binance; orderbook_call btc_binance 20%Z].
Proof. vm_compute. reflexivity. Qed.

End ScenarioFacts.

(** ** Request models *)

Lemma upper_ascii_idemp c : upper_ascii (upper_ascii c) = upper_ascii c.
Proof. by destruct c as [[] [] [] [] [] [] [] []]. Qed.

Lemma upper_idemp s : upper (upper s) = upper s.
Proof.
  induction s as [|c s IH]; simpl; [done|]. by rewrite upper_ascii_idemp, IH.
Qed.

Lemma lower_ascii_idemp c : lower_ascii (lower_ascii c) = lower_ascii c.
Proof. by destruct c as [[] [] [] [] [] [] [] []]. Qed.

Lemma lower_idemp s : lower (lower s) = lower s.
Proof.
  induction s as [|c s IH]; simpl; [done|]. by rewrite lower_ascii_idemp, IH.
Qed.

Lemma upper_ascii_slash c :
  bool_decide (upper_ascii c = "/"%char) = bool_decide (c = "/"%char).
Proof. by destruct c as [[] [] [] [] [] [] [] []]. Qed.

Lemma count_char_upper s : count_char "/" (upper s) = count_char "/" s.
Proof.
  induction s as [|c s IH]; simpl; [done|]. rewrite IH. f_equal.
  pose proof (upper_ascii_slash c) as Hc.
  repeat case_decide; done.
Qed.

Lemma str_in_slash_upper s : str_in "/" (upper s) = str_in "/" s.
Proof.
  destruct (str_in "/" s) eqn:Hs.
  - apply str_in_char. rewrite count_char_upper. by apply str_in_char.
  - destruct (str_in "/" (upper s)) eqn:Hu; [|done].
    apply str_in_char in Hu. rewrite count_char_upper in Hu.
    apply str_in_char in Hu. congruence.
Qed.

(** X1.  A stored symbol is a fixed point of the validator. *)
Theorem validated_symbol_is_stable s e r :
  MarketDataRequest_init s e = Ok r →
  MarketDataRequest_init (symbol r) (exchange r) = Ok r
  ∧ str_in "/" (symbol r) = true
  ∧ upper (symbol r) = symbol r.
Proof.
  unfold MarketDataRequest_init, validate_symbol.
  destruct (str_in "/" s) eqn:Hs; simpl; [|done].
  intros [= <-]. simpl. rewrite str_in_slash_upper, Hs, upper_idemp. done.
Qed.

Lemma validated_symbol_is_stable_witness :
  MarketDataRequest_init "Btc/usdt" KRAKEN
  = Ok (mkMarketDataRequest "BTC/USDT" KRAKEN)
  ∧ MarketDataRequest_init "BTC/USDT" KRAKEN
    = Ok (mkMarketDataRequest "BTC/USDT" KRAKEN).
Proof.
  split; [reflexivity|].
  exact (proj1 (validated_symbol_is_stable "Btc/usdt" KRAKEN
                  (mkMarketDataRequest "BTC/USDT" KRAKEN) eq_refl)).
Defined.

Section Requests.
Context `{Externals}.

(** X2.  Constructing a [HistoricalDataRequest] succeeds exactly when the
    symbol contains a separator and the limit lies between 1 and 1000,
    both bounds included; the request then holds the upper-cased symbol
    and the other arguments as they were given. *)
Theorem historical_request_limit_bounds s e tf l snc r :
  HistoricalDataRequest_init s e tf l snc = Ok r
  ↔ str_in "/" s = true ∧ (1 ≤ l ≤ 1000)%Z
    ∧ r = mkHistoricalDataRequest (mkMarketDataRequest (upper s) e) tf l snc.
Proof.
  unfold HistoricalDataRequest_init, MarketDataRequest_init, validate_symbol.
  destruct (str_in "/" s); simpl.
  - destruct (bool_decide (1 ≤ l)%Z) eqn:H1;
      destruct (bool_decide (l ≤ 1000)%Z) eqn:H2; simpl;
      try apply bool_decide_eq_true in H1; try apply bool_decide_eq_true in H2;
      try apply bool_decide_eq_false in H1; try apply bool_decide_eq_false in H2.
    + split; [by intros [= <-]|by intros (_ & _ & ->)].
    + split; [done|]. intros (_ & [? ?] & _). done.
    + split; [done|]. intros (_ & [? ?] & _). done.
    + split; [done|]. intros (_ & [? ?] & _). done.
  - split; [done|]. by intros [? _].
Qed.
End Requests.

(** ** The cache container: what assignments and lookups maintain *)

Section AssocFacts.
Context {X : Type}.
Implicit Types (l : list (string * X)) (k : string).

Lemma elem_of_remove_key k k' (x : X) l :
  (k', x) ∈ remove_key k l ↔ k' ≠ k ∧ (k', x) ∈ l.
Proof.
  induction l as [|[k1 y] l IH]; simpl.
  - split; [by intros ?%elem_of_nil|by intros [_ ?%elem_of_nil]].
  - destruct (decide (k = k1)) as [->|Hne].
    + rewrite IH, elem_of_cons. split; [tauto|].
      intros [Hk [[= ? ?]|?]]; [congruence|done].
    + rewrite !elem_of_cons, IH. split; [|tauto].
      intros [[= -> ->]|[? ?]]; [split; [congruence|by left]|tauto].
Qed.

Lemma keys_remove_key k k' l :
  k' ∈ keys (remove_key k l) ↔ k' ≠ k ∧ k' ∈ keys l.
Proof.
  unfold keys. rewrite !list_elem_of_fmap. split.
  - intros ([k1 x] & -> & Hin). apply elem_of_remove_key in Hin as [? ?].
    split; [done|]. by exists (k1, x).
  - intros [Hne ([k1 x] & -> & Hin)]. exists (k1, x). split; [done|].
    by apply elem_of_remove_key.
Qed.

Lemma NoDup_remove_key k l : NoDup (keys l) → NoDup (keys (remove_key k l)).
Proof.
  unfold keys. induction l as [|[k1 y] l IH]; simpl; [done|].
  intros [Hk1 Hl]%NoDup_cons. destruct (decide (k = k1)); [by apply IH|].
  simpl. apply NoDup_cons. split; [|by apply IH].
  intros Hin. apply keys_remove_key in Hin as [_ ?]. done.
Qed.

Lemma length_remove_key_present k l :
  NoDup (keys l) → k ∈ keys l → S (length (remove_key k l)) = length l.
Proof.
  unfold keys. induction l as [|[k1 y] l IH]; simpl.
  - by intros _ ?%elem_of_nil.
  - intros [Hk1 Hl]%NoDup_cons Hin. destruct (decide (k = k1)) as [->|Hne].
    + by rewrite remove_key_absent.
    + simpl. f_equal. apply IH; [done|].
      by apply elem_of_cons in Hin as [?|?].
Qed.

Lemma remove_key_sublist k l : sublist (remove_key k l) l.
Proof.
  induction l as [|[k1 y] l IH]; simpl; [done|].
  destruct (decide (k = k1)); by constructor.
Qed.

Lemma assoc_Some_NoDup k (x : X) l :
  NoDup (keys l) → (k, x) ∈ l → assoc k l = Some x.
Proof.
  unfold keys. induction l as [|[k1 y] l IH]; simpl.
  - by intros _ ?%elem_of_nil.
  - intros [Hk1 Hl]%NoDup_cons [[= -> ->]|Hin]%elem_of_cons.
    + by rewrite decide_True.
    + rewrite decide_False; [by apply IH|]. intros ->. apply Hk1.
      apply list_elem_of_fmap. by exists (k1, x).
Qed.

Lemma assoc_keys k (x : X) l : assoc k l = Some x → k ∈ keys l.
Proof.
  intros Hk%assoc_elem_of. unfold keys. apply list_elem_of_fmap.
  by exists (k, x).
Qed.
End AssocFacts.

Section Maintained.
Context {V : Type}.
Implicit Types (c : TTLCache V) (k : string) (t : time).

Lemma well_formed_mono c t t' :
  well_formed c t → (t ≤ t')%Z → well_formed c t'.
Proof.
  intros (? & ? & ? & ? & Hb & ?) Hle. split_and!; try done.
  eapply Forall_impl; [exact Hb|]. simpl. intros; lia.
Qed.

Lemma well_formed_new n tl t : well_formed (new (V:=V) n tl) t.
Proof.
  unfold well_formed, new, keys, currsize. simpl.
  split_and!; [constructor|constructor| |constructor|constructor|lia].
  intros k' e'. split; [by intros ?%elem_of_nil|by intros [? ?%elem_of_nil]].
Qed.

Lemma well_formed_clear c t : well_formed (clear c) t.
Proof.
  unfold well_formed, clear, keys, currsize. simpl.
  split_and!; [constructor|constructor| |constructor|constructor|lia].
  intros k' e'. split; [by intros ?%elem_of_nil|by intros [? ?%elem_of_nil]].
Qed.

(** The entries of [links] are alive when those of [chain] are. *)
Lemma links_alive c t t0 :
  well_formed c t0 → all_alive c t → Forall (λ x, t < x.2.2)%Z (links c).
Proof.
  intros (_ & _ & Hiff & _) Hch. apply Forall_forall. intros [k [v e]] Hin.
  simpl. unfold all_alive in Hch. rewrite Forall_forall in Hch.
  apply (Hch (k, e)). apply Hiff. by exists v.
Qed.

(** One step of the walk of [expire]. *)
Lemma expire_walk_maintains t (tl : time) t0 ch (lnk : list (string * (V * time))) :
  NoDup (keys lnk) → NoDup (keys ch) →
  (∀ k e, (k, e) ∈ ch ↔ ∃ v, (k, (v, e)) ∈ lnk) →
  StronglySorted (λ x y, x.2 ≤ y.2)%Z ch →
  Forall (λ x, x.2 ≤ t0 + tl)%Z ch →
  let '(ch', lnk') := expire_walk t ch lnk in
  NoDup (keys lnk') ∧ NoDup (keys ch')
  ∧ (∀ k e, (k, e) ∈ ch' ↔ ∃ v, (k, (v, e)) ∈ lnk')
  ∧ StronglySorted (λ x y, x.2 ≤ y.2)%Z ch'
  ∧ Forall (λ x, x.2 ≤ t0 + tl)%Z ch'
  ∧ Forall (λ x, t < x.2)%Z ch'
  ∧ length lnk' ≤ length lnk.
Proof.
  revert lnk. induction ch as [|[k e] ch IH]; intros lnk Hnl Hnc Hiff Hs Hb.
  { simpl. split_and!; try done; constructor. }
  simpl. case_bool_decide as Halive.
  - split_and!; try done.
    apply StronglySorted_inv in Hs as [_ Hall]. constructor; [done|].
    eapply Forall_impl; [exact Hall|]. simpl. intros; lia.
  - unfold keys in Hnc. simpl in Hnc. apply NoDup_cons in Hnc as [Hk Hnc].
    apply StronglySorted_inv in Hs as [Hs _].
    apply Forall_cons in Hb as [_ Hb].
    specialize (IH (remove_key k lnk)).
    destruct (expire_walk t ch (remove_key k lnk)) as [ch' lnk'].
    destruct IH as (? & ? & ? & ? & ? & ? & Hlen); try done.
    + by apply NoDup_remove_key.
    + intros k' e'. split.
      * intros Hin. assert (k' ≠ k) as Hne.
        { intros ->. apply Hk. apply list_elem_of_fmap. by exists (k, e'). }
        destruct (proj1 (Hiff k' e')) as [v Hv]; [by right|].
        exists v. by apply elem_of_remove_key.
      * intros [v [Hne Hv]%elem_of_remove_key].
        assert ((k', e') ∈ (k, e) :: ch) as Hin by (apply Hiff; eauto).
        apply elem_of_cons in Hin as [[= ? ?]|Hin]; [congruence|done].
    + split_and!; try done.
      etrans; [exact Hlen|]. apply length_remove_key.
Qed.

Lemma ttl_expire c t : ttl (expire c t) = ttl c.
Proof. unfold expire. by destruct (expire_walk _ _ _). Qed.

(** [expire] maintains the container and leaves live entries only. *)
Lemma expire_maintains c t t0 :
  well_formed c t0 → well_formed (expire c t) t0 ∧ all_alive (expire c t) t.
Proof.
  intros (Hnl & Hnc & Hiff & Hs & Hb & Hsz).
  pose proof (expire_walk_maintains t (ttl c) t0 (chain c) (links c)
                Hnl Hnc Hiff Hs Hb) as Hw.
  pose proof (maxsize_expire c t) as Hmax.
  pose proof (ttl_expire c t) as Httl.
  unfold expire in *. destruct (expire_walk t (chain c) (links c)) as [ch' lnk'].
  destruct Hw as (? & ? & ? & ? & ? & ? & Hlen).
  unfold well_formed, all_alive, currsize in *. simpl in *.
  split_and!; try done. lia.
Qed.

(** A lookup only changes the order of use. *)
Lemma move_to_end_maintains c k t :
  well_formed c t → well_formed (move_to_end c k) t.
Proof.
  intros Hwf. unfold move_to_end.
  destruct (assoc k (links c)) as [x|] eqn:Hk; [|done].
  destruct Hwf as (Hnl & Hnc & Hiff & Hs & Hb & Hsz).
  pose proof (assoc_elem_of _ _ _ Hk) as Hin.
  pose proof (assoc_keys _ _ _ Hk) as Hkin.
  assert (∀ k' y, (k', y) ∈ remove_key k (links c) ++ [(k, x)]
                  ↔ (k', y) ∈ links c) as Hmem.
  { intros k' y. rewrite elem_of_app, elem_of_remove_key, list_elem_of_singleton.
    split.
    - intros [[_ ?]|[= -> ->]]; done.
    - intros Hy. destruct (decide (k' = k)) as [->|]; [|by left].
      right. f_equal.
      pose proof (assoc_Some_NoDup _ _ _ Hnl Hy). congruence. }
  unfold well_formed, currsize. simpl. split_and!; try done.
  - unfold keys. rewrite fmap_app. simpl. apply NoDup_app.
    split; [by apply NoDup_remove_key|]. split.
    + intros k' Hk' ->%list_elem_of_singleton.
      by apply keys_remove_key in Hk' as [? _].
    + apply NoDup_singleton.
  - intros k' e'. rewrite Hiff. by setoid_rewrite Hmem.
  - rewrite length_app. simpl.
    pose proof (length_remove_key_present k (links c) Hnl Hkin).
    unfold currsize in Hsz. lia.
Qed.

Lemma get_maintains c k t t' :
  well_formed c t → well_formed (get c k t').2 t.
Proof.
  intros Hwf. unfold get, getitem.
  destruct (contains c k t'); [|done].
  destruct (assoc k (links c)) as [[v e]|]; [|done].
  case_bool_decide; simpl; by apply move_to_end_maintains.
Qed.

Lemma get_config c k t :
  maxsize (get c k t).2 = maxsize c ∧ ttl (get c k t).2 = ttl c.
Proof.
  unfold get, getitem, move_to_end.
  destruct (contains c k t); [|done].
  destruct (assoc k (links c)) as [[v e]|]; [|done].
  by case_bool_decide.
Qed.

Lemma len_maintains c t t0 :
  well_formed c t0 → well_formed (len c t).2 t0.
Proof. intros Hwf. unfold len. simpl. by apply expire_maintains. Qed.

Lemma popitem_config c t :
  maxsize (popitem c t).2 = maxsize c ∧ ttl (popitem c t).2 = ttl c.
Proof.
  unfold popitem. pose proof (maxsize_expire c t) as Hm.
  pose proof (ttl_expire c t) as Ht.
  set (c1 := expire c t) in *. clearbody c1.
  destruct (links c1) as [|[k [v e]] rest] eqn:Hl; [done|].
  unfold pop, contains, getitem, move_to_end, delitem. rewrite Hl. simpl.
  rewrite !decide_True by done.
  case_bool_decide; [|done]. simpl.
  destruct (assoc k _) as [[v' e']|]; [|done].
  by case_bool_decide.
Qed.

Lemma make_room_config fuel c t :
  maxsize (make_room fuel c t).2 = maxsize c
  ∧ ttl (make_room fuel c t).2 = ttl c.
Proof.
  revert c. induction fuel as [|fuel IH]; intros c; simpl.
  { by destruct (maxsize c <? currsize c + 1)%nat. }
  destruct (maxsize c <? currsize c + 1)%nat; [|done].
  pose proof (popitem_config c t) as [Hm Ht].
  destruct (popitem c t) as [[x|e] c']; simpl in *; [|done].
  destruct (IH c') as [-> ->]. done.
Qed.

(** A successful assignment stores the value with the time to live
    counted from the time of the assignment. *)
Lemma setitem_stores c k v t c' :
  setitem c k v t = (Ok (), c') →
  assoc k (links c') = Some (v, (t + ttl c)%Z)
  ∧ ttl c' = ttl c ∧ maxsize c' = maxsize c.
Proof.
  unfold setitem. pose proof (maxsize_expire c t) as Hm.
  pose proof (ttl_expire c t) as Ht.
  set (c1 := expire c t) in *. clearbody c1.
  destruct (maxsize c1 <? 1)%nat; [done|].
  destruct (bool_decide (k ∈ keys (links c1))).
  - intros [= <-]. simpl. rewrite Ht, Hm. split; [|done].
    apply assoc_snoc, remove_key_removes.
  - pose proof (make_room_config (S (currsize c1)) c1 t) as [Hm2 Ht2].
    destruct (make_room (S (currsize c1)) c1 t) as [[[]|e] c2]; [|done].
    intros [= <-]. simpl in *. rewrite Ht2, Hm2, Ht, Hm. split; [|done].
    apply assoc_snoc, remove_key_removes.
Qed.
End Maintained.

Section AssocOrder.
Context {X : Type}.
Implicit Types (l : list (string * X)) (k : string).

Lemma Forall_remove_key (P : string * X → Prop) k l :
  Forall P l → Forall P (remove_key k l).
Proof.
  rewrite !Forall_forall. intros Hall [k' x] [_ Hin]%elem_of_remove_key. auto.
Qed.

Lemma StronglySorted_remove_key (R : relation (string * X)) k l :
  StronglySorted R l → StronglySorted R (remove_key k l).
Proof.
  induction 1 as [|[k1 y] l Hl IH Hall]; simpl; [constructor|].
  destruct (decide (k = k1)); [done|].
  constructor; [done|]. by apply Forall_remove_key.
Qed.
End AssocOrder.

Section Assignment.
Context {V : Type}.
Implicit Types (c : TTLCache V) (k : string) (t : time).

Lemma make_room_fits fuel c t :
  currsize c + 1 ≤ maxsize c → make_room fuel c t = (Ok (), c).
Proof.
  intros Hfit.
  assert ((maxsize c <? currsize c + 1)%nat = false) as Hno
    by (apply Nat.ltb_ge; lia).
  destruct fuel; simpl; by rewrite Hno.
Qed.

(** Discarding the least recently used entry of a container without
    expired entries. *)
Lemma popitem_maintains c t t0 k0 v0 e0 rest :
  well_formed c t0 → all_alive c t →
  links c = (k0, (v0, e0)) :: rest →
  ∃ c', popitem c t = (Ok (k0, v0), c')
        ∧ well_formed c' t0 ∧ all_alive c' t
        ∧ links c' = rest
        ∧ maxsize c' = maxsize c ∧ ttl c' = ttl c.
Proof.
  intros Hwf Halive Hl.
  pose proof (links_alive c t t0 Hwf Halive) as Hla.
  destruct Hwf as (Hnl & Hnc & Hiff & Hs & Hb & Hsz).
  rewrite Hl in Hnl, Hla, Hiff. unfold keys in Hnl. simpl in Hnl.
  apply NoDup_cons in Hnl as [Hk0 Hnl].
  apply Forall_cons in Hla as [He0 _]. simpl in He0.
  eexists. split; [by apply (popitem_alive c t k0 v0 e0 rest)|].
  unfold well_formed, all_alive, currsize in *. simpl.
  split_and!; try done.
  - by apply NoDup_remove_key.
  - intros k e. rewrite elem_of_remove_key, Hiff. split.
    + intros [Hne [v [[= ? ? ?]|Hin]%elem_of_cons]]; [done|by exists v].
    + intros [v Hin]. split; [|exists v; by right].
      intros ->. apply Hk0. apply list_elem_of_fmap. by exists (k0, (v, e)).
  - by apply StronglySorted_remove_key.
  - by apply Forall_remove_key.
  - rewrite Hl in Hsz. simpl in Hsz. lia.
  - by apply Forall_remove_key.
Qed.

(** Writing the entry of [k] at the end of both lists. *)
Lemma assign_maintains c k v t :
  well_formed c t →
  k ∈ keys (links c) ∨ currsize c + 1 ≤ maxsize c →
  well_formed
    (mkTTLCache (maxsize c) (ttl c)
       (remove_key k (links c) ++ [(k, (v, (t + ttl c)%Z))])
       (remove_key k (chain c) ++ [(k, (t + ttl c)%Z)])) t.
Proof.
  intros (Hnl & Hnc & Hiff & Hs & Hb & Hsz) Hroom.
  unfold well_formed, currsize in *. simpl. split_and!.
  - unfold keys. rewrite fmap_app. simpl. apply NoDup_app.
    split; [by apply NoDup_remove_key|]. split; [|apply NoDup_singleton].
    intros k' Hk' ->%list_elem_of_singleton.
    by apply keys_remove_key in Hk' as [? _].
  - unfold keys. rewrite fmap_app. simpl. apply NoDup_app.
    split; [by apply NoDup_remove_key|]. split; [|apply NoDup_singleton].
    intros k' Hk' ->%list_elem_of_singleton.
    by apply keys_remove_key in Hk' as [? _].
  - intros k' e'. rewrite elem_of_app, elem_of_remove_key, list_elem_of_singleton.
    rewrite Hiff. split.
    + intros [[Hne [v' Hin]]|[= -> ->]].
      * exists v'. apply elem_of_app. left. by apply elem_of_remove_key.
      * exists v. apply elem_of_app. right. by apply list_elem_of_singleton.
    + intros [v' [[Hne Hin]%elem_of_remove_key|[= -> -> ->]%list_elem_of_singleton]%elem_of_app];
        [left; eauto|by right].
  - apply StronglySorted_app_2.
    + intros [k1 e1] x2 [_ Hx1]%elem_of_remove_key ->%list_elem_of_singleton.
      simpl. rewrite Forall_forall in Hb. apply (Hb (k1, e1) Hx1).
    + by apply StronglySorted_remove_key.
    + repeat constructor.
  - apply Forall_app. split; [by apply Forall_remove_key|].
    constructor; [simpl; lia|constructor].
  - rewrite length_app. simpl. destruct Hroom as [Hin|Hfit].
    + pose proof (length_remove_key_present k (links c) Hnl Hin). lia.
    + pose proof (length_remove_key k (links c)). lia.
Qed.

(** An assignment to a well-formed container with room for at least one
    entry never fails, and leaves a well-formed container. *)
Lemma setitem_maintains c k v t t0 :
  well_formed c t0 → (t0 ≤ t)%Z → 1 ≤ maxsize c →
  ∃ c', setitem c k v t = (Ok (), c') ∧ well_formed c' t.
Proof.
  intros Hwf0 Hle Hmax.
  assert (well_formed c t) as Hwf by (by eapply well_formed_mono).
  destruct (expire_maintains c t t Hwf) as [Hwf1 Halive1].
  unfold setitem. pose proof (maxsize_expire c t) as Hm.
  set (c1 := expire c t) in *. clearbody c1.
  assert ((maxsize c1 <? 1)%nat = false) as -> by (apply Nat.ltb_ge; lia).
  case_bool_decide as Hk.
  - eexists. split; [done|]. apply assign_maintains; [done|by left].
  - destruct (decide (currsize c1 + 1 ≤ maxsize c1)) as [Hfit|Hfull].
    + rewrite make_room_fits by done.
      eexists. split; [done|]. apply assign_maintains; [done|by right].
    + destruct (links c1) as [|[k0 [v0 e0]] rest] eqn:Hl.
      { unfold currsize in Hfull. rewrite Hl in Hfull. simpl in Hfull. lia. }
      destruct (popitem_maintains c1 t t k0 v0 e0 rest Hwf1 Halive1 Hl)
        as (c2 & Hpop & Hwf2 & Halive2 & Hl2 & Hm2 & Ht2).
      assert (currsize c2 + 1 ≤ maxsize c2) as Hfit2.
      { destruct Hwf1 as (_ & _ & _ & _ & _ & Hsz).
        unfold currsize in *. rewrite Hl2, Hm2. rewrite Hl in Hsz.
        simpl in Hsz. lia. }
      cbn [make_room].
      assert ((maxsize c1 <? currsize c1 + 1)%nat = true) as ->
        by (apply Nat.ltb_lt; lia).
      rewrite Hpop, make_room_fits by done.
      eexists. split; [done|]. apply assign_maintains; [done|by right].
Qed.
End Assignment.

(** ** Invariants of the server *)

Section Keeps.
Context `{Externals}.
Context (P : World → Prop).

Lemma keeps_ret {A} (a : A) : keeps P (ret a).
Proof. by intros w. Qed.

Lemma keeps_mret {A} (a : A) : keeps P (mret a).
Proof. by intros w. Qed.

Lemma keeps_raise {A} e : keeps P (raise (A:=A) e).
Proof. by intros w. Qed.

Lemma keeps_lift {A} (r : result A) : keeps P (lift r).
Proof. by intros w. Qed.

Lemma keeps_mbind {A B} (m : M A) (k : A → M B) :
  keeps P m → (∀ a, keeps P (k a)) → keeps P (m ≫= k).
Proof.
  intros Hm Hk w Hw. rewrite mbind_unfold. specialize (Hm w Hw).
  destruct (m w) as [[a|e] w']; simpl in *; [|done].
  by apply Hk.
Qed.

Lemma keeps_try_except {A} (m : M A) (h : exn → M A) :
  keeps P m → (∀ e, keeps P (h e)) → keeps P (try_except m h).
Proof.
  intros Hm Hh w Hw. unfold try_except. specialize (Hm w Hw).
  destruct (m w) as [[a|e] w']; simpl in *; [done|].
  by apply Hh.
Qed.

Lemma keeps_for_each {A B} (f : A → M B) (l : list A) :
  (∀ a, keeps P (f a)) → keeps P (for_each f l).
Proof.
  intros Hf. induction l as [|x l IH]; simpl.
  - apply keeps_ret.
  - apply keeps_mbind; [done|]. intros y.
    apply keeps_mbind; [done|]. intros ys. apply keeps_ret.
Qed.

Lemma keeps_get_exchange name : keeps P (get_exchange name).
Proof. intros w Hw. unfold get_exchange. by case_match. Qed.

Lemma keeps_handle_of ref : keeps P (handle_of ref).
Proof. intros w Hw. unfold handle_of. by case_match. Qed.

(** What leaves alone everything the invariant reads, maintains it. *)
Lemma keeps_preserves {A X} (π : World → X) (m : M A) :
  (∀ w w', π w' = π w → P w → P w') → preserves π m → keeps P m.
Proof. intros HP Hm w Hw. apply (HP w); [apply Hm|done]. Qed.
End Keeps.

Ltac keeps_step :=
  lazymatch goal with
  | |- keeps _ (_ ≫= _) => apply keeps_mbind; [|intros ?]
  | |- keeps _ (try_except _ _) => apply keeps_try_except; [|intros ?]
  | |- keeps _ (for_each _ _) => apply keeps_for_each; intros ?
  | |- keeps _ (ret _) => apply keeps_ret
  | |- keeps _ (mret _) => apply keeps_mret
  | |- keeps _ (raise _) => apply keeps_raise
  | |- keeps _ (lift _) => apply keeps_lift
  | |- keeps _ (get_exchange _) => apply keeps_get_exchange
  | |- keeps _ (handle_of _) => apply keeps_handle_of
  | |- keeps _ (if ?b then _ else _) => destruct b
  | |- keeps _ (match ?x with _ => _ end) => destruct x
  end.

Section CachesSound.
Context `{Externals}.

Lemma caches_sound_view w w' :
  cache_view w' = cache_view w → caches_sound w → caches_sound w'.
Proof.
  unfold cache_view, caches_sound. intros [= -> -> -> ->]. done.
Qed.

Lemma keeps_caches_sound_preserves {A} (m : M A) :
  preserves cache_view m → keeps caches_sound m.
Proof. apply keeps_preserves, caches_sound_view. Qed.

Lemma caches_sound_later w w' :
  caches w' = caches w → start_time (server w') = start_time (server w) →
  (now w ≤ now w')%Z → caches_sound w → caches_sound w'.
Proof.
  unfold caches_sound. intros -> -> Hle (? & ? & ? & ? & ? & ? & ?).
  split_and!; try done; [lia|by eapply well_formed_mono..].
Qed.

Lemma upstream_call_caches_sound {A} c (reply : Upstream → list Call → result A) :
  keeps caches_sound (upstream_call c reply).
Proof.
  intros w Hw. unfold upstream_call. simpl.
  eapply caches_sound_later; [..|exact Hw]; simpl; [done|done|lia].
Qed.

Lemma sleep_caches_sound n w : caches_sound w → caches_sound (sleep n w).
Proof.
  intros Hw. eapply caches_sound_later; [..|exact Hw]; simpl; [done|done|lia].
Qed.

Lemma incr_request_count_caches_sound : keeps caches_sound incr_request_count.
Proof. apply keeps_caches_sound_preserves. by intros w. Qed.

Lemma incr_error_count_caches_sound : keeps caches_sound incr_error_count.
Proof. apply keeps_caches_sound_preserves. by intros w. Qed.

Lemma store_markets_caches_sound ref catalog :
  keeps caches_sound (store_markets ref catalog).
Proof. apply keeps_caches_sound_preserves. by intros w. Qed.

Lemma load_markets_caches_sound name : keeps caches_sound (load_markets name).
Proof.
  unfold load_markets. repeat keeps_step.
  - apply upstream_call_caches_sound.
  - apply store_markets_caches_sound.
Qed.

Lemma lookup_ticker_caches_sound exchange symbol :
  keeps caches_sound
    (with_cache (λ cm t, CacheManager_get_ticker cm exchange symbol t)).
Proof.
  intros w (Hst & Hwt & Hmt & Htt & Hrest).
  unfold with_cache, CacheManager_get_ticker, caches_sound, caches in *.
  pose proof (get_maintains (ticker_cache (cache (server w)))
                (ticker_key exchange symbol) (now w) (now w) Hwt) as Hg.
  pose proof (get_config (ticker_cache (cache (server w)))
                (ticker_key exchange symbol) (now w)) as [Hm Ht].
  destruct (get _ _ _) as [r c]. simpl in *.
  rewrite Hm, Ht. done.
Qed.

Lemma lookup_ohlcv_caches_sound exchange symbol timeframe limit :
  keeps caches_sound
    (with_cache (λ cm t, CacheManager_get_ohlcv cm exchange symbol
                           timeframe limit t)).
Proof.
  intros w (Hst & Hwt & Hmt & Htt & Hwo & Hmo & Hto).
  unfold with_cache, CacheManager_get_ohlcv, caches_sound, caches in *.
  pose proof (get_maintains (ohlcv_cache (cache (server w)))
                (ohlcv_key exchange symbol timeframe limit)
                (now w) (now w) Hwo) as Hg.
  pose proof (get_config (ohlcv_cache (cache (server w)))
                (ohlcv_key exchange symbol timeframe limit) (now w))
    as [Hm Ht].
  destruct (get _ _ _) as [r c]. simpl in *.
  rewrite Hm, Ht. done.
Qed.

(** In a sound world the assignment to the ticker category succeeds. *)
Lemma set_ticker_sound exchange symbol data w :
  caches_sound w →
  ∃ w', with_cache (λ cm t, CacheManager_set_ticker cm exchange symbol data t) w
        = (Ok (), w')
        ∧ caches_sound w'
        ∧ assoc (ticker_key exchange symbol) (links (ticker_cache (caches w')))
          = Some (data, (now w + 10)%Z)
        ∧ counters w' = counters w ∧ calls w' = calls w ∧ now w' = now w
        ∧ upstream w' = upstream w
        ∧ exchange_manager (server w') = exchange_manager (server w).
Proof.
  intros (Hst & Hwt & Hmt & Htt & Hrest).
  unfold with_cache, CacheManager_set_ticker, caches_sound, caches in *.
  destruct (setitem_maintains (ticker_cache (cache (server w)))
              (ticker_key exchange symbol) data (now w) (now w) Hwt)
    as (c' & Hset & Hwf'); [lia|lia|].
  destruct (setitem_stores _ _ _ _ _ Hset) as (Hk & Ht & Hm).
  rewrite Hset. eexists. split; [done|]. simpl.
  rewrite Hm, Ht, Hk, Htt. done.
Qed.

Lemma set_ohlcv_sound exchange symbol timeframe limit data w :
  caches_sound w →
  ∃ w', with_cache (λ cm t, CacheManager_set_ohlcv cm exchange symbol
                              timeframe limit data t) w
        = (Ok (), w')
        ∧ caches_sound w'
        ∧ assoc (ohlcv_key exchange symbol timeframe limit)
                (links (ohlcv_cache (caches w')))
          = Some (data, (now w + 60)%Z)
        ∧ counters w' = counters w ∧ calls w' = calls w ∧ now w' = now w
        ∧ upstream w' = upstream w
        ∧ exchange_manager (server w') = exchange_manager (server w).
Proof.
  intros (Hst & Hwt & Hmt & Htt & Hwo & Hmo & Hto).
  unfold with_cache, CacheManager_set_ohlcv, caches_sound, caches in *.
  destruct (setitem_maintains (ohlcv_cache (cache (server w)))
              (ohlcv_key exchange symbol timeframe limit) data
              (now w) (now w) Hwo)
    as (c' & Hset & Hwf'); [lia|lia|].
  destruct (setitem_stores _ _ _ _ _ Hset) as (Hk & Ht & Hm).
  rewrite Hset. eexists. split; [done|]. simpl.
  rewrite Hm, Ht, Hk, Hto. done.
Qed.

Lemma set_ticker_caches_sound exchange symbol data :
  keeps caches_sound
    (with_cache (λ cm t, CacheManager_set_ticker cm exchange symbol data t)).
Proof.
  intros w Hw.
  destruct (set_ticker_sound exchange symbol data w Hw) as (w' & -> & ? & _).
  done.
Qed.

Lemma set_ohlcv_caches_sound exchange symbol timeframe limit data :
  keeps caches_sound
    (with_cache (λ cm t, CacheManager_set_ohlcv cm exchange symbol
                           timeframe limit data t)).
Proof.
  intros w Hw.
  destruct (set_ohlcv_sound exchange symbol timeframe limit data w Hw)
    as (w' & -> & ? & _).
  done.
Qed.

Lemma get_ticker_caches_sound request : keeps caches_sound (get_ticker request).
Proof.
  unfold get_ticker, get_ticker_fetch. repeat keeps_step;
    auto using incr_request_count_caches_sound, incr_error_count_caches_sound,
      lookup_ticker_caches_sound, load_markets_caches_sound,
      upstream_call_caches_sound, set_ticker_caches_sound.
Qed.

Lemma get_ohlcv_caches_sound request : keeps caches_sound (get_ohlcv request).
Proof.
  unfold get_ohlcv, get_ohlcv_fetch. repeat keeps_step;
    auto using incr_request_count_caches_sound, incr_error_count_caches_sound,
      lookup_ohlcv_caches_sound, load_markets_caches_sound,
      upstream_call_caches_sound, set_ohlcv_caches_sound.
Qed.

Lemma get_orderbook_caches_sound request limit :
  keeps caches_sound (get_orderbook request limit).
Proof.
  unfold get_orderbook. repeat keeps_step;
    auto using incr_request_count_caches_sound, incr_error_count_caches_sound,
      load_markets_caches_sound, upstream_call_caches_sound.
Qed.

Lemma get_multi_exchange_ticker_caches_sound symbol exchanges :
  keeps caches_sound (get_multi_exchange_ticker symbol exchanges).
Proof.
  unfold get_multi_exchange_ticker, _safe_get_ticker. repeat keeps_step.
  apply get_ticker_caches_sound.
Qed.

Lemma get_price_statistics_caches_sound request :
  keeps caches_sound (get_price_statistics request).
Proof.
  unfold get_price_statistics. repeat keeps_step. apply get_ohlcv_caches_sound.
Qed.

Lemma get_exchange_info_caches_sound name :
  keeps caches_sound (get_exchange_info name).
Proof.
  unfold get_exchange_info. repeat keeps_step. apply load_markets_caches_sound.
Qed.

Lemma search_symbols_caches_sound query name :
  keeps caches_sound (search_symbols query name).
Proof.
  unfold search_symbols. repeat keeps_step. apply load_markets_caches_sound.
Qed.

Lemma get_server_status_caches_sound : keeps caches_sound get_server_status.
Proof.
  intros w (Hst & Hwt & Hmt & Htt & Hwo & Hmo & Hto).
  unfold get_server_status. case_match; [|by split_and!].
  unfold len, caches_sound, caches in *. simpl.
  rewrite !maxsize_expire, !ttl_expire.
  split_and!; try done; by apply expire_maintains.
Qed.

Lemma clear_cache_caches_sound : keeps caches_sound clear_cache.
Proof.
  intros w (Hst & Hwt & Hmt & Htt & Hwo & Hmo & Hto).
  unfold clear_cache, caches_sound, caches in *. simpl.
  split_and!; try done; apply well_formed_clear.
Qed.

Lemma run_op_caches_sound op w : caches_sound w → caches_sound (run_op op w).
Proof.
  intros Hw. destruct op as [r|r l|r|s es|r| |n|q n| |n]; simpl.
  - by apply get_ticker_caches_sound.
  - by apply get_orderbook_caches_sound.
  - by apply get_ohlcv_caches_sound.
  - by apply get_multi_exchange_ticker_caches_sound.
  - by apply get_price_statistics_caches_sound.
  - by apply get_server_status_caches_sound.
  - by apply get_exchange_info_caches_sound.
  - by apply search_symbols_caches_sound.
  - by apply clear_cache_caches_sound.
  - by apply sleep_caches_sound.
Qed.

Lemma initial_world_caches_sound construct t up :
  caches_sound (initial_world construct t up).
Proof.
  unfold caches_sound, initial_world, caches. simpl.
  split_and!; try done; apply well_formed_new.
Qed.

Lemma reachable_caches_sound w : reachable w → caches_sound w.
Proof.
  intros (construct & t & up & ops & ->).
  pose proof (initial_world_caches_sound construct t up) as Hw.
  revert Hw. generalize (initial_world construct t up).
  induction ops as [|op ops IH]; intros w Hw; simpl; [done|].
  apply IH. by apply run_op_caches_sound.
Qed.
End CachesSound.

(** ** The read paths, step by step *)

Section Runs.
Context `{Externals}.

Lemma upstream_call_run {A} c (reply : Upstream → list Call → result A) w :
  upstream_call c reply w = (reply (upstream w) (calls w), called c w).
Proof. reflexivity. Qed.

Lemma ready_called id c w : ready id w → ready id (called c w).
Proof. done. Qed.

Lemma ready_requested id w : ready id w → ready id (requested w).
Proof. done. Qed.

(** With the exchange ready, the preamble of a guarded block does
    nothing. *)
Lemma preamble_ready {A} e (k : string → M A) w :
  ready (Exchange_value e) w →
  (ref ← get_exchange (Exchange_value e);
   load_markets (Exchange_value e);; k ref) w
  = k (Exchange_value e) w.
Proof.
  intros (h & Hreg & Hm). rewrite <- (lower_Exchange_value e) in Hreg.
  rewrite (mbind_ok _ _ _ _ _ (get_exchange_registered _ _ _ Hreg)).
  rewrite (mbind_ok _ _ _ _ _ (load_markets_loaded _ _ _ Hreg Hm)).
  by rewrite lower_Exchange_value.
Qed.

(** A request that finds no live entry runs the guarded fetch. *)
Lemma get_ticker_miss request w :
  contains (ticker_cache (caches w))
    (ticker_key (Exchange_value (exchange request)) (symbol request)) (now w)
  = false →
  get_ticker request w
  = try_except (get_ticker_fetch request)
      (λ e, incr_error_count;; raise (ticker_error e)) (requested w).
Proof.
  intros Hmiss. unfold get_ticker. rewrite mbind_unfold.
  change (incr_request_count w) with (Ok (), requested w). cbv beta iota.
  rewrite mbind_unfold. unfold with_cache, CacheManager_get_ticker.
  change (cache (server (requested w))) with (caches w).
  change (now (requested w)) with (now w).
  rewrite get_miss by done. cbv beta iota.
  destruct w as [[[c1 c2 c3] em rc ec st] n cl up]. reflexivity.
Qed.

Lemma get_ohlcv_miss request w :
  contains (ohlcv_cache (caches w))
    (ohlcv_key (Exchange_value (exchange (base request)))
       (symbol (base request)) (TimeFrame_value (timeframe request))
       (limit request)) (now w)
  = false →
  get_ohlcv request w
  = try_except (get_ohlcv_fetch request)
      (λ e, incr_error_count;;
            raise (RuntimeError ("Failed to fetch OHLCV data: " +:+ str_exn e)))
      (requested w).
Proof.
  intros Hmiss. unfold get_ohlcv. rewrite mbind_unfold.
  change (incr_request_count w) with (Ok (), requested w). cbv beta iota.
  rewrite mbind_unfold. unfold with_cache, CacheManager_get_ohlcv.
  change (cache (server (requested w))) with (caches w).
  change (now (requested w)) with (now w).
  rewrite get_miss by done. cbv beta iota.
  destruct w as [[[c1 c2 c3] em rc ec st] n cl up]. reflexivity.
Qed.

(** The guarded block of [get_ticker] on a ready exchange: the fetch,
    the conversion, the assignment to the cache. *)
Lemma get_ticker_fetch_run request w :
  ready (Exchange_value (exchange request)) w →
  get_ticker_fetch request w
  = match fetch_ticker_reply (upstream w) (calls w)
            (Exchange_value (exchange request)) (symbol request) with
    | Raise e => (Raise e, called (ticker_call request) w)
    | Ok ticker =>
        match TickerData_of request ticker with
        | Raise e => (Raise e, called (ticker_call request) w)
        | Ok data =>
            match with_cache (λ cm t,
                    CacheManager_set_ticker cm
                      (Exchange_value (exchange request)) (symbol request)
                      data t) (called (ticker_call request) w) with
            | (Ok _, w') => (Ok data, w')
            | (Raise e, w') => (Raise e, w')
            end
        end
    end.
Proof.
  intros Hready. unfold get_ticker_fetch.
  rewrite (preamble_ready _ _ _ Hready).
  rewrite mbind_unfold, upstream_call_run. fold (ticker_call request).
  destruct (fetch_ticker_reply _ _ _ _) as [ticker|e]; [|done].
  rewrite mbind_unfold. unfold lift at 1.
  destruct (TickerData_of request ticker) as [data|e]; [|done].
  rewrite mbind_unfold.
  by destruct (with_cache _ _) as [[[]|e] w'].
Qed.

Lemma get_ohlcv_fetch_run request w :
  ready (Exchange_value (exchange (base request))) w →
  get_ohlcv_fetch request w
  = match fetch_ohlcv_reply (upstream w) (calls w)
            (Exchange_value (exchange (base request)))
            (symbol (base request)) (TimeFrame_value (timeframe request))
            (match since request with
             | Some dt => Some (int (timestamp dt * 1000)%R)
             | None => None
             end)
            (limit request) with
    | Raise e => (Raise e, called (ohlcv_call request) w)
    | Ok ohlcv =>
        match OHLCVData_of_all ohlcv with
        | Raise e => (Raise e, called (ohlcv_call request) w)
        | Ok data =>
            match with_cache (λ cm t,
                    CacheManager_set_ohlcv cm
                      (Exchange_value (exchange (base request)))
                      (symbol (base request))
                      (TimeFrame_value (timeframe request)) (limit request)
                      data t) (called (ohlcv_call request) w) with
            | (Ok _, w') => (Ok data, w')
            | (Raise e, w') => (Raise e, w')
            end
        end
    end.
Proof.
  intros Hready. unfold get_ohlcv_fetch. cbv zeta.
  rewrite (preamble_ready _ _ _ Hready).
  rewrite mbind_unfold, upstream_call_run. fold (ohlcv_call request).
  destruct (fetch_ohlcv_reply _ _ _ _ _ _ _) as [ohlcv|e]; [|done].
  rewrite mbind_unfold. unfold lift at 1.
  destruct (OHLCVData_of_all ohlcv) as [data|e]; [|done].
  rewrite mbind_unfold.
  by destruct (with_cache _ _) as [[[]|e] w'].
Qed.

(** [get_orderbook] on a ready exchange. *)
Lemma get_orderbook_run request limit w :
  ready (Exchange_value (exchange request)) w →
  get_orderbook request limit w
  = let w1 := called (orderbook_call request limit) (requested w) in
    let failed e :=
      (Raise (RuntimeError ("Failed to fetch orderbook: " +:+ str_exn e)),
       errored w1) in
    match fetch_order_book_reply (upstream w) (calls w)
            (Exchange_value (exchange request)) (symbol request) limit with
    | Raise e => failed e
    | Ok orderbook =>
        match datetime_of_ms (rob_timestamp orderbook) with
        | Raise e => failed e
        | Ok ts =>
            (Ok (mkOrderBookData (symbol request)
                   (Exchange_value (exchange request)) ts
                   (slice_to limit (rob_bids orderbook))
                   (slice_to limit (rob_asks orderbook))), w1)
        end
    end.
Proof.
  intros Hready. unfold get_orderbook. rewrite mbind_unfold.
  change (incr_request_count w) with (Ok (), requested w). cbv beta iota zeta.
  unfold try_except.
  rewrite (preamble_ready _ _ _ (ready_requested _ _ Hready)).
  rewrite mbind_unfold, upstream_call_run. fold (orderbook_call request limit).
  change (upstream (requested w)) with (upstream w).
  change (calls (requested w)) with (calls w).
  destruct (fetch_order_book_reply _ _ _ _ _) as [orderbook|e]; [|done].
  rewrite mbind_unfold. unfold lift at 1.
  by destruct (datetime_of_ms _) as [ts|e].
Qed.
End Runs.

(** ** The cached empty list and the error counter *)

Section EmptyEntry.
Context `{Externals}.

(** C6 fails on the OHLCV path.  When the cached entry of a request is
    present and unexpired but holds the empty list of candles, and the
    exchange fails the fetch that [get_ohlcv] then sends, the call raises
    and adds one to the error counter: a call whose entry was in the
    cache has increased it. *)
Theorem cached_empty_list_counts_an_error request w e h err :
  assoc (ohlcv_key (Exchange_value (exchange (base request)))
           (symbol (base request)) (TimeFrame_value (timeframe request))
           (limit request))
        (links (ohlcv_cache (caches w))) = Some ([], e) →
  (now w < e)%Z →
  exchanges (exchange_manager (server w))
    !! Exchange_value (exchange (base request)) = Some h →
  markets_missing h = false →
  fetch_ohlcv_reply (upstream w) (calls w)
    (Exchange_value (exchange (base request))) (symbol (base request))
    (TimeFrame_value (timeframe request))
    (match since request with
     | Some dt => Some (int (timestamp dt * 1000)%R)
     | None => None
     end)
    (limit request) = Raise err →
  ∃ w', get_ohlcv request w
        = (Raise (RuntimeError
                    ("Failed to fetch OHLCV data: " +:+ str_exn err)), w')
        ∧ calls w' = calls w ++ [ohlcv_call request]
        ∧ request_count (server w') = request_count (server w) + 1
        ∧ error_count (server w') = error_count (server w) + 1.
Proof.
  intros Hk Ht Hreg Hm Hreply. unfold get_ohlcv. rewrite mbind_unfold. simpl.
  set (w1 := mkWorld _ _ _ _).
  destruct (cache_lookup_ohlcv (Exchange_value (exchange (base request)))
              (symbol (base request)) (TimeFrame_value (timeframe request))
              (limit request) w1)
    as (o & w2 & Hget & Hc & Hcalls & _ & Hup & Hem & _ & Ho).
  rewrite mbind_unfold, Hget.
  rewrite (get_hit _ _ _ [] e) in Ho by done. injection Ho as <-.
  cbn [truthy_list]. unfold try_except.
  rewrite get_ohlcv_fetch_run by (exists h; by rewrite Hem).
  rewrite Hup, Hcalls. change (upstream w1) with (upstream w).
  change (calls w1) with (calls w). rewrite Hreply.
  eexists. split; [reflexivity|]. cbn.
  unfold counters in Hc. injection Hc as -> ->.
  rewrite Hcalls. split; [done|]. split; simpl; lia.
Qed.
End EmptyEntry.

(** ** Cached reads *)

Section Inversion.
Context `{Externals}.

Lemma mbind_inv_ok {A B} (m : M A) (k : A → M B) w b w' :
  (m ≫= k) w = (Ok b, w') → ∃ a w0, m w = (Ok a, w0) ∧ k a w0 = (Ok b, w').
Proof.
  rewrite mbind_unfold. destruct (m w) as [[a|e] w0]; [eauto|done].
Qed.

(** A guarded block whose handler raises again returns what the block
    returned. *)
Lemma guarded_inv_ok {A} (m : M A) (f : exn → exn) w a w' :
  try_except m (λ e, incr_error_count;; raise (f e)) w = (Ok a, w') →
  m w = (Ok a, w').
Proof. unfold try_except. by destruct (m w) as [[a0|e] w0]. Qed.

Lemma guarded_raise {A} (m : M A) (f : exn → exn) w e w' :
  m w = (Raise e, w') →
  try_except m (λ e, incr_error_count;; raise (f e)) w
  = (Raise (f e), errored w').
Proof. intros Hm. unfold try_except. by rewrite Hm. Qed.

Lemma contains_false_expired {V} (c : TTLCache V) k t v e :
  assoc k (links c) = Some (v, e) → (e ≤ t)%Z → contains c k t = false.
Proof.
  intros Hk He. unfold contains. rewrite Hk. apply bool_decide_eq_false. lia.
Qed.

Lemma get_exchange_world name w r w' :
  get_exchange name w = (r, w') → w' = w.
Proof.
  unfold get_exchange. destruct (exchanges _ !! _); by intros [= _ <-].
Qed.

Lemma assoc_move_to_end {V} (c : TTLCache V) k x :
  assoc k (links c) = Some x → assoc k (links (move_to_end c k)) = Some x.
Proof.
  intros Hk. unfold move_to_end. rewrite Hk. simpl.
  apply assoc_snoc, remove_key_removes.
Qed.
End Inversion.

Section CachedReads.
Context `{Externals}.

(** On a ready exchange a request that misses the cache sends exactly
    the fetch upstream, whatever comes of it. *)
Lemma get_ticker_miss_calls request w :
  ready (Exchange_value (exchange request)) w →
  contains (ticker_cache (caches w))
    (ticker_key (Exchange_value (exchange request)) (symbol request)) (now w)
  = false →
  calls (get_ticker request w).2 = calls w ++ [ticker_call request].
Proof.
  intros Hready Hmiss. rewrite get_ticker_miss by done. unfold try_except.
  rewrite get_ticker_fetch_run by done.
  destruct (fetch_ticker_reply _ _ _ _) as [ticker|e]; [|done].
  destruct (TickerData_of request ticker) as [data|e]; [|done].
  unfold with_cache, CacheManager_set_ticker.
  by destruct (setitem _ _ _ _) as [[[]|e] c].
Qed.

(** What a successful guarded fetch leaves in the ticker category. *)
Lemma get_ticker_fetch_stores request w data w' :
  get_ticker_fetch request w = (Ok data, w') →
  assoc (ticker_key (Exchange_value (exchange request)) (symbol request))
        (links (ticker_cache (caches w')))
  = Some (data, (now w' + ttl (ticker_cache (caches w)))%Z).
Proof.
  unfold get_ticker_fetch.
  intros (ref & w1 & H1 & Hrun)%mbind_inv_ok.
  apply mbind_inv_ok in Hrun as ([] & w2 & H2 & Hrun).
  apply mbind_inv_ok in Hrun as (ticker & w3 & H3 & Hrun).
  apply mbind_inv_ok in Hrun as (data' & w4 & H4 & Hrun).
  apply mbind_inv_ok in Hrun as ([] & w5 & H5 & [= <- <-]).
  assert (caches w4 = caches w) as Hc.
  { unfold lift in H4. injection H4 as _ <-.
    unfold upstream_call in H3. injection H3 as _ <-.
    pose proof (load_markets_caches (Exchange_value (exchange request)) w1) as Hl.
    rewrite H2 in Hl. unfold caches in *. simpl in *. rewrite Hl.
    by rewrite (get_exchange_world _ _ _ _ H1). }
  unfold with_cache, CacheManager_set_ticker in H5.
  destruct (setitem _ _ _ _) as [r c] eqn:Hset. simpl in H5.
  injection H5 as -> <-.
  apply setitem_stores in Hset as (Hk & _ & _). simpl.
  fold (caches w4) in Hk. by rewrite Hc in Hk.
Qed.

Lemma get_ohlcv_fetch_stores request w data w' :
  get_ohlcv_fetch request w = (Ok data, w') →
  assoc (ohlcv_key (Exchange_value (exchange (base request)))
           (symbol (base request)) (TimeFrame_value (timeframe request))
           (limit request))
        (links (ohlcv_cache (caches w')))
  = Some (data, (now w' + ttl (ohlcv_cache (caches w)))%Z).
Proof.
  unfold get_ohlcv_fetch. cbv zeta.
  intros (ref & w1 & H1 & Hrun)%mbind_inv_ok.
  apply mbind_inv_ok in Hrun as ([] & w2 & H2 & Hrun).
  apply mbind_inv_ok in Hrun as (ohlcv & w3 & H3 & Hrun).
  apply mbind_inv_ok in Hrun as (data' & w4 & H4 & Hrun).
  apply mbind_inv_ok in Hrun as ([] & w5 & H5 & Hrun).
  unfold ret in Hrun. injection Hrun as <- <-.
  assert (caches w4 = caches w) as Hc.
  { unfold lift in H4. injection H4 as _ <-.
    unfold upstream_call in H3. injection H3 as _ <-.
    pose proof (load_markets_caches
                  (Exchange_value (exchange (base request))) w1) as Hl.
    rewrite H2 in Hl. unfold caches in *. simpl in *. rewrite Hl.
    by rewrite (get_exchange_world _ _ _ _ H1). }
  unfold with_cache, CacheManager_set_ohlcv in H5.
  destruct (setitem _ _ _ _) as [r c] eqn:Hset. simpl in H5.
  injection H5 as -> <-.
  apply setitem_stores in Hset as (Hk & _ & _). simpl.
  fold (caches w4) in Hk. by rewrite Hc in Hk.
Qed.
End CachedReads.

Section Counters.
Context `{Externals}.

Lemma counted_keeps {A} (m : M A) :
  counted m → keeps errors_within_requests m.
Proof.
  intros Hm w Hw. destruct (Hm w) as [Hr He].
  unfold errors_within_requests in *. rewrite Hr, He.
  destruct (is_ok _); lia.
Qed.

Lemma counters_keeps {A} (m : M A) :
  preserves counters m → keeps errors_within_requests m.
Proof.
  apply keeps_preserves. unfold counters, errors_within_requests.
  by intros w w' [= -> ->].
Qed.

Lemma get_exchange_info_counters name :
  preserves counters (get_exchange_info name).
Proof. unfold get_exchange_info. frame; apply load_markets_counters. Qed.

Lemma search_symbols_counters query name :
  preserves counters (search_symbols query name).
Proof. unfold search_symbols. frame; apply load_markets_counters. Qed.

Lemma get_server_status_counters : preserves counters get_server_status.
Proof.
  intros w. unfold get_server_status. case_match; [|done].
  unfold len. reflexivity.
Qed.

Lemma clear_cache_counters : preserves counters clear_cache.
Proof. by intros w. Qed.

Lemma get_multi_exchange_ticker_errors_within_requests symbol exchanges :
  keeps errors_within_requests (get_multi_exchange_ticker symbol exchanges).
Proof.
  unfold get_multi_exchange_ticker, _safe_get_ticker. repeat keeps_step.
  apply (counted_keeps _ (get_ticker_counted _)).
Qed.

Lemma get_price_statistics_errors_within_requests request :
  keeps errors_within_requests (get_price_statistics request).
Proof.
  unfold get_price_statistics. repeat keeps_step.
  apply (counted_keeps _ (get_ohlcv_counted _)).
Qed.

Lemma run_op_errors_within_requests op w :
  errors_within_requests w → errors_within_requests (run_op op w).
Proof.
  intros Hw. destruct op as [r|r l|r|s es|r| |n|q n| |n]; simpl.
  - by apply (counted_keeps _ (get_ticker_counted r)).
  - by apply (counted_keeps _ (get_orderbook_counted r l)).
  - by apply (counted_keeps _ (get_ohlcv_counted r)).
  - by apply get_multi_exchange_ticker_errors_within_requests.
  - by apply get_price_statistics_errors_within_requests.
  - by apply (counters_keeps _ get_server_status_counters).
  - by apply (counters_keeps _ (get_exchange_info_counters n)).
  - by apply (counters_keeps _ (search_symbols_counters q n)).
  - by apply (counters_keeps _ clear_cache_counters).
  - done.
Qed.

Lemma reachable_errors_within_requests w :
  reachable w → errors_within_requests w.
Proof.
  intros (construct & t & up & ops & ->).
  assert (errors_within_requests (initial_world construct t up)) as Hw.
  { unfold errors_within_requests. simpl. lia. }
  revert Hw. generalize (initial_world construct t up).
  induction ops as [|op ops IH]; intros w Hw; simpl; [done|].
  apply IH. by apply run_op_errors_within_requests.
Qed.

Lemma reachable_orderbook_empty w : reachable w → orderbook_empty w.
Proof.
  intros (construct & t & up & ops & ->).
  by apply (run_ops_orderbook_empty ops (initial_world construct t up)).
Qed.
End Counters.

Section CacheTheorems.
Context `{Externals}.

(** X3.  In a world reached by the server, a ticker request that finds no
    live entry, on a ready exchange that answers with a well-formed
    ticker, returns the converted ticker after exactly one upstream call,
    counts no error, and leaves the ticker in the cache for ten seconds
    from the end of the call: the assignment to the cache cannot fail. *)
Theorem fetched_ticker_is_returned_and_cached request w ticker data :
  reachable w →
  ready (Exchange_value (exchange request)) w →
  contains (ticker_cache (caches w))
    (ticker_key (Exchange_value (exchange request)) (symbol request)) (now w)
  = false →
  fetch_ticker_reply (upstream w) (calls w)
    (Exchange_value (exchange request)) (symbol request) = Ok ticker →
  TickerData_of request ticker = Ok data →
  ∃ w', get_ticker request w = (Ok data, w')
        ∧ calls w' = calls w ++ [ticker_call request]
        ∧ request_count (server w') = request_count (server w) + 1
        ∧ error_count (server w') = error_count (server w)
        ∧ assoc (ticker_key (Exchange_value (exchange request))
                   (symbol request))
                (links (ticker_cache (caches w')))
          = Some (data, (now w' + 10)%Z).
Proof.
  intros Hreach Hready Hmiss Hreply Hconv.
  apply reachable_caches_sound in Hreach.
  rewrite get_ticker_miss by done. unfold try_except.
  rewrite get_ticker_fetch_run by done.
  change (upstream (requested w)) with (upstream w).
  change (calls (requested w)) with (calls w).
  rewrite Hreply, Hconv.
  destruct (set_ticker_sound (Exchange_value (exchange request))
              (symbol request) data
              (called (ticker_call request) (requested w)))
    as (w' & -> & _ & Hk & Hc & Hcalls & Hnow & _).
  { apply (upstream_call_caches_sound (ticker_call request)
             (λ _ _, Ok ()) (requested w)).
    by apply incr_request_count_caches_sound. }
  exists w'. split; [done|]. rewrite Hcalls, Hnow, Hk.
  unfold counters in Hc. injection Hc as -> ->. done.
Qed.

(** X4.  A ticker fetched on a miss is served from the cache to every
    identical request made less than ten seconds after the fetch
    completed, without any upstream call; from ten seconds on the entry
    has expired and the request goes upstream again. *)
Theorem ticker_cached_for_ten_seconds request w data w1 (n : nat) :
  reachable w →
  contains (ticker_cache (caches w))
    (ticker_key (Exchange_value (exchange request)) (symbol request)) (now w)
  = false →
  get_ticker request w = (Ok data, w1) →
  (n < 10 →
   ∃ w2, get_ticker request (sleep n w1) = (Ok data, w2)
         ∧ calls w2 = calls w1)
  ∧ (10 ≤ n → ready (Exchange_value (exchange request)) w1 →
     calls (get_ticker request (sleep n w1)).2
     = calls w1 ++ [ticker_call request]).
Proof.
  intros Hreach Hmiss Hget.
  apply reachable_caches_sound in Hreach as (_ & _ & _ & Httl & _).
  rewrite get_ticker_miss in Hget by done.
  apply guarded_inv_ok, get_ticker_fetch_stores in Hget.
  change (caches (requested w)) with (caches w) in Hget.
  rewrite Httl in Hget. split.
  - intros Hn.
    destruct (get_ticker_cache_hit request (sleep n w1) data
                (now w1 + 10)%Z) as (w2 & Hhit & Hcalls & _); [done|simpl; lia|].
    by exists w2.
  - intros Hn Hready.
    apply (get_ticker_miss_calls request (sleep n w1)); [done|].
    apply (contains_false_expired _ _ _ data (now w1 + 10)%Z); [done|].
    simpl. lia.
Qed.
End CacheTheorems.

Section MoreCacheTheorems.
Context `{Externals}.

Lemma get_hit_inv {V} (c : TTLCache V) k t v :
  (get c k t).1 = Ok (Some v) →
  ∃ e, assoc k (links c) = Some (v, e) ∧ (t < e)%Z
       ∧ (get c k t).2 = move_to_end c k.
Proof.
  unfold get, contains, getitem.
  destruct (assoc k (links c)) as [[v' e]|] eqn:Hk; [|done].
  case_bool_decide; [|done]. simpl. intros [= ->]. eauto.
Qed.

Lemma contains_false_later {V} (c : TTLCache V) k t t' :
  contains c k t = false → (t ≤ t')%Z → contains c k t' = false.
Proof.
  unfold contains. destruct (assoc k (links c)) as [[v e]|]; [|done].
  intros Hf%bool_decide_eq_false Hle. apply bool_decide_eq_false. lia.
Qed.

(** The lookup that opens [get_ohlcv], with what it leaves in the OHLCV
    category. *)
Lemma lookup_ohlcv_run exchange symbol timeframe limit w :
  ∃ o w', with_cache (λ cm t, CacheManager_get_ohlcv cm exchange symbol
                                timeframe limit t) w
          = (Ok o, w')
          ∧ (get (ohlcv_cache (caches w))
               (ohlcv_key exchange symbol timeframe limit) (now w)) 
            = (Ok o, ohlcv_cache (caches w'))
          ∧ calls w' = calls w ∧ now w' = now w.
Proof.
  unfold with_cache, CacheManager_get_ohlcv, caches.
  destruct (get_total (ohlcv_cache (cache (server w)))
              (ohlcv_key exchange symbol timeframe limit) (now w)) as [o Ho].
  destruct (get _ _ _) as [r c]. simpl in Ho. subst r.
  eexists _, _. split; [done|]. by simpl.
Qed.

(** Candles returned by [get_ohlcv] are in the cache, alive, when it
    returns: they were found there, or have just been written. *)
Lemma get_ohlcv_leaves_live_entry request w d data w1 :
  reachable w →
  get_ohlcv request w = (Ok (d :: data), w1) →
  ∃ e, assoc (ohlcv_key (Exchange_value (exchange (base request)))
                (symbol (base request)) (TimeFrame_value (timeframe request))
                (limit request))
             (links (ohlcv_cache (caches w1)))
       = Some (d :: data, e)
       ∧ (now w1 < e)%Z.
Proof.
  intros Hreach Hget.
  apply reachable_caches_sound in Hreach.
  apply incr_request_count_caches_sound in Hreach.
  unfold get_ohlcv in Hget. rewrite mbind_unfold in Hget.
  change (incr_request_count w) with (Ok (), requested w) in Hget.
  cbv beta iota in Hget. rewrite mbind_unfold in Hget.
  pose proof (lookup_ohlcv_caches_sound
                (Exchange_value (exchange (base request)))
                (symbol (base request)) (TimeFrame_value (timeframe request))
                (limit request) (requested w) Hreach) as Hsound.
  destruct (lookup_ohlcv_run (Exchange_value (exchange (base request)))
              (symbol (base request)) (TimeFrame_value (timeframe request))
              (limit request) (requested w))
    as (o & w2 & Hlook & Hcache & _ & Hnow).
  rewrite Hlook in Hget, Hsound. cbn [snd] in Hsound.
  destruct Hsound as (_ & _ & _ & _ & _ & _ & Httl).
  assert (∀ w0, try_except (get_ohlcv_fetch request)
                  (λ e, incr_error_count;;
                        raise (RuntimeError
                                 ("Failed to fetch OHLCV data: " +:+ str_exn e)))
                  w2 = (Ok (d :: data), w0) →
                ∃ e, assoc (ohlcv_key (Exchange_value (exchange (base request)))
                              (symbol (base request))
                              (TimeFrame_value (timeframe request))
                              (limit request))
                           (links (ohlcv_cache (caches w0)))
                     = Some (d :: data, e) ∧ (now w0 < e)%Z) as Hmiss.
  { intros w0 Hrun.
    apply (guarded_inv_ok _ (λ e, RuntimeError
              ("Failed to fetch OHLCV data: " +:+ str_exn e))) in Hrun.
    apply get_ohlcv_fetch_stores in Hrun.
    rewrite Httl in Hrun. eexists. split; [exact Hrun|lia]. }
  destruct o as [[|d' data']|]; cbn [truthy_list] in Hget; [by apply Hmiss| |by apply Hmiss].
  unfold ret in Hget. injection Hget as -> -> <-.
  assert ((get (ohlcv_cache (caches (requested w)))
             (ohlcv_key (Exchange_value (exchange (base request)))
                (symbol (base request)) (TimeFrame_value (timeframe request))
                (limit request)) (now (requested w))).1 = Ok (Some (d :: data)))
    as Hhit by (by rewrite Hcache).
  apply get_hit_inv in Hhit as (e & Hk & He & Hmove).
  rewrite Hcache in Hmove. cbn [snd] in Hmove.
  exists e. rewrite Hmove. split; [by apply assoc_move_to_end|].
  by rewrite Hnow.
Qed.

(** X5.  The key of the OHLCV category is made of the exchange, the
    symbol, the timeframe and the limit of the request, not of its
    [since]: once candles were returned for a request, a request that
    differs at most in [since] is served the same candles from the cache,
    without any upstream call. *)
Theorem candles_cached_regardless_of_since r1 r2 w d data w1 :
  reachable w →
  get_ohlcv r1 w = (Ok (d :: data), w1) →
  base r2 = base r1 → timeframe r2 = timeframe r1 → limit r2 = limit r1 →
  ∃ w2, get_ohlcv r2 w1 = (Ok (d :: data), w2) ∧ calls w2 = calls w1.
Proof.
  intros Hreach Hget Hb Ht Hl.
  destruct (get_ohlcv_leaves_live_entry r1 w d data w1 Hreach Hget)
    as (e & Hk & He).
  rewrite <- Hb, <- Ht, <- Hl in Hk.
  destruct (get_ohlcv_cache_hit r2 w1 d data e Hk He) as (w2 & ? & ? & _).
  eauto.
Qed.

(** X6.  When the fetch of a ticker fails upstream, [get_ticker] raises
    [RuntimeError] with the message that goes with the kind of the
    failure, counts one error, and caches nothing: the caches are as they
    were, and the next identical request, whenever it comes, goes
    upstream again. *)
Theorem failed_ticker_fetch_is_not_cached request w err :
  ready (Exchange_value (exchange request)) w →
  contains (ticker_cache (caches w))
    (ticker_key (Exchange_value (exchange request)) (symbol request)) (now w)
  = false →
  fetch_ticker_reply (upstream w) (calls w)
    (Exchange_value (exchange request)) (symbol request) = Raise err →
  ∃ w', get_ticker request w
        = (Raise (RuntimeError
                    (match err with
                     | NetworkError _ => "Network error: "
                     | ExchangeError _ => "Exchange error: "
                     | _ => "Unexpected error: "
                     end +:+ str_exn err)), w')
        ∧ caches w' = caches w
        ∧ calls w' = calls w ++ [ticker_call request]
        ∧ error_count (server w') = error_count (server w) + 1
        ∧ ∀ n : nat,
            calls (get_ticker request (sleep n w')).2
            = calls w' ++ [ticker_call request].
Proof.
  intros Hready Hmiss Hreply.
  rewrite get_ticker_miss by done.
  erewrite guarded_raise.
  2:{ rewrite get_ticker_fetch_run by done.
      change (upstream (requested w)) with (upstream w).
      change (calls (requested w)) with (calls w).
      by rewrite Hreply. }
  eexists. split.
  { f_equal. f_equal. by destruct err. }
  split; [done|]. split; [done|]. split; [done|].
  intros n.
  apply (get_ticker_miss_calls request
           (sleep n (errored (called (ticker_call request) (requested w)))));
    [done|].
  eapply contains_false_later; [exact Hmiss|]. simpl. lia.
Qed.

Lemma get_ohlcv_miss_calls request w :
  ready (Exchange_value (exchange (base request))) w →
  contains (ohlcv_cache (caches w))
    (ohlcv_key (Exchange_value (exchange (base request)))
       (symbol (base request)) (TimeFrame_value (timeframe request))
       (limit request)) (now w)
  = false →
  calls (get_ohlcv request w).2 = calls w ++ [ohlcv_call request].
Proof.
  intros Hready Hmiss. rewrite get_ohlcv_miss by done. unfold try_except.
  rewrite get_ohlcv_fetch_run by done.
  destruct (fetch_ohlcv_reply _ _ _ _ _ _ _) as [ohlcv|e]; [|done].
  destruct (OHLCVData_of_all ohlcv) as [data|e]; [|done].
  unfold with_cache, CacheManager_set_ohlcv.
  by destruct (setitem _ _ _ _) as [[[]|e] c].
Qed.

(** X7.  [clear_cache] empties the categories and touches nothing else:
    it cannot fail, counts nothing, calls nothing, and after it every
    ticker or candle request on a ready exchange goes upstream, whatever
    had been cached. *)
Theorem clear_cache_forces_refetch w :
  ∃ w', clear_cache w = (Ok (), w')
    ∧ counters w' = counters w ∧ calls w' = calls w ∧ now w' = now w
    ∧ currsize (ticker_cache (caches w')) = 0
    ∧ currsize (ohlcv_cache (caches w')) = 0
    ∧ (∀ request,
         ready (Exchange_value (exchange request)) w →
         calls (get_ticker request w').2 = calls w ++ [ticker_call request])
    ∧ (∀ request,
         ready (Exchange_value (exchange (base request))) w →
         calls (get_ohlcv request w').2 = calls w ++ [ohlcv_call request]).
Proof.
  eexists. split; [reflexivity|]. split_and!; try done.
  - intros request Hready. by rewrite get_ticker_miss_calls.
  - intros request Hready. by rewrite get_ohlcv_miss_calls.
Qed.

(** X8.  Whatever the server has been asked to do, its caches stay within
    the ceilings and keep the times to live they were created with, and
    no key is held twice. *)
Theorem caches_stay_within_ceilings w :
  reachable w →
  currsize (ticker_cache (caches w)) ≤ 1000
  ∧ currsize (ohlcv_cache (caches w)) ≤ 500
  ∧ currsize (orderbook_cache (caches w)) = 0
  ∧ ttl (ticker_cache (caches w)) = 10%Z
  ∧ ttl (ohlcv_cache (caches w)) = 60%Z
  ∧ NoDup (keys (links (ticker_cache (caches w))))
  ∧ NoDup (keys (links (ohlcv_cache (caches w)))).
Proof.
  intros Hreach. pose proof (reachable_orderbook_empty w Hreach) as Hob.
  apply reachable_caches_sound in Hreach
    as (_ & Hwt & Hmt & Htt & Hwo & Hmo & Hto).
  destruct Hwt as (Hnt & _ & _ & _ & _ & Hst).
  destruct Hwo as (Hno & _ & _ & _ & _ & Hso).
  unfold orderbook_empty, orderbook_of in Hob. unfold caches in *.
  rewrite Hob. split_and!; try done; lia.
Qed.
End MoreCacheTheorems.

(** ** The server status *)

Section Status.
Context `{Externals}.

Lemma rate_within_unit (errors requests : nat) :
  errors ≤ requests →
  (0 <= INR errors / INR (Nat.max requests 1) <= 1)%R.
Proof.
  intros Hle.
  assert (0 < INR (Nat.max requests 1))%R as Hpos by (apply lt_0_INR; lia).
  assert (INR errors <= INR (Nat.max requests 1))%R as Hbound
    by (apply le_INR; lia).
  pose proof (pos_INR errors) as Hnonneg.
  set (x := INR errors) in *. set (y := INR (Nat.max requests 1)) in *.
  split.
  - unfold Rdiv. apply Rle_mult_inv_pos; done.
  - replace 1%R with (y / y)%R by (field; lra).
    unfold Rdiv. apply Rmult_le_compat_r; [|done].
    left. by apply Rinv_0_lt_compat.
Qed.

(** X9.  [get_server_status] never fails, in any world, and counts and
    calls nothing: the division that gives the error rate is guarded by
    [max(request_count, 1)].  In a world reached by the server the
    figures it reports are consistent: the errors are among the
    requests, the error rate lies between 0 and 1, the uptime is not
    negative, and the sizes of the categories are within their
    ceilings, the order-book category being empty. *)
Theorem server_status_is_consistent w :
  ∃ st w', get_server_status w = (Ok st, w')
    ∧ status st = "running"
    ∧ total_requests st = request_count (server w)
    ∧ total_errors st = error_count (server w)
    ∧ error_rate st
      = (INR (error_count (server w))
         / INR (Nat.max (request_count (server w)) 1))%R
    ∧ uptime_seconds st = (now w - start_time (server w))%Z
    ∧ counters w' = counters w ∧ calls w' = calls w ∧ now w' = now w
    ∧ (reachable w →
       total_errors st ≤ total_requests st
       ∧ (0 <= error_rate st <= 1)%R
       ∧ (0 ≤ uptime_seconds st)%Z
       ∧ ticker_size st ≤ 1000
       ∧ ohlcv_size st ≤ 500
       ∧ orderbook_size st = 0).
Proof.
  unfold get_server_status.
  rewrite div_nonzero by (apply not_0_INR; lia).
  unfold len. eexists _, _. split; [reflexivity|]. cbn.
  split_and!; try done.
  intros Hreach.
  pose proof (reachable_errors_within_requests w Hreach) as Hcount.
  pose proof (reachable_orderbook_empty w Hreach) as Hob.
  apply reachable_caches_sound in Hreach
    as (Hstart & Hwt & Hmt & _ & Hwo & Hmo & _).
  destruct Hwt as (_ & _ & _ & _ & _ & Hst).
  destruct Hwo as (_ & _ & _ & _ & _ & Hso).
  unfold errors_within_requests, orderbook_empty, orderbook_of, caches in *.
  pose proof (rate_within_unit _ _ Hcount) as [Hrate0 Hrate1].
  pose proof (currsize_expire (ticker_cache (cache (server w))) (now w)).
  pose proof (currsize_expire (ohlcv_cache (cache (server w))) (now w)).
  rewrite Hob. split_and!; try done; lia.
Qed.
End Status.

(** ** Failures and statistics *)

Section Failures.
Context `{Externals}.

Lemma guarded_raises {A} (m : M A) (f : exn → exn) w e :
  (try_except m (λ e, incr_error_count;; raise (f e)) w).1 = Raise e →
  ∃ cause, e = f cause.
Proof.
  unfold try_except. destruct (m w) as [[a|cause] w']; [done|].
  intros [= <-]. eauto.
Qed.

Lemma wrapped_raises {A} (m : M A) (f : exn → exn) w e :
  (try_except m (λ e, raise (f e)) w).1 = Raise e → ∃ cause, e = f cause.
Proof.
  unfold try_except. destruct (m w) as [[a|cause] w']; [done|].
  intros [= <-]. eauto.
Qed.

Lemma ticker_error_message cause :
  ticker_error cause
  = RuntimeError (match cause with
                  | NetworkError _ => "Network error: "
                  | ExchangeError _ => "Exchange error: "
                  | _ => "Unexpected error: "
                  end +:+ str_exn cause).
Proof. by destruct cause. Qed.

Lemma get_ticker_raises request w e :
  (get_ticker request w).1 = Raise e → ∃ cause, e = ticker_error cause.
Proof.
  unfold get_ticker. rewrite mbind_unfold.
  change (incr_request_count w) with (Ok (), requested w). cbv beta iota.
  destruct (cache_lookup_ticker (Exchange_value (exchange request))
              (symbol request) (requested w)) as (o & w2 & Hlook & _).
  rewrite mbind_unfold, Hlook. destruct o as [data|]; [done|].
  apply guarded_raises.
Qed.

Lemma get_ohlcv_raises request w e :
  (get_ohlcv request w).1 = Raise e →
  ∃ cause, e = RuntimeError ("Failed to fetch OHLCV data: " +:+ str_exn cause).
Proof.
  unfold get_ohlcv. rewrite mbind_unfold.
  change (incr_request_count w) with (Ok (), requested w). cbv beta iota.
  destruct (cache_lookup_ohlcv (Exchange_value (exchange (base request)))
              (symbol (base request)) (TimeFrame_value (timeframe request))
              (limit request) (requested w)) as (o & w2 & Hlook & _).
  rewrite mbind_unfold, Hlook. cbv zeta.
  destruct o as [[|d data]|]; [|done|];
    apply (guarded_raises _ (λ e, RuntimeError
             ("Failed to fetch OHLCV data: " +:+ str_exn e))).
Qed.

Lemma get_orderbook_raises request limit w e :
  (get_orderbook request limit w).1 = Raise e →
  ∃ cause, e = RuntimeError ("Failed to fetch orderbook: " +:+ str_exn cause).
Proof.
  unfold get_orderbook. rewrite mbind_unfold.
  change (incr_request_count w) with (Ok (), requested w). cbv beta iota.
  apply (guarded_raises _ (λ e, RuntimeError
           ("Failed to fetch orderbook: " +:+ str_exn e))).
Qed.

(** X10.  The endpoints that talk to an exchange raise nothing but
    [RuntimeError]: whatever goes wrong inside them (an unknown or
    unreachable exchange, a malformed reply, a failed conversion) is
    caught and raised again under the message of the endpoint. *)
Theorem endpoints_raise_only_runtime_error :
  (∀ request w e,
     (get_ticker request w).1 = Raise e →
     ∃ cause, e = RuntimeError
                    (match cause with
                     | NetworkError _ => "Network error: "
                     | ExchangeError _ => "Exchange error: "
                     | _ => "Unexpected error: "
                     end +:+ str_exn cause))
  ∧ (∀ request limit w e,
       (get_orderbook request limit w).1 = Raise e →
       ∃ cause, e = RuntimeError
                      ("Failed to fetch orderbook: " +:+ str_exn cause))
  ∧ (∀ request w e,
       (get_ohlcv request w).1 = Raise e →
       ∃ cause, e = RuntimeError
                      ("Failed to fetch OHLCV data: " +:+ str_exn cause))
  ∧ (∀ name w e,
       (get_exchange_info name w).1 = Raise e →
       ∃ cause, e = RuntimeError
                      ("Failed to get exchange info: " +:+ str_exn cause))
  ∧ (∀ query name w e,
       (search_symbols query name w).1 = Raise e →
       ∃ cause, e = RuntimeError
                      ("Failed to search symbols: " +:+ str_exn cause)).
Proof.
  split_and!.
  - intros request w e [cause ->]%get_ticker_raises.
    exists cause. apply ticker_error_message.
  - apply get_orderbook_raises.
  - apply get_ohlcv_raises.
  - intros name w e. unfold get_exchange_info.
    apply (wrapped_raises _ (λ e, RuntimeError
             ("Failed to get exchange info: " +:+ str_exn e))).
  - intros query name w e. unfold search_symbols.
    apply (wrapped_raises _ (λ e, RuntimeError
             ("Failed to search symbols: " +:+ str_exn e))).
Qed.
End Failures.

Section StatisticsFacts.
Context `{Externals}.

Lemma last_elem_of {A} (x : A) l d : List.last (x :: l) d ∈ x :: l.
Proof.
  revert x. induction l as [|y l IH]; intros x; [left|].
  right. apply IH.
Qed.

(** X11.  The figures of a statistics report fit together: the period is
    the number of candles, at least one; the current price is the last
    close; the highest and the lowest price are closes that no close
    exceeds or goes below, so the current price is neither above the
    highest nor below the lowest; the first close is not zero, the price
    change is the current price minus the first close, and the
    percentage is the change divided by the first close, times 100. *)
Theorem statistics_are_consistent request data st :
  statistics_of request data = Ok st →
  period st = length data ∧ 1 ≤ period st
  ∧ list.last (close <$> data) = Some (current_price st)
  ∧ is_max (highest_price st) (close <$> data)
  ∧ is_min (lowest_price st) (close <$> data)
  ∧ (highest_price st <? current_price st)%float = false
  ∧ (current_price st <? lowest_price st)%float = false
  ∧ (∃ d, head data = Some d
          ∧ (close d =? 0)%float = false
          ∧ price_change st = (current_price st - close d)%float
          ∧ price_change_percent st
            = (price_change st / close d * 100)%float).
Proof.
  destruct data as [|d rest]; [done|].
  rewrite statistics_of_run.
  destruct (close d =? 0)%float eqn:Hfirst; [done|].
  destruct (_calculate_volatility _) as [vol|e]; [|done].
  intros [= <-].
  cbn [period current_price highest_price lowest_price price_change
       price_change_percent].
  pose proof (max_fold_spec (close d) (close <$> rest)) as Hmax.
  pose proof (min_fold_spec (close d) (close <$> rest)) as Hmin.
  pose proof (last_elem_of (close d) (close <$> rest) 0%float) as Hlast.
  rewrite !fmap_cons.
  split; [done|]. split; [simpl; lia|].
  split.
  { pose proof (last_item_cons (close d) (close <$> rest) 0%float) as Hl.
    unfold last_item in Hl. destruct (list.last _); [|done].
    by injection Hl as ->. }
  split; [done|]. split; [done|].
  split; [by apply Hmax|]. split; [by apply Hmin|].
  by exists d.
Qed.

(** X12.  A statistics request is counted as one request, and as an error
    only when the candles could not be obtained: when they were obtained
    but the statistics fail the error counter stays as it is.  Nothing
    else than obtaining the candles happens to the world.  Without
    candles the request fails with the no-data error; with a first close
    of zero, with a division by zero; otherwise it succeeds for a single
    candle, and for more candles exactly when the population standard
    deviation can be evaluated: the only other failure is the overflow
    of a power. *)
Theorem price_statistics_outcomes request w :
  (get_price_statistics request w).2 = (get_ohlcv request w).2
  ∧ request_count (server (get_price_statistics request w).2)
    = request_count (server w) + 1
  ∧ error_count (server (get_price_statistics request w).2)
    = error_count (server w)
      + (if is_ok (get_ohlcv request w).1 then 0 else 1)
  ∧ match (get_ohlcv request w).1 with
    | Raise e =>
        (get_price_statistics request w).1 = Raise e
        ∧ ∃ cause, e = RuntimeError
                         ("Failed to fetch OHLCV data: " +:+ str_exn cause)
    | Ok [] =>
        (get_price_statistics request w).1
        = Raise (ValueError "No data available for statistics")
    | Ok (d :: rest) =>
        ((close d =? 0)%float = true →
         (get_price_statistics request w).1
         = Raise (ZeroDivisionError "float division by zero"))
        ∧ ((close d =? 0)%float = false →
           (rest = [] → is_ok (get_price_statistics request w).1 = true)
           ∧ (rest ≠ [] →
              is_ok (get_price_statistics request w).1
              = is_ok (population_std (close <$> d :: rest)))
           ∧ (∀ e, (get_price_statistics request w).1 = Raise e →
                   e = OverflowError strerror_ERANGE))
    end.
Proof.
  pose proof (get_ohlcv_counted request w) as [Hr He].
  pose proof (get_ohlcv_raises request w) as Hraise.
  rewrite get_price_statistics_unfold.
  destruct (get_ohlcv request w) as [[data|e] w']; simpl in *.
  - split; [done|]. split; [done|]. split; [done|].
    destruct data as [|d rest]; [done|]. split.
    + intros Hzero. by rewrite statistics_of_zero_first.
    + intros Hfirst. rewrite statistics_of_run, Hfirst.
      split_and!.
      * intros ->. by rewrite calculate_volatility_single by (simpl; lia).
      * intros Hrest.
        rewrite calculate_volatility_population
          by (destruct rest; [done|simpl; lia]).
        by destruct (population_std _).
      * intros e.
        destruct (_calculate_volatility _) as [vol|e'] eqn:Hvol; [done|].
        intros [= <-]. by apply calculate_volatility_raises in Hvol.
  - split; [done|]. split; [done|]. split; [done|]. split; [done|].
    by apply Hraise.
Qed.

(** X13.  The outcomes of [_calculate_volatility].  With fewer than two
    prices it returns 0.0 without any arithmetic, whatever the price;
    with two or more it evaluates the population standard deviation.
    It fails only with the overflow of a power, never with a division by
    zero; and what it returns is a float unless the variance it reached
    is negative. *)
Theorem volatility_outcomes prices :
  (length prices < 2 → _calculate_volatility prices = Ok (Float 0))
  ∧ (2 ≤ length prices →
     _calculate_volatility prices = population_std prices)
  ∧ (∀ e, _calculate_volatility prices = Raise e →
          2 ≤ length prices ∧ e = OverflowError strerror_ERANGE)
  ∧ (∀ b y, _calculate_volatility prices = Ok (Complex b y) →
            2 ≤ length prices ∧ (b <? 0)%float = true ∧ y = 0.5%float).
Proof.
  split; [apply calculate_volatility_single|].
  split; [apply calculate_volatility_population|].
  split.
  - intros e He. split; [|by apply calculate_volatility_raises in He].
    destruct (decide (length prices < 2)) as [Hlen|Hlen]; [|lia].
    by rewrite calculate_volatility_single in He.
  - intros b y Hc.
    destruct (decide (length prices < 2)) as [Hlen|Hlen].
    { by rewrite calculate_volatility_single in Hc. }
    split; [lia|]. rewrite calculate_volatility_population in Hc by lia.
    unfold population_std in Hc.
    destruct (squared_deviations prices) as [sq|e]; [|done]. simpl in Hc.
    by apply float_pow_complex in Hc as (_ & Hneg & -> & ->).
Qed.
End StatisticsFacts.

(** ** The registry of exchanges *)

Section Registry.
Context `{Externals}.

Lemma Exchange_value_inj e1 e2 :
  Exchange_value e1 = Exchange_value e2 → e1 = e2.
Proof. by destruct e1, e2. Qed.

Lemma NoDup_all_Exchange : NoDup all_Exchange.
Proof.
  unfold all_Exchange.
  repeat (apply NoDup_cons_2;
          [rewrite ?not_elem_of_cons; split_and?; try done;
           apply not_elem_of_nil|]).
  apply NoDup_nil_2.
Qed.

Lemma elem_of_all_Exchange e : e ∈ all_Exchange.
Proof.
  unfold all_Exchange. rewrite !elem_of_cons.
  destruct e; repeat first [by left | right].
Qed.

Lemma register_all (construct : Exchange → result Handle) (l : list Exchange)
    (reg : gmap string Handle) (id : string) (h : Handle) :
  NoDup l →
  foldl (λ (reg : gmap string Handle) e, match construct e with
                  | Ok h => <[Exchange_value e := h]> reg
                  | Raise _ => reg
                  end) reg l !! id = Some h
  ↔ (∃ e, e ∈ l ∧ Exchange_value e = id ∧ construct e = Ok h)
    ∨ (reg !! id = Some h
       ∧ ∀ e, e ∈ l → Exchange_value e = id → is_ok (construct e) = false).
Proof.
  revert reg. induction l as [|e l IH]; intros reg Hnd; simpl.
  { split; [intros ?; right; split; [done|by intros ? ?%elem_of_nil]|].
    intros [(e & ?%elem_of_nil & _)|[? _]]; done. }
  apply NoDup_cons in Hnd as [He Hnd]. rewrite IH by done. clear IH.
  split.
  - intros [(e' & ? & ? & ?)|[Hreg Hrest]].
    { left. exists e'. split; [by right|done]. }
    destruct (construct e) as [h'|err] eqn:Hc.
    + apply lookup_insert_Some in Hreg as [[<- <-]|[Hne Hreg]].
      * left. exists e. split; [left|done].
      * right. split; [done|]. intros e' [->|?]%elem_of_cons ?; [done|eauto].
    + right. split; [done|].
      intros e' [->|?]%elem_of_cons ?; [by rewrite Hc|eauto].
  - intros [(e' & [->|Hin]%elem_of_cons & Hid & Hc)|[Hreg Hrest]].
    + right. rewrite Hc. subst id. split; [apply lookup_insert_eq|].
      intros e' Hin ->%Exchange_value_inj. done.
    + left. eauto.
    + right. assert (is_ok (construct e) = false ∨ Exchange_value e ≠ id)
        as Hcase.
      { destruct (decide (Exchange_value e = id)); [left|by right].
        apply Hrest; [left|done]. }
      split; [|intros e' ? ?; apply Hrest; [by right|done]].
      destruct (construct e) as [h'|err] eqn:Hc; [|done].
      destruct Hcase as [?|Hne]; [done|]. by rewrite lookup_insert_ne.
Qed.

(** X14.  [_initialize_exchanges] registers, under its name, every
    exchange whose constructor succeeded, with the object it returned, and
    nothing else: an exchange whose constructor raised is skipped without
    disturbing the others, and every request for it fails in
    [get_exchange]. *)
Theorem exchanges_registered_iff_constructed construct :
  (∀ id h,
     _initialize_exchanges construct !! id = Some h
     ↔ ∃ e, Exchange_value e = id ∧ construct e = Ok h)
  ∧ (∀ e t up,
       is_ok (get_exchange (Exchange_value e)
                (initial_world construct t up)).1
       = is_ok (construct e)).
Proof.
  assert (∀ id h,
            _initialize_exchanges construct !! id = Some h
            ↔ ∃ e, Exchange_value e = id ∧ construct e = Ok h) as Hreg.
  { intros id h. unfold _initialize_exchanges.
    rewrite register_all by apply NoDup_all_Exchange. split.
    - intros [(e & _ & ? & ?)|[Hempty _]]; [eauto|].
      by rewrite lookup_empty in Hempty.
    - intros (e & ? & ?). left. exists e.
      split; [apply elem_of_all_Exchange|done]. }
  split; [exact Hreg|]. intros e t up.
  unfold get_exchange, initial_world. simpl.
  rewrite lower_Exchange_value.
  destruct (_initialize_exchanges construct !! Exchange_value e) as [h|] eqn:Hl.
  - apply Hreg in Hl as (e' & ->%Exchange_value_inj & ->). done.
  - destruct (construct e) as [h|err] eqn:Hc; [|done].
    assert (_initialize_exchanges construct !! Exchange_value e = Some h)
      as Hsome by (apply Hreg; eauto).
    congruence.
Qed.

(** The handle of an exchange once its catalogue is stored. *)
Lemma load_markets_missing name w h :
  exchanges (exchange_manager (server w)) !! lower name = Some h →
  markets_missing h = true →
  load_markets name w
  = match load_markets_reply (upstream w) (calls w) (lower name) with
    | Ok catalog =>
        store_markets (lower name) catalog (called (LoadMarkets (lower name)) w)
    | Raise e => (Raise e, called (LoadMarkets (lower name)) w)
    end.
Proof.
  intros Hreg Hm. unfold load_markets.
  rewrite (mbind_ok _ _ _ _ _ (get_exchange_registered _ _ _ Hreg)).
  rewrite (mbind_ok _ _ _ _ _ (handle_of_registered _ _ _ Hreg)).
  rewrite Hm, mbind_unfold, upstream_call_run.
  by destruct (load_markets_reply _ _ _).
Qed.

(** A missing catalogue is fetched and stored in the handle. *)
Lemma load_markets_stores name w h catalog :
  exchanges (exchange_manager (server w)) !! lower name = Some h →
  markets_missing h = true →
  load_markets_reply (upstream w) (calls w) (lower name) = Ok catalog →
  ∃ w1 h1,
    load_markets name w = (Ok (), w1)
    ∧ calls w1 = calls w ++ [LoadMarkets (lower name)]
    ∧ exchanges (exchange_manager (server w1)) !! lower name = Some h1
    ∧ markets h1 = Some catalog
    ∧ caches w1 = caches w ∧ counters w1 = counters w.
Proof.
  intros Hreg Hm Hreply.
  rewrite (load_markets_missing _ _ _ Hreg Hm), Hreply.
  unfold store_markets, with_server.
  eexists _, (mkHandle (h_id h) (h_name h) (h_countries h) (h_has h)
                (h_timeframes h) (h_rateLimit h) (Some catalog)).
  split; [reflexivity|]. cbn [calls called server exchanges exchange_manager].
  split; [done|]. split; [by rewrite lookup_alter_eq, Hreg|]. done.
Qed.

(** X15.  The catalogue of an exchange is loaded on first use, by one
    upstream call, and kept in the handle: as long as it is not empty no
    later request loads it again.  An empty catalogue counts as missing
    and is loaded again by the next request.  Loading touches neither the
    caches nor the counters. *)
Theorem markets_are_loaded_once name w h catalog :
  exchanges (exchange_manager (server w)) !! lower name = Some h →
  markets_missing h = true →
  load_markets_reply (upstream w) (calls w) (lower name) = Ok catalog →
  ∃ w1 h1,
    load_markets name w = (Ok (), w1)
    ∧ calls w1 = calls w ++ [LoadMarkets (lower name)]
    ∧ exchanges (exchange_manager (server w1)) !! lower name = Some h1
    ∧ markets h1 = Some catalog
    ∧ caches w1 = caches w ∧ counters w1 = counters w
    ∧ (catalog ≠ [] → load_markets name w1 = (Ok (), w1))
    ∧ (catalog = [] →
       calls (load_markets name w1).2
       = calls w1 ++ [LoadMarkets (lower name)]).
Proof.
  intros Hreg Hm Hreply.
  destruct (load_markets_stores name w h catalog Hreg Hm Hreply)
    as (w1 & h1 & Hload & Hcalls & Hreg1 & Hm1 & Hcaches & Hcounters).
  exists w1, h1. split_and!; try done.
  - intros Hne. apply (load_markets_loaded _ _ h1); [exact Hreg1|].
    unfold markets_missing. rewrite Hm1. by destruct catalog.
  - intros ->. rewrite (load_markets_missing _ _ h1); [|exact Hreg1|].
    + by case_match.
    + unfold markets_missing. by rewrite Hm1.
Qed.
End Registry.

(** ** Searches and fan-outs *)

Section Search.
Context `{Externals}.

(** X16.  The first search on an exchange whose catalogue is missing loads
    it with one upstream call and searches what was loaded; the catalogue
    stays with the exchange, and the same search made again calls
    nothing and returns the same symbols. *)
Theorem first_search_loads_the_catalogue query name w h catalog :
  exchanges (exchange_manager (server w)) !! lower name = Some h →
  markets_missing h = true →
  load_markets_reply (upstream w) (calls w) (lower name) = Ok catalog →
  catalog ≠ [] →
  ∃ w1,
    search_symbols query name w
    = (Ok (take 50 (sorted String.leb (matching query catalog))), w1)
    ∧ calls w1 = calls w ++ [LoadMarkets (lower name)]
    ∧ search_symbols query name w1
      = (Ok (take 50 (sorted String.leb (matching query catalog))), w1).
Proof.
  intros Hreg Hm Hreply Hne.
  destruct (load_markets_stores name w h catalog Hreg Hm Hreply)
    as (w1 & h1 & Hload & Hcalls & Hreg1 & Hm1 & _ & _).
  exists w1. split; [|split; [done|]].
  - unfold search_symbols. apply try_except_ok.
    rewrite (mbind_ok _ _ _ _ _ (get_exchange_registered _ _ _ Hreg)).
    rewrite (mbind_ok _ _ _ _ _ Hload).
    rewrite (mbind_ok _ _ _ _ _ (handle_of_registered _ _ _ Hreg1)).
    rewrite Hm1. reflexivity.
  - by apply (search_symbols_loaded query name w1 h1 catalog).
Qed.
End Search.

Section FanOutFacts.
Context `{Externals}.

(** The failed sub-queries of a fan-out. *)
Lemma sub_query_counters requests w :
  request_count (server (sub_query_outcomes requests w).2)
  = request_count (server w) + length requests
  ∧ error_count (server (sub_query_outcomes requests w).2)
    = error_count (server w)
      + length (filter (λ o, is_ok o = false)
                  (sub_query_outcomes requests w).1).
Proof.
  revert w. induction requests as [|r rs IH]; intros w; simpl; [lia|].
  pose proof (get_ticker_counted r w) as [Hr He].
  destruct (get_ticker r w) as [o w1]. specialize (IH w1).
  destruct (sub_query_outcomes rs w1) as [os w2]. simpl in *.
  destruct IH as [-> ->]. rewrite Hr, He.
  destruct o; simpl; rewrite ?filter_cons_False by done; lia.
Qed.

Lemma size_collect_results (pairs : list (Exchange * option TickerData))
    (d : gmap string TickerData) :
  NoDup pairs.*1 →
  (∀ e, e ∈ pairs.*1 → d !! Exchange_value e = None) →
  size (foldl (λ d p, match p.2 with
                      | Some data => <[Exchange_value p.1 := data]> d
                      | None => d
                      end) d pairs)
  = size d + length (filter (λ p, is_Some p.2) pairs).
Proof.
  revert d. induction pairs as [|[e o] pairs IH]; intros d Hnd Hfresh; simpl.
  { lia. }
  rewrite fmap_cons in Hnd, Hfresh. simpl in Hnd, Hfresh.
  apply NoDup_cons in Hnd as [He Hnd].
  destruct o as [data|].
  - rewrite filter_cons_True by (simpl; eauto). simpl. rewrite IH; [|done|].
    + rewrite map_size_insert_None by (apply Hfresh; left). simpl. lia.
    + intros e' He'. rewrite lookup_insert_ne.
      * apply Hfresh. by right.
      * intros ->%Exchange_value_inj. done.
  - rewrite filter_cons_False by (simpl; by intros [? ?]). simpl.
    apply IH; [done|].
    intros e' He'. apply Hfresh. by right.
Qed.

Lemma count_results (es : list Exchange) (os : list (result TickerData)) :
  length os = length es →
  length (filter (λ p : Exchange * option TickerData, is_Some p.2)
            (zip es (to_option <$> os)))
  + length (filter (λ o : result TickerData, is_ok o = false) os)
  = length es.
Proof.
  revert os. induction es as [|e es IH]; intros [|o os] Hlen;
    simpl in Hlen; try done.
  specialize (IH os ltac:(lia)). rewrite fmap_cons.
  change (zip (e :: es) (to_option o :: (to_option <$> os)))
    with ((e, to_option o) :: zip es (to_option <$> os)).
  destruct o.
  - rewrite filter_cons_True by (simpl; eauto).
    rewrite filter_cons_False by done. simpl. lia.
  - rewrite filter_cons_False by (simpl; by intros [? ?]).
    rewrite filter_cons_True by done. simpl. lia.
Qed.

(** X17.  A fan-out over a valid symbol counts one request for every
    exchange asked and one error for every sub-query that failed; and
    when the exchanges asked are distinct, each of them is either in the
    result or counted as an error. *)
Theorem fan_out_accounts_for_every_exchange symbol exchanges w :
  str_in "/" symbol = true →
  let es := default all_Exchange exchanges in
  let outcomes :=
    (sub_query_outcomes (mkMarketDataRequest (upper symbol) <$> es) w).1 in
  ∃ m w', get_multi_exchange_ticker symbol exchanges w = (Ok m, w')
    ∧ request_count (server w') = request_count (server w) + length es
    ∧ error_count (server w')
      = error_count (server w)
        + length (filter (λ o, is_ok o = false) outcomes)
    ∧ (NoDup es →
       size m + (error_count (server w') - error_count (server w))
       = length es).
Proof.
  intros Hs es outcomes. unfold get_multi_exchange_ticker. fold es.
  rewrite mbind_unfold, build_requests by done.
  rewrite mbind_unfold, gather_outcomes. fold outcomes.
  pose proof (sub_query_counters (mkMarketDataRequest (upper symbol) <$> es) w)
    as [Hr He].
  rewrite length_fmap in Hr. fold outcomes in He.
  eexists _, _. split; [reflexivity|]. split; [done|]. split; [done|].
  intros Hnd. rewrite He.
  assert (length outcomes = length es) as Hlen.
  { unfold outcomes. by rewrite length_sub_query_outcomes, length_fmap. }
  unfold collect_results. rewrite size_collect_results.
  - rewrite map_size_empty.
    pose proof (count_results es outcomes Hlen). lia.
  - by rewrite fst_zip by (rewrite length_fmap; lia).
  - intros e _. apply lookup_empty.
Qed.

(** X18.  The symbol of a fan-out is validated when the requests are
    built: with a symbol that has no separator and at least one exchange
    to ask, the validation error is raised before anything is counted or
    called; with no exchange to ask, nothing is validated, counted or
    called, and the result is the empty mapping, whatever the symbol. *)
Theorem fan_out_validates_before_asking symbol exchanges w :
  (str_in "/" symbol = false →
   default all_Exchange exchanges ≠ [] →
   get_multi_exchange_ticker symbol exchanges w
   = (Raise (ValidationError
               "Symbol must be in format BASE/QUOTE (e.g., BTC/USDT)"), w))
  ∧ get_multi_exchange_ticker symbol (Some []) w = (Ok ∅, w).
Proof.
  split; [|done]. intros Hs Hne. unfold get_multi_exchange_ticker.
  destruct (default all_Exchange exchanges) as [|e es]; [done|].
  rewrite mbind_unfold, for_each_cons, mbind_unfold. unfold lift at 1.
  by rewrite MarketDataRequest_init_invalid.
Qed.
End FanOutFacts.

(** ** What the endpoints send upstream *)

Section Footprint.
Context `{Externals}.

Lemma emits_weaken {A} l l' (m : M A) :
  sublist l l' → emits l m → emits l' m.
Proof.
  intros Hsub Hm w. destruct (Hm w) as (extra & ? & ?).
  exists extra. split; [done|]. by etrans.
Qed.

Lemma emits_preserves {A} (m : M A) : preserves calls m → emits [] m.
Proof. intros Hm w. exists []. by rewrite Hm, app_nil_r. Qed.

Lemma emits_mbind {A B} l1 l2 (m : M A) (k : A → M B) :
  emits l1 m → (∀ a, emits l2 (k a)) → emits (l1 ++ l2) (m ≫= k).
Proof.
  intros Hm Hk w. rewrite mbind_unfold. destruct (Hm w) as (x1 & H1 & Hs1).
  destruct (m w) as [[a|e] w1]; simpl in *.
  - destruct (Hk a w1) as (x2 & H2 & Hs2). exists (x1 ++ x2).
    rewrite H2, H1, app_assoc. split; [done|]. by apply sublist_app.
  - exists x1. split; [done|]. by apply sublist_inserts_r.
Qed.

Lemma emits_try_except {A} l (m : M A) (h : exn → M A) :
  emits l m → (∀ e, preserves calls (h e)) → emits l (try_except m h).
Proof.
  intros Hm Hh w. unfold try_except. destruct (Hm w) as (x & Hx & Hs).
  destruct (m w) as [[a|e] w1]; simpl in *; [by exists x|].
  exists x. by rewrite Hh.
Qed.

Lemma emits_upstream_call {A} c (reply : Upstream → list Call → result A) :
  emits [c] (upstream_call c reply).
Proof. intros w. by exists [c]. Qed.

(** What follows [get_exchange] is run on the lower-cased name. *)
Lemma emits_get_exchange {A} l name (k : string → M A) :
  emits l (k (lower name)) → emits l (get_exchange name ≫= k).
Proof.
  intros Hk w. rewrite mbind_unfold. unfold get_exchange.
  destruct (exchanges _ !! _); [apply Hk|].
  exists []. simpl. rewrite app_nil_r. split; [done|apply sublist_nil_l].
Qed.

Lemma load_markets_emits name : emits [LoadMarkets (lower name)] (load_markets name).
Proof.
  unfold load_markets. apply emits_get_exchange.
  apply (emits_mbind [] [LoadMarkets (lower name)]).
  { apply emits_preserves, preserves_handle_of. }
  intros h. destruct (markets_missing h).
  - apply (emits_mbind [LoadMarkets (lower name)] []).
    + apply emits_upstream_call.
    + intros catalog. apply emits_preserves. by intros w.
  - apply (emits_weaken []); [apply sublist_nil_l|].
    apply emits_preserves. by intros w.
Qed.

Lemma get_ticker_emits request :
  emits [LoadMarkets (Exchange_value (exchange request)); ticker_call request]
    (get_ticker request).
Proof.
  unfold get_ticker.
  apply (emits_mbind [] [_; _]); [apply emits_preserves; by intros w|].
  intros _. apply (emits_mbind [] [_; _]).
  { apply emits_preserves. frame. }
  intros [data|].
  { apply (emits_weaken []); [apply sublist_nil_l|].
    apply emits_preserves. by intros w. }
  apply emits_try_except; [|intros e; frame].
  unfold get_ticker_fetch. apply emits_get_exchange.
  rewrite lower_Exchange_value.
  apply (emits_mbind [_] [_]).
  { rewrite <- (lower_Exchange_value (exchange request)) at 1.
    apply load_markets_emits. }
  intros _. apply (emits_mbind [_] []); [apply emits_upstream_call|].
  intros ticker. apply emits_preserves. frame.
Qed.

Lemma get_ohlcv_emits request :
  emits [LoadMarkets (Exchange_value (exchange (base request)));
         ohlcv_call request]
    (get_ohlcv request).
Proof.
  assert (emits [LoadMarkets (Exchange_value (exchange (base request)));
                 ohlcv_call request]
            (try_except (get_ohlcv_fetch request)
               (λ e, incr_error_count;;
                     raise (RuntimeError
                              ("Failed to fetch OHLCV data: " +:+ str_exn e)))))
    as Hmiss.
  { apply emits_try_except; [|intros e; frame].
    unfold get_ohlcv_fetch. cbv zeta. apply emits_get_exchange.
    rewrite lower_Exchange_value.
    apply (emits_mbind [_] [_]).
    { rewrite <- (lower_Exchange_value (exchange (base request))) at 1.
      apply load_markets_emits. }
    intros _. apply (emits_mbind [_] []); [apply emits_upstream_call|].
    intros ohlcv. apply emits_preserves. frame. }
  unfold get_ohlcv.
  apply (emits_mbind [] [_; _]); [apply emits_preserves; by intros w|].
  intros _. apply (emits_mbind [] [_; _]).
  { apply emits_preserves. frame. }
  intros [[|d data]|]; cbn [truthy_list]; try exact Hmiss.
  apply (emits_weaken []); [apply sublist_nil_l|].
  apply emits_preserves. by intros w.
Qed.

(** X19.  What each endpoint may send upstream: a request for a ticker, an
    order book or candles sends at most the loading of the catalogue of
    its exchange followed by the one fetch it is about; a statistics
    request sends what the candle request sends; a search or an exchange
    information request sends at most the loading of the catalogue; the
    status and the clearing of the cache send nothing. *)
Theorem upstream_calls_of_the_endpoints :
  (∀ request,
     emits [LoadMarkets (Exchange_value (exchange request));
            ticker_call request]
       (get_ticker request))
  ∧ (∀ request limit,
       emits [LoadMarkets (Exchange_value (exchange request));
              orderbook_call request limit]
         (get_orderbook request limit))
  ∧ (∀ request,
       emits [LoadMarkets (Exchange_value (exchange (base request)));
              ohlcv_call request]
         (get_ohlcv request))
  ∧ (∀ request,
       emits [LoadMarkets (Exchange_value (exchange (base request)));
              ohlcv_call request]
         (get_price_statistics request))
  ∧ (∀ name, emits [LoadMarkets (lower name)] (get_exchange_info name))
  ∧ (∀ query name,
       emits [LoadMarkets (lower name)] (search_symbols query name))
  ∧ emits [] get_server_status
  ∧ emits [] clear_cache.
Proof.
  split_and!.
  - apply get_ticker_emits.
  - intros request limit. unfold get_orderbook.
    apply (emits_mbind [] [_; _]); [apply emits_preserves; by intros w|].
    intros _. apply emits_try_except; [|intros e; frame].
    apply emits_get_exchange. rewrite lower_Exchange_value.
    apply (emits_mbind [_] [_]).
    { rewrite <- (lower_Exchange_value (exchange request)) at 1.
      apply load_markets_emits. }
    intros _. apply (emits_mbind [_] []); [apply emits_upstream_call|].
    intros orderbook. apply emits_preserves. frame.
  - apply get_ohlcv_emits.
  - intros request. unfold get_price_statistics.
    apply (emits_mbind [_; _] []); [apply get_ohlcv_emits|].
    intros data. apply emits_preserves. frame.
  - intros name. unfold get_exchange_info.
    apply emits_try_except; [|intros e; frame].
    apply emits_get_exchange.
    apply (emits_mbind [_] []); [apply load_markets_emits|].
    intros _. apply emits_preserves. frame.
  - intros query name. unfold search_symbols.
    apply emits_try_except; [|intros e; frame].
    apply emits_get_exchange.
    apply (emits_mbind [_] []); [apply load_markets_emits|].
    intros _. apply emits_preserves. frame.
  - apply emits_preserves. intros w. unfold get_server_status.
    by case_match.
  - apply emits_preserves. by intros w.
Qed.

(** X20.  The status, the clearing of the cache, the exchange information
    and the symbol search are not requests in the sense of the counters:
    they leave the request counter and the error counter as they are,
    also when they fail. *)
Theorem utility_endpoints_are_not_counted :
  preserves counters get_server_status
  ∧ preserves counters clear_cache
  ∧ (∀ name, preserves counters (get_exchange_info name))
  ∧ (∀ query name, preserves counters (search_symbols query name)).
Proof.
  split; [apply get_server_status_counters|].
  split; [apply clear_cache_counters|].
  split; [apply get_exchange_info_counters|apply search_symbols_counters].
Qed.
End Footprint.

(** ** Edge cases of the endpoints *)

Section EdgeCases.
Context `{Externals}.

Lemma get_exchange_unregistered name w :
  exchanges (exchange_manager (server w)) !! lower name = None →
  get_exchange name w
  = (Raise (ValueError ("Exchange " +:+ name +:+
                        " not supported or not initialized")), w).
Proof. intros Hreg. unfold get_exchange. by rewrite Hreg. Qed.

(** X21.  A request for an exchange that is not registered (its
    constructor failed, or the name is not that of a supported exchange)
    is answered without any upstream call: the read endpoints count the
    request and one error, the utility endpoints count nothing, and all
    raise [RuntimeError] with the message of [get_exchange] after their
    own prefix. *)
Theorem unregistered_exchange_is_refused w :
  (∀ request limit,
     exchanges (exchange_manager (server w))
       !! Exchange_value (exchange request) = None →
     get_orderbook request limit w
     = (Raise (RuntimeError
                 ("Failed to fetch orderbook: Exchange "
                  +:+ Exchange_value (exchange request)
                  +:+ " not supported or not initialized")),
        errored (requested w)))
  ∧ (∀ request,
       exchanges (exchange_manager (server w))
         !! Exchange_value (exchange request) = None →
       contains (ticker_cache (caches w))
         (ticker_key (Exchange_value (exchange request)) (symbol request))
         (now w) = false →
       get_ticker request w
       = (Raise (RuntimeError
                   ("Unexpected error: Exchange "
                    +:+ Exchange_value (exchange request)
                    +:+ " not supported or not initialized")),
          errored (requested w)))
  ∧ (∀ request,
       exchanges (exchange_manager (server w))
         !! Exchange_value (exchange (base request)) = None →
       contains (ohlcv_cache (caches w))
         (ohlcv_key (Exchange_value (exchange (base request)))
            (symbol (base request)) (TimeFrame_value (timeframe request))
            (limit request))
         (now w) = false →
       get_ohlcv request w
       = (Raise (RuntimeError
                   ("Failed to fetch OHLCV data: Exchange "
                    +:+ Exchange_value (exchange (base request))
                    +:+ " not supported or not initialized")),
          errored (requested w)))
  ∧ (∀ query name,
       exchanges (exchange_manager (server w)) !! lower name = None →
       search_symbols query name w
       = (Raise (RuntimeError
                   ("Failed to search symbols: Exchange " +:+ name
                    +:+ " not supported or not initialized")), w))
  ∧ (∀ name,
       exchanges (exchange_manager (server w)) !! lower name = None →
       get_exchange_info name w
       = (Raise (RuntimeError
                   ("Failed to get exchange info: Exchange " +:+ name
                    +:+ " not supported or not initialized")), w)).
Proof.
  split_and!.
  - intros request limit Hreg. unfold get_orderbook. rewrite mbind_unfold.
    change (incr_request_count w) with (Ok (), requested w). cbv beta iota.
    erewrite (guarded_raise _ (λ e, RuntimeError
                ("Failed to fetch orderbook: " +:+ str_exn e))).
    2:{ rewrite mbind_unfold, get_exchange_unregistered; [done|].
        by rewrite lower_Exchange_value. }
    reflexivity.
  - intros request Hreg Hmiss. rewrite get_ticker_miss by done.
    erewrite guarded_raise.
    2:{ unfold get_ticker_fetch.
        rewrite mbind_unfold, get_exchange_unregistered; [done|].
        by rewrite lower_Exchange_value. }
    reflexivity.
  - intros request Hreg Hmiss. rewrite get_ohlcv_miss by done.
    erewrite (guarded_raise _ (λ e, RuntimeError
                ("Failed to fetch OHLCV data: " +:+ str_exn e))).
    2:{ unfold get_ohlcv_fetch. cbv zeta.
        rewrite mbind_unfold, get_exchange_unregistered; [done|].
        by rewrite lower_Exchange_value. }
    reflexivity.
  - intros query name Hreg. unfold search_symbols, try_except.
    by rewrite mbind_unfold, get_exchange_unregistered.
  - intros name Hreg. unfold get_exchange_info, try_except.
    by rewrite mbind_unfold, get_exchange_unregistered.
Qed.

Lemma slice_to_nonneg {A} (n : Z) (l : list A) :
  (0 ≤ n)%Z → slice_to n l = take (Z.to_nat n) l.
Proof.
  intros Hn. unfold slice_to.
  by assert ((0 <=? n)%Z = true) as -> by (apply Z.leb_le; lia).
Qed.

(** X22.  An order book obtained with a non-negative limit holds, on each
    side, the first [limit] levels of what the exchange returned and
    never more; it is labelled with the symbol and the exchange of the
    request; the request is counted, no error is, and nothing is
    cached. *)
Theorem order_book_is_cut_to_the_limit request limit w orderbook ts :
  ready (Exchange_value (exchange request)) w →
  fetch_order_book_reply (upstream w) (calls w)
    (Exchange_value (exchange request)) (symbol request) limit
  = Ok orderbook →
  datetime_of_ms (rob_timestamp orderbook) = Ok ts →
  (0 ≤ limit)%Z →
  ∃ ob w', get_orderbook request limit w = (Ok ob, w')
    ∧ bids ob = take (Z.to_nat limit) (rob_bids orderbook)
    ∧ asks ob = take (Z.to_nat limit) (rob_asks orderbook)
    ∧ length (bids ob) ≤ Z.to_nat limit
    ∧ length (asks ob) ≤ Z.to_nat limit
    ∧ ob_symbol ob = symbol request
    ∧ ob_exchange ob = Exchange_value (exchange request)
    ∧ ob_timestamp ob = ts
    ∧ request_count (server w') = request_count (server w) + 1
    ∧ error_count (server w') = error_count (server w)
    ∧ caches w' = caches w.
Proof.
  intros Hready Hreply Hts Hlimit.
  rewrite get_orderbook_run by done. cbv zeta. rewrite Hreply, Hts.
  rewrite !slice_to_nonneg by done.
  eexists _, _. split; [reflexivity|]. cbn.
  split_and!; try done; rewrite length_take; lia.
Qed.

(** X23.  A reply without timestamp cannot be converted: the ticker or
    order-book request fails with [RuntimeError] after the upstream call,
    an error is counted, and no ticker is cached. *)
Theorem reply_without_timestamp_is_a_failure request w :
  ready (Exchange_value (exchange request)) w →
  (∀ ticker,
     contains (ticker_cache (caches w))
       (ticker_key (Exchange_value (exchange request)) (symbol request))
       (now w) = false →
     fetch_ticker_reply (upstream w) (calls w)
       (Exchange_value (exchange request)) (symbol request) = Ok ticker →
     raw_timestamp ticker = None →
     get_ticker request w
     = (Raise (RuntimeError
                 "Unexpected error: unsupported operand type(s) for /: 'NoneType' and 'int'"),
        errored (called (ticker_call request) (requested w))))
  ∧ (∀ limit orderbook,
       fetch_order_book_reply (upstream w) (calls w)
         (Exchange_value (exchange request)) (symbol request) limit
       = Ok orderbook →
       rob_timestamp orderbook = None →
       get_orderbook request limit w
       = (Raise (RuntimeError
                   "Failed to fetch orderbook: unsupported operand type(s) for /: 'NoneType' and 'int'"),
          errored (called (orderbook_call request limit) (requested w)))).
Proof.
  intros Hready. split.
  - intros ticker Hmiss Hreply Hts. rewrite get_ticker_miss by done.
    erewrite guarded_raise.
    2:{ rewrite get_ticker_fetch_run by done.
        change (upstream (requested w)) with (upstream w).
        change (calls (requested w)) with (calls w).
        rewrite Hreply. unfold TickerData_of. by rewrite Hts. }
    reflexivity.
  - intros limit orderbook Hreply Hts.
    rewrite get_orderbook_run by done. cbv zeta. by rewrite Hreply, Hts.
Qed.

Lemma or_else_cases x y v :
  required (or_else x y) = Ok v →
  (∃ b, x = Some b ∧ b ≠ 0%R ∧ v = b)
  ∨ ((x = None ∨ x = Some 0%R) ∧ y = Some v).
Proof.
  unfold or_else, truthy_float. destruct x as [b|].
  - destruct (Req_dec_T b 0) as [->|Hne].
    + destruct y as [c|]; [|done]. intros [= <-]. right. by split; [right|].
    + intros [= <-]. left. eauto.
  - destruct y as [c|]; [|done]. intros [= <-]. right. by split; [left|].
Qed.

(** X24.  The ticker built from a reply carries the symbol and the
    exchange of the request and the last price of the reply; its bid
    (and likewise its ask) is that of the reply when there is one other
    than zero, and the last price otherwise: a missing bid and a bid of
    zero are both replaced by the last price.  The 24 hour change is
    passed on as it is, present or not. *)
Theorem ticker_bid_and_ask_default_to_last request ticker data :
  TickerData_of request ticker = Ok data →
  tk_symbol data = symbol request
  ∧ tk_exchange data = Exchange_value (exchange request)
  ∧ raw_last ticker = Some (last data)
  ∧ ((∃ b, raw_bid ticker = Some b ∧ b ≠ 0%R ∧ bid data = b)
     ∨ ((raw_bid ticker = None ∨ raw_bid ticker = Some 0%R)
        ∧ bid data = last data))
  ∧ ((∃ a, raw_ask ticker = Some a ∧ a ≠ 0%R ∧ ask data = a)
     ∨ ((raw_ask ticker = None ∨ raw_ask ticker = Some 0%R)
        ∧ ask data = last data))
  ∧ change_24h data = raw_percentage ticker.
Proof.
  unfold TickerData_of.
  destruct (datetime_of_ms _) as [ts|]; [|done]. cbn [result_bind].
  destruct (raw_last ticker) as [l|] eqn:Hlast; [|done]. cbn [required result_bind].
  destruct (required (or_else (raw_bid ticker) (Some l))) as [b|] eqn:Hbid;
    [|done].
  cbn [result_bind].
  destruct (required (or_else (raw_ask ticker) (Some l))) as [a|] eqn:Hask;
    [|done].
  cbn [result_bind].
  destruct (raw_high ticker) as [hi|]; [|done].
  destruct (raw_low ticker) as [lo|]; [|done].
  destruct (raw_baseVolume ticker) as [vol|]; [|done].
  cbn [required result_bind]. intros [= <-]. cbn.
  apply or_else_cases in Hbid, Hask.
  split_and!; try done.
  - destruct Hbid as [?|[? [= ->]]]; [by left|by right].
  - destruct Hask as [?|[? [= ->]]]; [by left|by right].
Qed.
End EdgeCases.

(** ** Keys of different requests *)

Lemma count_char_app c s1 s2 :
  count_char c (s1 +:+ s2) = count_char c s1 + count_char c s2.
Proof.
  induction s1 as [|a s1 IH]; [done|].
  rewrite string_app_cons. simpl. rewrite IH. lia.
Qed.

(** Two strings cut at their first colon. *)
Lemma first_colon_split s1 s2 r1 r2 :
  count_char ":" s1 = 0 → count_char ":" s2 = 0 →
  s1 +:+ String ":" r1 = s2 +:+ String ":" r2 → s1 = s2 ∧ r1 = r2.
Proof.
  revert s2. induction s1 as [|a s1 IH]; intros [|b s2] H1 H2 Heq.
  - rewrite !string_app_nil_l in Heq. by injection Heq.
  - rewrite string_app_nil_l, string_app_cons in Heq. injection Heq as <- _.
    simpl in H2. rewrite ?decide_True in H2 by done. done.
  - rewrite string_app_nil_l, string_app_cons in Heq. injection Heq as -> _.
    simpl in H1. rewrite ?decide_True in H1 by done. done.
  - rewrite !string_app_cons in Heq. injection Heq as -> Heq.
    simpl in H1, H2. destruct (IH s2) as [-> ->]; [lia..|done|done].
Qed.

(** Two strings cut at their last colon. *)
Lemma last_colon_split s1 s2 r1 r2 :
  count_char ":" r1 = 0 → count_char ":" r2 = 0 →
  s1 +:+ String ":" r1 = s2 +:+ String ":" r2 → s1 = s2 ∧ r1 = r2.
Proof.
  intros H1 H2. revert s2. induction s1 as [|a s1 IH]; intros [|b s2] Heq.
  - rewrite !string_app_nil_l in Heq. by injection Heq.
  - rewrite string_app_nil_l, string_app_cons in Heq. injection Heq as _ Heq.
    rewrite Heq, count_char_app in H1. simpl in H1.
    rewrite ?decide_True in H1 by done. lia.
  - rewrite string_app_nil_l, string_app_cons in Heq. injection Heq as _ Heq.
    rewrite <- Heq, count_char_app in H2. simpl in H2.
    rewrite ?decide_True in H2 by done. lia.
  - rewrite !string_app_cons in Heq. injection Heq as -> Heq.
    by destruct (IH s2 Heq) as [-> ->].
Qed.

Lemma pretty_N_char_plain x : pretty_N_char x ≠ ":"%char.
Proof. unfold pretty_N_char. by repeat case_match. Qed.

Lemma pretty_N_go_plain x s :
  count_char ":" s = 0 → count_char ":" (pretty_N_go x s) = 0.
Proof.
  revert s. induction (N.lt_wf_0 x) as [x _ IH]; intros s Hs.
  assert (x = 0 ∨ 0 < x)%N as [->|Hpos] by lia.
  - by rewrite pretty_N_go_0.
  - rewrite pretty_N_go_step by done. apply IH; [by apply N.div_lt|].
    simpl. rewrite decide_False by apply pretty_N_char_plain. done.
Qed.

Lemma pretty_Z_plain (z : Z) : count_char ":" (pretty z) = 0.
Proof.
  assert (∀ p : positive, count_char ":" (pretty p) = 0) as Hpos.
  { intros p. unfold pretty, pretty_positive, pretty, pretty_N.
    case_decide; [done|]. by apply pretty_N_go_plain. }
  destruct z as [|p|p]; [done|apply Hpos|].
  unfold pretty, pretty_Z. rewrite count_char_app. simpl.
  change (pretty_positive p) with (pretty p). rewrite Hpos. done.
Qed.

Lemma Exchange_value_plain e : count_char ":" (Exchange_value e) = 0.
Proof. by destruct e. Qed.

Lemma TimeFrame_value_inj t1 t2 :
  TimeFrame_value t1 = TimeFrame_value t2 → t1 = t2.
Proof. by destruct t1, t2. Qed.

Lemma TimeFrame_value_plain t :
  count_char ":" ("timeframe=" +:+ TimeFrame_value t) = 0.
Proof. by destruct t. Qed.

Section Keys.
Context `{Externals}.

Lemma ticker_key_str exchange symbol :
  key_str "ticker" [("exchange", VStr exchange); ("symbol", VStr symbol)]
  = "ticker:exchange=" +:+ (exchange +:+ String ":" ("symbol=" +:+ symbol)).
Proof. reflexivity. Qed.

Lemma ohlcv_key_str exchange symbol timeframe limit :
  key_str "ohlcv" [("exchange", VStr exchange); ("symbol", VStr symbol);
                   ("timeframe", VStr timeframe); ("limit", VInt limit)]
  = "ohlcv:exchange="
    +:+ (exchange +:+ String ":"
           ("limit=" +:+ (pretty limit +:+ String ":"
              ("symbol=" +:+ (symbol +:+ String ":"
                 ("timeframe=" +:+ timeframe)))))).
Proof. reflexivity. Qed.

(** X25.  Requests that differ have different cache keys, as far as the
    digested strings go: the string digested for a ticker determines the
    exchange and the symbol, and the string digested for candles
    determines the exchange, the symbol, the timeframe and the limit,
    whatever characters the symbol contains.  Two different requests can
    therefore share a cache entry only by a collision of the digest. *)
Theorem different_requests_have_different_keys :
  (∀ e1 e2 s1 s2,
     key_str "ticker" [("exchange", VStr (Exchange_value e1));
                       ("symbol", VStr s1)]
     = key_str "ticker" [("exchange", VStr (Exchange_value e2));
                         ("symbol", VStr s2)] →
     e1 = e2 ∧ s1 = s2)
  ∧ (∀ e1 e2 s1 s2 t1 t2 l1 l2,
       key_str "ohlcv" [("exchange", VStr (Exchange_value e1));
                        ("symbol", VStr s1);
                        ("timeframe", VStr (TimeFrame_value t1));
                        ("limit", VInt l1)]
       = key_str "ohlcv" [("exchange", VStr (Exchange_value e2));
                          ("symbol", VStr s2);
                          ("timeframe", VStr (TimeFrame_value t2));
                          ("limit", VInt l2)] →
       e1 = e2 ∧ s1 = s2 ∧ t1 = t2 ∧ l1 = l2)
  ∧ (∀ r1 r2,
       ticker_key (Exchange_value (exchange r1)) (symbol r1)
       = ticker_key (Exchange_value (exchange r2)) (symbol r2) →
       r1 = r2 ∨ ∃ x y, x ≠ y ∧ md5_hexdigest x = md5_hexdigest y).
Proof.
  assert (∀ e1 e2 s1 s2,
     key_str "ticker" [("exchange", VStr (Exchange_value e1));
                       ("symbol", VStr s1)]
     = key_str "ticker" [("exchange", VStr (Exchange_value e2));
                         ("symbol", VStr s2)] →
     e1 = e2 ∧ s1 = s2) as Hticker.
  { intros e1 e2 s1 s2. rewrite !ticker_key_str.
    intros Heq%(inj (String.app _)).
    apply first_colon_split in Heq as [He Heq];
      [|apply Exchange_value_plain..].
    apply Exchange_value_inj in He. by apply (inj (String.app _)) in Heq. }
  split; [exact Hticker|]. split.
  - intros e1 e2 s1 s2 t1 t2 l1 l2. rewrite !ohlcv_key_str.
    intros Heq%(inj (String.app _)).
    apply first_colon_split in Heq as [He Heq];
      [|apply Exchange_value_plain..].
    apply Exchange_value_inj in He. apply (inj (String.app _)) in Heq.
    apply first_colon_split in Heq as [Hl Heq]; [|apply pretty_Z_plain..].
    apply (inj pretty) in Hl. apply (inj (String.app _)) in Heq.
    apply last_colon_split in Heq as [Hs Ht];
      [|apply TimeFrame_value_plain..].
    apply (inj (String.app _)), TimeFrame_value_inj in Ht. done.
  - intros [s1 e1] [s2 e2]. simpl. unfold ticker_key, _generate_key.
    intros Hkey.
    destruct (decide (key_str "ticker" [("exchange", VStr (Exchange_value e1));
                                        ("symbol", VStr s1)]
                      = key_str "ticker" [("exchange", VStr (Exchange_value e2));
                                          ("symbol", VStr s2)]))
      as [Heq|Hne].
    + left. apply Hticker in Heq as [-> ->]. done.
    + right. eauto.
Qed.
End Keys.

(** ** Candles *)

Section Candles.
Context `{Externals}.

Lemma OHLCVData_of_all_fields ohlcv data :
  OHLCVData_of_all ohlcv = Ok data →
  length data = length ohlcv
  ∧ open <$> data = rc_open <$> ohlcv
  ∧ cd_high <$> data = rc_high <$> ohlcv
  ∧ cd_low <$> data = rc_low <$> ohlcv
  ∧ close <$> data = rc_close <$> ohlcv
  ∧ cd_volume <$> data = rc_volume <$> ohlcv.
Proof.
  revert data. induction ohlcv as [|candle rest IH]; intros data; simpl.
  { by intros [= <-]. }
  unfold OHLCVData_of.
  destruct (fromtimestamp _) as [ts|]; [|done]. cbn [result_bind].
  destruct (OHLCVData_of_all rest) as [ds|]; [|done]. cbn [result_bind].
  intros [= <-]. destruct (IH ds eq_refl) as (? & ? & ? & ? & ? & ?).
  rewrite !fmap_cons. simpl. split_and!; by f_equal.
Qed.

(** X26.  In a world reached by the server, a request for candles that
    finds no live entry, on a ready exchange that answers with candles
    that can be converted, returns them all, in the order received, each
    with the prices and the volume of its row: the server does not cut
    the list to the limit of the request.  One upstream call is made, no
    error is counted, and the candles are left in the cache for sixty
    seconds from the end of the call. *)
Theorem fetched_candles_are_returned_and_cached request w ohlcv data :
  reachable w →
  ready (Exchange_value (exchange (base request))) w →
  contains (ohlcv_cache (caches w))
    (ohlcv_key (Exchange_value (exchange (base request)))
       (symbol (base request)) (TimeFrame_value (timeframe request))
       (limit request)) (now w)
  = false →
  fetch_ohlcv_reply (upstream w) (calls w)
    (Exchange_value (exchange (base request))) (symbol (base request))
    (TimeFrame_value (timeframe request))
    (match since request with
     | Some dt => Some (int (timestamp dt * 1000)%R)
     | None => None
     end)
    (limit request) = Ok ohlcv →
  OHLCVData_of_all ohlcv = Ok data →
  ∃ w', get_ohlcv request w = (Ok data, w')
        ∧ length data = length ohlcv
        ∧ close <$> data = rc_close <$> ohlcv
        ∧ cd_volume <$> data = rc_volume <$> ohlcv
        ∧ calls w' = calls w ++ [ohlcv_call request]
        ∧ request_count (server w') = request_count (server w) + 1
        ∧ error_count (server w') = error_count (server w)
        ∧ assoc (ohlcv_key (Exchange_value (exchange (base request)))
                   (symbol (base request))
                   (TimeFrame_value (timeframe request)) (limit request))
                (links (ohlcv_cache (caches w')))
          = Some (data, (now w' + 60)%Z).
Proof.
  intros Hreach Hready Hmiss Hreply Hconv.
  apply reachable_caches_sound in Hreach.
  rewrite get_ohlcv_miss by done. unfold try_except.
  rewrite get_ohlcv_fetch_run by done.
  change (upstream (requested w)) with (upstream w).
  change (calls (requested w)) with (calls w).
  rewrite Hreply, Hconv.
  destruct (set_ohlcv_sound (Exchange_value (exchange (base request)))
              (symbol (base request)) (TimeFrame_value (timeframe request))
              (limit request) data
              (called (ohlcv_call request) (requested w)))
    as (w' & -> & _ & Hk & Hc & Hcalls & Hnow & _).
  { apply (upstream_call_caches_sound (ohlcv_call request)
             (λ _ _, Ok ()) (requested w)).
    by apply incr_request_count_caches_sound. }
  destruct (OHLCVData_of_all_fields _ _ Hconv) as (? & _ & _ & _ & ? & ?).
  exists w'. split; [done|]. rewrite Hcalls, Hnow, Hk.
  unfold counters in Hc. injection Hc as -> ->. done.
Qed.
End Candles.

(** ** More scenarios, run *)

Section MoreScenarioFacts.
Local Existing Instance plain_externals.

Lemma cached_empty_list_counts_an_error_witness :
  assoc (ohlcv_key "binance" "BTC/USDT" "1h" 100)
        (links (ohlcv_cache (caches after_empty_reply))) = Some ([], 61%Z)
  ∧ now after_empty_reply = 1%Z
  ∧ (get_ohlcv btc_1h after_empty_reply).1
    = Raise (RuntimeError "Failed to fetch OHLCV data: Connection failed")
  ∧ error_count (server after_empty_reply) = 0
  ∧ error_count (server (get_ohlcv btc_1h after_empty_reply).2) = 1.
Proof.
  split; [reflexivity|]. split; [reflexivity|].
  destruct (cached_empty_list_counts_an_error btc_1h after_empty_reply 61%Z
              (demo_handle BINANCE) (NetworkError "Connection failed"))
    as (w' & Hrun & _ & _ & Herr).
  - reflexivity.
  - reflexivity.
  - vm_compute. reflexivity.
  - reflexivity.
  - reflexivity.
  - rewrite Hrun. split; [reflexivity|]. split; [reflexivity|]. exact Herr.
Defined.

(** C3, as stated, fails: the limit 100 passed as the text ["100"] is
    another value, and the digested string, hence the key, is the same
    (no collision of the digest is involved). *)
Lemma values_written_alike_share_a_key :
  assoc "limit" ohlcv_parameters = Some (VInt 100)
  ∧ VStr "100" ≠ VInt 100
  ∧ key_str "ohlcv" (set_value "limit" (VStr "100") ohlcv_parameters)
    = key_str "ohlcv" ohlcv_parameters
  ∧ _generate_key "ohlcv" (set_value "limit" (VStr "100") ohlcv_parameters)
    = _generate_key "ohlcv" ohlcv_parameters.
Proof. by split_and!. Qed.

Lemma demo_world_reachable : reachable demo_world.
Proof. by exists (λ e, Ok (demo_handle e)), 0%Z, demo_upstream, []. Qed.

Lemma demo_world_ready e : ready (Exchange_value e) demo_world.
Proof. exists (demo_handle e). by destruct e. Qed.

Lemma fetched_ticker_is_returned_and_cached_witness :
  ∃ w', get_ticker btc_binance demo_world = (Ok demo_ticker_data, w')
        ∧ calls w' = calls demo_world ++ [ticker_call btc_binance]
        ∧ request_count (server w') = request_count (server demo_world) + 1
        ∧ error_count (server w') = error_count (server demo_world)
        ∧ assoc (ticker_key "binance" "BTC/USDT")
                (links (ticker_cache (caches w')))
          = Some (demo_ticker_data, (now w' + 10)%Z).
Proof.
  apply (fetched_ticker_is_returned_and_cached btc_binance demo_world
           demo_ticker demo_ticker_data).
  - by exists (λ e, Ok (demo_handle e)), 0%Z, demo_upstream, [].
  - exists (demo_handle BINANCE). split; [vm_compute|]; reflexivity.
  - vm_compute. reflexivity.
  - reflexivity.
  - reflexivity.
Defined.

Lemma ticker_cached_for_ten_seconds_witness :
  (∃ w2, get_ticker btc_binance (sleep 9 after_first_ticker)
         = (Ok demo_ticker_data, w2)
         ∧ calls w2 = calls after_first_ticker)
  ∧ calls (get_ticker btc_binance (sleep 10 after_first_ticker)).2
    = calls after_first_ticker ++ [ticker_call btc_binance].
Proof.
  assert (contains (ticker_cache (caches demo_world))
            (ticker_key "binance" "BTC/USDT") (now demo_world) = false)
    as Hmiss by (vm_compute; reflexivity).
  assert (get_ticker btc_binance demo_world
          = (Ok demo_ticker_data, after_first_ticker)) as Hget
    by reflexivity.
  split.
  - apply (proj1 (ticker_cached_for_ten_seconds btc_binance demo_world
                    demo_ticker_data after_first_ticker 9
                    demo_world_reachable Hmiss Hget)).
    lia.
  - apply (proj2 (ticker_cached_for_ten_seconds btc_binance demo_world
                    demo_ticker_data after_first_ticker 10
                    demo_world_reachable Hmiss Hget)); [lia|].
    exists (demo_handle BINANCE). split; [vm_compute|]; reflexivity.
Defined.

Lemma candles_cached_regardless_of_since_witness :
  since sol_1h_since ≠ since sol_1h
  ∧ ∃ w2, get_ohlcv sol_1h_since (get_ohlcv sol_1h demo_world).2
          = (Ok rising_candles, w2)
          ∧ calls w2 = calls (get_ohlcv sol_1h demo_world).2.
Proof.
  split; [done|].
  apply (candles_cached_regardless_of_since sol_1h sol_1h_since demo_world
           rising_first [rising_second]).
  - exact demo_world_reachable.
  - reflexivity.
  - reflexivity.
  - reflexivity.
  - reflexivity.
Defined.

Lemma failed_ticker_fetch_is_not_cached_witness :
  ∃ w', get_ticker kraken_btc demo_world
        = (Raise (RuntimeError "Network error: Connection failed"), w')
        ∧ caches w' = caches demo_world
        ∧ calls w' = calls demo_world ++ [ticker_call kraken_btc]
        ∧ error_count (server w') = error_count (server demo_world) + 1
        ∧ ∀ n : nat,
            calls (get_ticker kraken_btc (sleep n w')).2
            = calls w' ++ [ticker_call kraken_btc].
Proof.
  apply (failed_ticker_fetch_is_not_cached kraken_btc demo_world
           (NetworkError "Connection failed")).
  - exists (demo_handle KRAKEN). split; [vm_compute|]; reflexivity.
  - vm_compute. reflexivity.
  - reflexivity.
Defined.

Lemma clear_cache_forces_refetch_witness :
  calls (get_ticker btc_binance (clear_cache after_first_ticker).2).2
  = calls after_first_ticker ++ [ticker_call btc_binance].
Proof.
  destruct (clear_cache_forces_refetch after_first_ticker)
    as (w' & Hclear & _ & _ & _ & _ & _ & Hticker & _).
  rewrite Hclear. apply Hticker.
  exists (demo_handle BINANCE). split; [vm_compute|]; reflexivity.
Defined.

Lemma caches_stay_within_ceilings_witness :
  currsize (ticker_cache (caches after_first_ticker)) ≤ 1000
  ∧ currsize (ohlcv_cache (caches after_first_ticker)) ≤ 500.
Proof.
  destruct (caches_stay_within_ceilings after_first_ticker)
    as (Ht & Ho & _).
  - by exists (λ e, Ok (demo_handle e)), 0%Z, demo_upstream,
              [OpGetTicker btc_binance].
  - by split.
Defined.

Lemma server_status_is_consistent_witness :
  ∃ st w', get_server_status after_first_ticker = (Ok st, w')
    ∧ total_requests st = 1
    ∧ (0 <= error_rate st <= 1)%R
    ∧ ticker_size st ≤ 1000.
Proof.
  destruct (server_status_is_consistent after_first_ticker)
    as (st & w' & Hst & _ & Hreq & _ & _ & _ & _ & _ & _ & Hreach).
  destruct Hreach as (_ & Hrate & _ & Hsize & _).
  { by exists (λ e, Ok (demo_handle e)), 0%Z, demo_upstream,
              [OpGetTicker btc_binance]. }
  exists st, w'. split; [exact Hst|]. split; [exact Hreq|]. by split.
Defined.

Lemma endpoints_raise_only_runtime_error_witness :
  ∃ cause,
    RuntimeError "Network error: Connection failed"
    = RuntimeError (match cause with
                    | NetworkError _ => "Network error: "
                    | ExchangeError _ => "Exchange error: "
                    | _ => "Unexpected error: "
                    end +:+ str_exn cause).
Proof.
  apply (proj1 endpoints_raise_only_runtime_error kraken_btc demo_world).
  reflexivity.
Defined.

Lemma statistics_are_consistent_witness :
  ∃ st, statistics_of sol_1h rising_candles = Ok st
        ∧ period st = 2
        ∧ (highest_price st <? current_price st)%float = false
        ∧ (current_price st <? lowest_price st)%float = false.
Proof.
  assert (∃ st, statistics_of sol_1h rising_candles = Ok st) as [st Hst]
    by (eexists; vm_compute; reflexivity).
  exists st. split; [exact Hst|].
  destruct (statistics_are_consistent sol_1h rising_candles st Hst)
    as (Hperiod & _ & _ & _ & _ & Hhigh & Hlow & _).
  split; [exact Hperiod|]. by split.
Defined.

Lemma price_statistics_outcomes_witness :
  (get_price_statistics eth_1h demo_world).1
  = Raise (ZeroDivisionError "float division by zero")
  ∧ request_count (server (get_price_statistics eth_1h demo_world).2) = 0 + 1
  ∧ error_count (server (get_price_statistics eth_1h demo_world).2) = 0 + 0.
Proof.
  destruct (price_statistics_outcomes eth_1h demo_world)
    as (_ & Hr & He & Hout).
  split; [|split; [exact Hr|exact He]].
  apply (proj1 Hout). reflexivity.
Defined.

Lemma markets_are_loaded_once_witness :
  ∃ w1 h1,
    load_markets "Binance" fresh_world = (Ok (), w1)
    ∧ calls w1 = [LoadMarkets "binance"]
    ∧ exchanges (exchange_manager (server w1)) !! "binance" = Some h1
    ∧ markets h1 = Some [("BTC/USDT", mkMarket "BTCUSDT")]
    ∧ load_markets "Binance" w1 = (Ok (), w1).
Proof.
  destruct (markets_are_loaded_once "Binance" fresh_world
              (fresh_handle BINANCE) [("BTC/USDT", mkMarket "BTCUSDT")])
    as (w1 & h1 & Hload & Hcalls & Hreg & Hm & _ & _ & Honce & _).
  - vm_compute. reflexivity.
  - reflexivity.
  - reflexivity.
  - exists w1, h1. split; [exact Hload|]. split; [exact Hcalls|].
    split; [exact Hreg|]. split; [exact Hm|]. by apply Honce.
Defined.

Lemma first_search_loads_the_catalogue_witness :
  ∃ w1,
    search_symbols "btc" "binance" fresh_world = (Ok ["BTC/USDT"], w1)
    ∧ calls w1 = [LoadMarkets "binance"]
    ∧ search_symbols "btc" "binance" w1 = (Ok ["BTC/USDT"], w1).
Proof.
  apply (first_search_loads_the_catalogue "btc" "binance" fresh_world
           (fresh_handle BINANCE) [("BTC/USDT", mkMarket "BTCUSDT")]).
  - vm_compute. reflexivity.
  - reflexivity.
  - reflexivity.
  - discriminate.
Defined.

Lemma fan_out_accounts_for_every_exchange_witness :
  ∃ m w',
    get_multi_exchange_ticker "btc/usdt" (Some [BINANCE; KRAKEN; HUOBI])
      demo_world = (Ok m, w')
    ∧ request_count (server w') = 0 + 3
    ∧ size m + (error_count (server w') - 0) = 3.
Proof.
  assert (NoDup [BINANCE; KRAKEN; HUOBI]) as Hnd.
  { repeat (apply NoDup_cons_2;
            [rewrite ?not_elem_of_cons; split_and?; try done;
             apply not_elem_of_nil|]).
    apply NoDup_nil_2. }
  destruct (fan_out_accounts_for_every_exchange "btc/usdt"
              (Some [BINANCE; KRAKEN; HUOBI]) demo_world eq_refl)
    as (m & w' & Hrun & Hr & _ & Hsize).
  exists m, w'. split; [exact Hrun|]. split; [exact Hr|].
  exact (Hsize Hnd).
Defined.

Lemma fan_out_validates_before_asking_witness :
  get_multi_exchange_ticker "BTCUSDT" None demo_world
  = (Raise (ValidationError
              "Symbol must be in format BASE/QUOTE (e.g., BTC/USDT)"),
     demo_world).
Proof.
  apply (proj1 (fan_out_validates_before_asking "BTCUSDT" None demo_world)).
  - reflexivity.
  - discriminate.
Defined.

Lemma unregistered_exchange_is_refused_witness :
  get_orderbook kraken_btc 20%Z world_without_kraken
  = (Raise (RuntimeError
              "Failed to fetch orderbook: Exchange kraken not supported or not initialized"),
     errored (requested world_without_kraken))
  ∧ search_symbols "btc" "Bitstamp" world_without_kraken
    = (Raise (RuntimeError
                "Failed to search symbols: Exchange Bitstamp not supported or not initialized"),
       world_without_kraken).
Proof.
  destruct (unregistered_exchange_is_refused world_without_kraken)
    as (Hbook & _ & _ & Hsearch & _).
  split.
  - apply (Hbook kraken_btc 20%Z). vm_compute. reflexivity.
  - apply (Hsearch "btc" "Bitstamp"). vm_compute. reflexivity.
Defined.

Lemma order_book_is_cut_to_the_limit_witness :
  ∃ ob w', get_orderbook btc_binance 2%Z book_world = (Ok ob, w')
    ∧ bids ob = [[50000; 1]; [49999; 2]]%R
    ∧ asks ob = [[50001; 1]; [50002; 2]]%R.
Proof.
  destruct (order_book_is_cut_to_the_limit btc_binance 2%Z book_world
              demo_book (0 / 1000)%R)
    as (ob & w' & Hrun & Hbids & Hasks & _).
  - exists (demo_handle BINANCE). split; [vm_compute|]; reflexivity.
  - reflexivity.
  - reflexivity.
  - lia.
  - exists ob, w'. split; [exact Hrun|]. by split.
Defined.

Lemma reply_without_timestamp_is_a_failure_witness :
  get_ticker btc_binance undated_world
  = (Raise (RuntimeError
              "Unexpected error: unsupported operand type(s) for /: 'NoneType' and 'int'"),
     errored (called (ticker_call btc_binance) (requested undated_world)))
  ∧ get_orderbook btc_binance 20%Z undated_world
    = (Raise (RuntimeError
                "Failed to fetch orderbook: unsupported operand type(s) for /: 'NoneType' and 'int'"),
       errored (called (orderbook_call btc_binance 20%Z)
                  (requested undated_world))).
Proof.
  destruct (reply_without_timestamp_is_a_failure btc_binance undated_world)
    as [Hticker Hbook].
  { exists (demo_handle BINANCE). split; [vm_compute|]; reflexivity. }
  split.
  - apply (Hticker undated_ticker); [vm_compute| |]; reflexivity.
  - apply (Hbook 20%Z undated_book); reflexivity.
Defined.

Lemma ticker_bid_and_ask_default_to_last_witness :
  TickerData_of btc_binance demo_ticker = Ok demo_ticker_data
  ∧ raw_bid demo_ticker = None
  ∧ bid demo_ticker_data = last demo_ticker_data.
Proof.
  split; [reflexivity|]. split; [reflexivity|].
  destruct (ticker_bid_and_ask_default_to_last btc_binance demo_ticker
              demo_ticker_data eq_refl)
    as (_ & _ & _ & [(b & Hb & _)|[_ Hbid]] & _).
  - discriminate Hb.
  - exact Hbid.
Defined.

Lemma different_requests_have_different_keys_witness :
  key_str "ticker" [("exchange", VStr "binance"); ("symbol", VStr "BTC/USDT")]
  ≠ key_str "ticker" [("exchange", VStr "kraken"); ("symbol", VStr "BTC/USDT")].
Proof.
  intros Heq.
  destruct (proj1 different_requests_have_different_keys
              BINANCE KRAKEN "BTC/USDT" "BTC/USDT" Heq) as [He _].
  discriminate He.
Defined.

Lemma fetched_candles_are_returned_and_cached_witness :
  ∃ w', get_ohlcv sol_1h demo_world = (Ok rising_candles, w')
        ∧ length rising_candles = length rising
        ∧ calls w' = calls demo_world ++ [ohlcv_call sol_1h]
        ∧ assoc (ohlcv_key "binance" "SOL/USDT" "1h" 100)
                (links (ohlcv_cache (caches w')))
          = Some (rising_candles, (now w' + 60)%Z).
Proof.
  destruct (fetched_candles_are_returned_and_cached sol_1h demo_world
              rising rising_candles)
    as (w' & Hrun & Hlen & _ & _ & Hcalls & _ & _ & Hk).
  - exact demo_world_reachable.
  - exists (demo_handle BINANCE). split; [vm_compute|]; reflexivity.
  - vm_compute. reflexivity.
  - reflexivity.
  - reflexivity.
  - exists w'. split; [exact Hrun|]. split; [exact Hlen|]. by split.
Defined.

End MoreScenarioFacts.

(** ** Entries that are alive *)

(** ** Expired entries and the entries of other keys *)

Section Purge.
Context {V : Type}.
Implicit Types (c : TTLCache V) (k : string) (t : time).

Lemma filter_all {A} (P : A → Prop) `{!∀ x, Decision (P x)} (l : list A) :
  Forall P l → filter P l = l.
Proof.
  induction 1 as [|x l Hx Hl IH]; [done|].
  by rewrite filter_cons_True, IH.
Qed.

Lemma filter_remove_key (P : string * (V * time) → Prop)
    `{!∀ x, Decision (P x)} k (l : list (string * (V * time))) :
  (∀ x, (k, x) ∈ l → ¬ P (k, x)) →
  filter P (remove_key k l) = filter P l.
Proof.
  induction l as [|[k1 y] l IH]; intros Hdead; simpl; [done|].
  destruct (decide (k = k1)) as [<-|Hne].
  - rewrite filter_cons_False by (apply Hdead; left).
    apply IH. intros x Hx. apply Hdead. by right.
  - rewrite !filter_cons. rewrite IH; [done|].
    intros x Hx. apply Hdead. by right.
Qed.

(** Unlinking the head of the chain. *)
Lemma unlink_maintains k e (ch : list (string * time))
    (lnk : list (string * (V * time))) :
  NoDup (keys lnk) → NoDup (keys ((k, e) :: ch)) →
  (∀ k' e', (k', e') ∈ (k, e) :: ch ↔ ∃ v, (k', (v, e')) ∈ lnk) →
  NoDup (keys (remove_key k lnk)) ∧ NoDup (keys ch)
  ∧ (∀ k' e', (k', e') ∈ ch ↔ ∃ v, (k', (v, e')) ∈ remove_key k lnk)
  ∧ (∀ x, (k, x) ∈ lnk → x.2 = e).
Proof.
  intros Hnl Hnc Hiff. unfold keys in Hnc. simpl in Hnc.
  apply NoDup_cons in Hnc as [Hk Hnc].
  split; [by apply NoDup_remove_key|]. split; [done|]. split.
  - intros k' e'. split.
    + intros Hin. assert (k' ≠ k) as Hne.
      { intros ->. apply Hk. apply list_elem_of_fmap. by exists (k, e'). }
      destruct (proj1 (Hiff k' e')) as [v Hv]; [by right|].
      exists v. by apply elem_of_remove_key.
    + intros [v [Hne Hv]%elem_of_remove_key].
      assert ((k', e') ∈ (k, e) :: ch) as Hin by (apply Hiff; eauto).
      apply elem_of_cons in Hin as [[= ? ?]|Hin]; [congruence|done].
  - intros [v e'] Hin. simpl.
    assert ((k, e') ∈ (k, e) :: ch) as Hc by (apply Hiff; eauto).
    apply elem_of_cons in Hc as [[= ?]|Hc]; [done|].
    destruct Hk. apply list_elem_of_fmap. by exists (k, e').
Qed.

Lemma expire_walk_links t (ch : list (string * time))
    (lnk : list (string * (V * time))) :
  NoDup (keys lnk) → NoDup (keys ch) →
  (∀ k e, (k, e) ∈ ch ↔ ∃ v, (k, (v, e)) ∈ lnk) →
  StronglySorted (λ x y, x.2 ≤ y.2)%Z ch →
  (expire_walk t ch lnk).2 = filter (λ x, t < x.2.2)%Z lnk.
Proof.
  revert lnk. induction ch as [|[k e] ch IH]; intros lnk Hnl Hnc Hiff Hs.
  { simpl. destruct lnk as [|[k [v e]] lnk]; [done|].
    assert ((k, e) ∈ @nil (string * time)) as Hin
      by (apply Hiff; exists v; left).
    by apply elem_of_nil in Hin. }
  simpl. case_bool_decide as Halive.
  - simpl. symmetry. apply filter_all. apply Forall_forall.
    intros [k' [v' e']] Hin. simpl.
    assert ((k', e') ∈ (k, e) :: ch) as Hc by (apply Hiff; eauto).
    apply StronglySorted_inv in Hs as [_ Hall]. rewrite Forall_forall in Hall.
    apply elem_of_cons in Hc as [[= -> ->]|Hc]; [done|].
    specialize (Hall _ Hc). simpl in Hall. lia.
  - destruct (unlink_maintains k e ch lnk Hnl Hnc Hiff)
      as (Hnl' & Hnc' & Hiff' & Hdead).
    apply StronglySorted_inv in Hs as [Hs _].
    rewrite IH by done. apply filter_remove_key.
    intros x Hx. rewrite (surjective_pairing x). simpl.
    rewrite (Hdead x Hx). done.
Qed.

(** [expire] removes exactly the entries that are no longer alive. *)
Lemma expire_links c t t0 :
  well_formed c t0 → links (expire c t) = filter (λ x, t < x.2.2)%Z (links c).
Proof.
  intros (Hnl & Hnc & Hiff & Hs & _).
  pose proof (expire_walk_links t (chain c) (links c) Hnl Hnc Hiff Hs) as Hw.
  unfold expire. by destruct (expire_walk t (chain c) (links c)).
Qed.

Lemma assoc_filter (P : string * (V * time) → Prop)
    `{!∀ x, Decision (P x)} k x (l : list (string * (V * time))) :
  assoc k l = Some x → P (k, x) → assoc k (filter P l) = Some x.
Proof.
  induction l as [|[k1 y] l IH]; simpl; [done|].
  destruct (decide (k = k1)) as [<-|Hne].
  - intros [= ->] HP. rewrite filter_cons_True by done. simpl.
    by rewrite decide_True.
  - intros Hk HP. rewrite filter_cons. case_decide; [|by apply IH].
    simpl. rewrite decide_False by done. by apply IH.
Qed.

Lemma assoc_remove_key_ne {X} k k' (l : list (string * X)) :
  k ≠ k' → assoc k (remove_key k' l) = assoc k l.
Proof.
  intros Hne. induction l as [|[k1 y] l IH]; simpl; [done|].
  destruct (decide (k' = k1)) as [<-|Hne1].
  - by rewrite decide_False.
  - simpl. by rewrite IH.
Qed.

Lemma assoc_snoc_ne {X} k k' (x : X) (l : list (string * X)) :
  k ≠ k' → assoc k (l ++ [(k', x)]) = assoc k l.
Proof.
  intros Hne. induction l as [|[k1 y] l IH]; simpl.
  - by rewrite decide_False.
  - by rewrite IH.
Qed.

(** A lookup leaves the entries of the other keys where they are, and
    the number of entries as it is. *)
Lemma get_other c k k' t :
  k ≠ k' → assoc k (links (get c k' t).2) = assoc k (links c).
Proof.
  intros Hne. unfold get, getitem, move_to_end.
  destruct (contains c k' t); [|done].
  destruct (assoc k' (links c)) as [[v e]|] eqn:Hk; [|done].
  case_bool_decide; simpl; by rewrite assoc_snoc_ne, assoc_remove_key_ne.
Qed.

Lemma currsize_get c k t t0 :
  well_formed c t0 → currsize (get c k t).2 = currsize c.
Proof.
  intros (Hnl & _). unfold get, getitem, move_to_end.
  destruct (contains c k t); [|done].
  destruct (assoc k (links c)) as [[v e]|] eqn:Hk; [|done].
  pose proof (length_remove_key_present k (links c) Hnl (assoc_keys _ _ _ Hk)).
  unfold currsize.
  case_bool_decide; simpl; rewrite length_app; simpl; lia.
Qed.

(** An assignment to a container that is not full leaves the live
    entries of the other keys where they are. *)
Lemma setitem_other c k k' v v' e t t0 :
  well_formed c t0 → k ≠ k' →
  assoc k (links c) = Some (v, e) → (t < e)%Z →
  currsize c < maxsize c →
  assoc k (links (setitem c k' v' t).2) = Some (v, e).
Proof.
  intros Hwf Hne Hk Halive Hroom.
  pose proof (expire_links c t t0 Hwf) as Hl.
  pose proof (currsize_expire c t) as Hsz.
  pose proof (maxsize_expire c t) as Hm.
  assert (assoc k (links (expire c t)) = Some (v, e)) as Hk1.
  { rewrite Hl. by apply assoc_filter. }
  unfold setitem. set (c1 := expire c t) in *. clearbody c1.
  assert ((maxsize c1 <? 1)%nat = false) as -> by (apply Nat.ltb_ge; lia).
  case_bool_decide.
  - simpl. by rewrite assoc_snoc_ne, assoc_remove_key_ne.
  - rewrite make_room_fits by lia. simpl.
    by rewrite assoc_snoc_ne, assoc_remove_key_ne.
Qed.
End Purge.

Section LiveEntries.
Context `{Externals}.

(** X27.  The sizes that [get_server_status] reports are the numbers of
    entries that have not expired: taking the length of a category
    discards its expired entries first, and the categories are left
    holding the live entries only, in the order they were in. *)
Theorem server_status_counts_live_entries w :
  reachable w →
  ∃ st w', get_server_status w = (Ok st, w')
    ∧ ticker_size st
      = length (filter (λ x, now w < x.2.2)%Z
                  (links (ticker_cache (caches w))))
    ∧ ohlcv_size st
      = length (filter (λ x, now w < x.2.2)%Z
                  (links (ohlcv_cache (caches w))))
    ∧ links (ticker_cache (caches w'))
      = filter (λ x, now w < x.2.2)%Z (links (ticker_cache (caches w)))
    ∧ links (ohlcv_cache (caches w'))
      = filter (λ x, now w < x.2.2)%Z (links (ohlcv_cache (caches w))).
Proof.
  intros (_ & Hwt & _ & _ & Hwo & _)%reachable_caches_sound.
  unfold get_server_status.
  rewrite div_nonzero by (apply not_0_INR; lia).
  unfold len, caches in *. eexists _, _. split; [reflexivity|].
  cbn [ticker_size ohlcv_size server cache ticker_cache ohlcv_cache].
  unfold currsize.
  rewrite (expire_links _ _ _ Hwt), (expire_links _ _ _ Hwo). done.
Qed.

(** The lookup that opens [get_ticker], with what it leaves in the
    ticker category. *)
Lemma lookup_ticker_run exchange symbol w :
  ∃ o w', with_cache (λ cm t, CacheManager_get_ticker cm exchange symbol t) w
          = (Ok o, w')
          ∧ ticker_cache (caches w')
            = (get (ticker_cache (caches w)) (ticker_key exchange symbol)
                 (now w)).2
          ∧ now w' = now w.
Proof.
  unfold with_cache, CacheManager_get_ticker, caches.
  destruct (get_total (ticker_cache (cache (server w)))
              (ticker_key exchange symbol) (now w)) as [o Ho].
  destruct (get _ _ _) as [r c]. simpl in Ho. subst r.
  eexists _, _. split; [done|]. by simpl.
Qed.

(** The assignment that closes a fetch in [get_ticker]. *)
Lemma store_ticker_run exchange symbol data w :
  ∃ r w', with_cache (λ cm t, CacheManager_set_ticker cm exchange symbol
                                data t) w
          = (r, w')
          ∧ ticker_cache (caches w')
            = (setitem (ticker_cache (caches w)) (ticker_key exchange symbol)
                 data (now w)).2
          ∧ now w' = now w.
Proof.
  unfold with_cache, CacheManager_set_ticker, caches.
  destruct (setitem _ _ _ _) as [r c]. by eexists _, _.
Qed.

(** What [get_ticker] does to the ticker category: the lookup, and at
    most one assignment, made when the call ends. *)
Lemma get_ticker_cache_after request w :
  let key := ticker_key (Exchange_value (exchange request)) (symbol request) in
  let c1 := (get (ticker_cache (caches w)) key (now w)).2 in
  let w' := (get_ticker request w).2 in
  ticker_cache (caches w') = c1
  ∨ ∃ data, ticker_cache (caches w') = (setitem c1 key data (now w')).2.
Proof.
  intros key c1 w'. unfold w', get_ticker. rewrite mbind_unfold.
  change (incr_request_count w) with (Ok (), requested w). cbv beta iota.
  destruct (lookup_ticker_run (Exchange_value (exchange request))
              (symbol request) (requested w)) as (o & w1 & Hlook & Hc1 & _).
  change (caches (requested w)) with (caches w) in Hc1.
  change (now (requested w)) with (now w) in Hc1. fold key in Hc1.
  fold c1 in Hc1. rewrite (mbind_unfold _ _ (requested w)), Hlook. clear Hlook.
  destruct o as [data|]; [by left|].
  unfold try_except, get_ticker_fetch. rewrite (mbind_unfold _ _ w1).
  destruct (get_exchange _ w1) as [[ref|e] w2] eqn:H1;
    apply get_exchange_world in H1 as ->; [|by left].
  rewrite (mbind_unfold _ _ w1).
  pose proof (load_markets_caches (Exchange_value (exchange request)) w1) as Hl.
  destruct (load_markets _ w1) as [[[]|e] w3]; simpl in Hl;
    [|left; simpl; unfold caches in *; by rewrite Hl].
  rewrite (mbind_unfold _ _ w3), upstream_call_run.
  destruct (fetch_ticker_reply _ _ _ _) as [ticker|e];
    [|left; simpl; unfold caches in *; by rewrite Hl].
  rewrite mbind_unfold.
  destruct (TickerData_of request ticker) as [data|e]; unfold lift;
    cbv beta iota; [|left; simpl; unfold caches in *; by rewrite Hl].
  right. exists data. rewrite mbind_unfold.
  set (w4 := called _ w3).
  assert (ticker_cache (caches w4) = c1) as Hc4.
  { rewrite <- Hc1. unfold caches in *. simpl. by rewrite Hl. }
  destruct (store_ticker_run (Exchange_value (exchange request))
              (symbol request) data w4) as (r & w5 & Hset & Hc5 & Hn5).
  rewrite Hset. fold key in Hc5. rewrite Hc4 in Hc5.
  unfold caches in *.
  rewrite <- Hn5 in Hc5. destruct r as [[]|e]; exact Hc5.
Qed.

(** X28.  A ticker request does not disturb the cached ticker of another
    request: in a world reached by the server whose ticker category is
    not full, an entry stored under another key that is still alive when
    the request returns is where it was, and the request it belongs to
    is then served from the cache, without any upstream call. *)
Theorem other_cached_tickers_are_undisturbed r1 r2 w data e :
  reachable w →
  ticker_key (Exchange_value (exchange r1)) (symbol r1)
  ≠ ticker_key (Exchange_value (exchange r2)) (symbol r2) →
  assoc (ticker_key (Exchange_value (exchange r1)) (symbol r1))
        (links (ticker_cache (caches w))) = Some (data, e) →
  currsize (ticker_cache (caches w)) < 1000 →
  (now (get_ticker r2 w).2 < e)%Z →
  assoc (ticker_key (Exchange_value (exchange r1)) (symbol r1))
        (links (ticker_cache (caches (get_ticker r2 w).2)))
  = Some (data, e)
  ∧ ∃ w2, get_ticker r1 (get_ticker r2 w).2 = (Ok data, w2)
          ∧ calls w2 = calls (get_ticker r2 w).2.
Proof.
  intros (_ & Hwt & Hmt & _)%reachable_caches_sound Hne Hk Hroom Halive.
  set (key1 := ticker_key (Exchange_value (exchange r1)) (symbol r1)) in *.
  set (key2 := ticker_key (Exchange_value (exchange r2)) (symbol r2)) in *.
  set (c := ticker_cache (caches w)) in *.
  set (c1 := (get c key2 (now w)).2).
  assert (well_formed c1 (now w)) as Hwf1 by (by apply get_maintains).
  assert (assoc key1 (links c1) = Some (data, e)) as Hk1.
  { unfold c1. by rewrite get_other. }
  assert (currsize c1 < maxsize c1) as Hroom1.
  { unfold c1. rewrite (currsize_get c key2 (now w) (now w) Hwt).
    destruct (get_config c key2 (now w)) as [-> _]. lia. }
  assert (assoc key1 (links (ticker_cache (caches (get_ticker r2 w).2)))
          = Some (data, e)) as Hafter.
  { destruct (get_ticker_cache_after r2 w) as [->|[d ->]]; [done|].
    by apply (setitem_other c1 key1 key2 data d e _ (now w)). }
  split; [exact Hafter|].
  destruct (get_ticker_cache_hit r1 (get_ticker r2 w).2 data e Hafter Halive)
    as (w2 & Hhit & Hcalls & _).
  by exists w2.
Qed.
End LiveEntries.

Section LiveEntriesScenario.
Local Existing Instance plain_externals.

Lemma after_first_ticker_reachable : reachable after_first_ticker.
Proof.
  by exists (λ e, Ok (demo_handle e)), 0%Z, demo_upstream,
            [OpGetTicker btc_binance].
Qed.

Lemma server_status_counts_live_entries_witness :
  ∃ st w', get_server_status (sleep 10 after_first_ticker) = (Ok st, w')
    ∧ currsize (ticker_cache (caches after_first_ticker)) = 1
    ∧ ticker_size st = 0.
Proof.
  assert (reachable (sleep 10 after_first_ticker)) as Hreach.
  { by exists (λ e, Ok (demo_handle e)), 0%Z, demo_upstream,
              [OpGetTicker btc_binance; OpSleep 10]. }
  destruct (server_status_counts_live_entries (sleep 10 after_first_ticker)
              Hreach) as (st & w' & Hst & Hsize & _).
  exists st, w'. split; [exact Hst|]. split; [reflexivity|].
  rewrite Hsize. reflexivity.
Defined.

Lemma other_cached_tickers_are_undisturbed_witness :
  ∃ w2, get_ticker btc_binance (get_ticker btc_huobi after_first_ticker).2
        = (Ok demo_ticker_data, w2)
        ∧ calls w2 = calls (get_ticker btc_huobi after_first_ticker).2.
Proof.
  apply (other_cached_tickers_are_undisturbed btc_binance btc_huobi
           after_first_ticker demo_ticker_data 11%Z).
  - exact after_first_ticker_reachable.
  - discriminate.
  - reflexivity.
  - vm_compute. lia.
  - vm_compute. reflexivity.
Defined.
End LiveEntriesScenario.
